(** * Viber: change detection and shadow diff engine (src/viber.py)

    A shallow embedding of [ShadowCopyManager], [ChangeDatabase] and
    [FileChangeHandler], together with the parts of Python's [str],
    [pathlib] and [difflib] that the handler calls, and the properties
    of the design document checked against it. *)

From Stdlib Require Import ZArith NArith Ascii String List Lia Bool.
From stdpp Require Import gmap strings list fin_maps sorting pretty.

Local Open Scope nat_scope.

(** ** Python text

    A Python [str] is a sequence of Unicode code points.  File names and
    file contents on disk are byte strings and are kept as [string]. *)

Definition pystr := list N.

Definition ord (c : ascii) : N := N_of_ascii c.

(** An ASCII literal as a [str]. *)
Definition lit (s : string) : pystr := map ord (list_ascii_of_string s).

(** Reading of the two-character escape [\n] in literals, so that test
    vectors can be written as they appear in Python source. *)
Fixpoint esc (s : string) : string :=
  match s with
  | EmptyString => EmptyString
  | String c rest =>
      match rest with
      | String d rest' =>
          if (Ascii.eqb c "\" && Ascii.eqb d "n")%bool
          then String "010" (esc rest')
          else String c (esc rest)
      | EmptyString => String c EmptyString
      end
  end.

Definition py (s : string) : pystr := lit (esc s).

(** [s.startswith(p)] *)
Fixpoint startswith (s p : pystr) {struct p} : bool :=
  match p, s with
  | [], _ => true
  | _ :: _, [] => false
  | x :: p', y :: s' => (N.eqb x y && startswith s' p')%bool
  end.

(** The line boundaries of [str.splitlines]: LF, VT, FF, CR, FS, GS, RS,
    NEL, LS and PS; CR LF counts as one boundary. *)
Definition is_linebreak (c : N) : bool :=
  existsb (N.eqb c) [10; 11; 12; 13; 28; 29; 30; 133; 8232; 8233]%N.

(** [s.splitlines(keepends=True)], with [cur] the reversed line read so
    far. *)
Fixpoint splitlines_from (cur : pystr) (s : pystr) : list pystr :=
  match s with
  | [] => match cur with [] => [] | _ => [rev cur] end
  | c :: rest =>
      if N.eqb c 13 then
        match rest with
        | d :: rest' =>
            if N.eqb d 10
            then rev (d :: c :: cur) :: splitlines_from [] rest'
            else rev (c :: cur) :: splitlines_from [] rest
        | [] => [rev (c :: cur)]
        end
      else if is_linebreak c then rev (c :: cur) :: splitlines_from [] rest
      else splitlines_from (c :: cur) rest
  end.

Definition splitlines (s : pystr) : list pystr := splitlines_from [] s.

(** ** difflib.SequenceMatcher

    The handler calls [difflib.unified_diff], which is built on
    [SequenceMatcher(None, a, b)]: no junk predicate, [autojunk] on.
    Element types only need equality ([__eq__]/[__hash__]). *)

Definition Match := (nat * nat * nat)%type.

Inductive tag := Replace | Delete | Insert | Equal.

Definition opcode := (tag * nat * nat * nat * nat)%type.

Definition tag_is_equal (t : tag) : bool :=
  match t with Equal => true | _ => false end.

Section SequenceMatcher.
Context {A : Type} `{EqDecision A}.

(** The positions of [x] in [b], in increasing order, numbered from
    [j]: the list that [__chain_b] builds under key [x]. *)
Fixpoint indices_from (j : nat) (b : list A) (x : A) : list nat :=
  match b with
  | [] => []
  | y :: b' =>
      if decide (x = y) then j :: indices_from (S j) b' x
      else indices_from (S j) b' x
  end.

(** [elt in self.bpopular]: with [autojunk] and [len(b) >= 200], an
    element occurring more than [len(b) // 100 + 1] times. *)
Definition popular (b : list A) (x : A) : bool :=
  let n := length b in
  (200 <=? n) && (n / 100 + 1 <? length (indices_from 0 b x)).

(** [self.b2j.get(x, [])] after [__chain_b] has purged the popular
    elements. *)
Definition b2j_get (b : list A) (x : A) : list nat :=
  if popular b x then [] else indices_from 0 b x.

Definition same_at (a b : list A) (i j : nat) : bool :=
  match a !! i, b !! j with
  | Some x, Some y => bool_decide (x = y)
  | _, _ => false
  end.

(** The inner loop of [find_longest_match] over the positions [j] of
    [a[i]] in [b].  [j2len.get(j-1, 0)] is [0] at [j = 0], where the
    key is [-1].  [i - k + 1] is written [i + 1 - k]. *)
Fixpoint scan_js (j2len : gmap nat nat) (i blo bhi : nat) (js : list nat)
    (newj2len : gmap nat nat) (best : Match) : gmap nat nat * Match :=
  match js with
  | [] => (newj2len, best)
  | j :: js' =>
      if j <? blo then scan_js j2len i blo bhi js' newj2len best
      else if bhi <=? j then (newj2len, best)
      else
        let k := match j with
                 | O => 0
                 | S j' => default 0 (j2len !! j')
                 end + 1 in
        let '(_, _, bestsize) := best in
        scan_js j2len i blo bhi js' (<[j:=k]> newj2len)
          (if bestsize <? k then (i + 1 - k, j + 1 - k, k) else best)
  end.

(** The outer loop, [for i in range(alo, ahi)]. *)
Fixpoint scan_is (a b : list A) (blo bhi : nat) (rng : list nat)
    (j2len : gmap nat nat) (best : Match) : Match :=
  match rng with
  | [] => best
  | i :: rng' =>
      let js := match a !! i with Some x => b2j_get b x | None => [] end in
      let '(newj2len, best') := scan_js j2len i blo bhi js ∅ best in
      scan_is a b blo bhi rng' newj2len best'
  end.

(** [while besti > alo and bestj > blo and a[besti-1] == b[bestj-1]] *)
Fixpoint extend_back (a b : list A) (alo blo : nat)
    (besti bestj bestsize : nat) : Match :=
  match besti, bestj with
  | S i', S j' =>
      if (alo <? besti) && (blo <? bestj) && same_at a b i' j'
      then extend_back a b alo blo i' j' (S bestsize)
      else (besti, bestj, bestsize)
  | _, _ => (besti, bestj, bestsize)
  end.

(** [while besti+bestsize < ahi and bestj+bestsize < bhi and
    a[besti+bestsize] == b[bestj+bestsize]]; [n] bounds the number of
    rounds by [ahi - (besti + bestsize)], at which the test fails. *)
Fixpoint extend_forward (a b : list A) (ahi bhi : nat) (n : nat)
    (besti bestj bestsize : nat) : Match :=
  match n with
  | O => (besti, bestj, bestsize)
  | S n' =>
      if (besti + bestsize <? ahi) && (bestj + bestsize <? bhi)
         && same_at a b (besti + bestsize) (bestj + bestsize)
      then extend_forward a b ahi bhi n' besti bestj (S bestsize)
      else (besti, bestj, bestsize)
  end.

(** [find_longest_match(alo, ahi, blo, bhi)].  The junk set is empty,
    so the two loops that absorb junk never run. *)
Definition find_longest_match (a b : list A) (alo ahi blo bhi : nat) : Match :=
  let '(besti, bestj, bestsize) :=
    scan_is a b blo bhi (seq alo (ahi - alo)) ∅ (alo, blo, 0) in
  let '(besti, bestj, bestsize) :=
    extend_back a b alo blo besti bestj bestsize in
  extend_forward a b ahi bhi (ahi - (besti + bestsize)) besti bestj bestsize.

(** The work list of [get_matching_blocks]; [queue.pop()] takes the
    last element, [queue.append] adds at the end, so the list is kept
    reversed.  [None] when [fuel] rounds do not empty the queue. *)
Fixpoint blocks_loop (a b : list A) (fuel : nat)
    (queue : list (nat * nat * nat * nat)) (acc : list Match)
    : option (list Match) :=
  match queue with
  | [] => Some acc
  | (alo, ahi, blo, bhi) :: queue' =>
      match fuel with
      | O => None
      | S fuel' =>
          let '(i, j, k) := find_longest_match a b alo ahi blo bhi in
          if k =? 0 then blocks_loop a b fuel' queue' acc
          else
            let q1 := if (alo <? i) && (blo <? j)
                      then (alo, i, blo, j) :: queue' else queue' in
            let q2 := if (i + k <? ahi) && (j + k <? bhi)
                      then (i + k, ahi, j + k, bhi) :: q1 else q1 in
            blocks_loop a b fuel' q2 (acc ++ [(i, j, k)])
      end
  end.

(** Tuple comparison, as used by [matching_blocks.sort()]. *)
Definition match_leb (x y : Match) : bool :=
  let '(i1, j1, k1) := x in
  let '(i2, j2, k2) := y in
  (i1 <? i2) || ((i1 =? i2) && ((j1 <? j2) || ((j1 =? j2) && (k1 <=? k2)))).

Definition match_le (x y : Match) : Prop := match_leb x y = true.

#[global] Instance match_le_dec x y : Decision (match_le x y).
Proof. unfold match_le. apply _. Defined.

(** The pass that merges adjacent blocks; [cur] is [(i1, j1, k1)]. *)
Fixpoint collapse (cur : Match) (blocks : list Match) : list Match :=
  let '(i1, j1, k1) := cur in
  match blocks with
  | [] => if k1 =? 0 then [] else [cur]
  | (i2, j2, k2) :: rest =>
      if (i1 + k1 =? i2) && (j1 + k1 =? j2)
      then collapse (i1, j1, k1 + k2) rest
      else (if k1 =? 0 then [] else [cur]) ++ collapse (i2, j2, k2) rest
  end.

(** Every round of [blocks_loop] that pushes work removes at least
    one line of [a] from the rectangles still to be searched, so
    [2 * len(a) + 1] rounds are enough (lemma [blocks_loop_total]). *)
Definition blocks_fuel (a : list A) : nat := 2 * length a + 1.

(** [get_matching_blocks()] *)
Definition get_matching_blocks (a b : list A) : list Match :=
  let la := length a in
  let lb := length b in
  let found := default [] (blocks_loop a b (blocks_fuel a) [(0, la, 0, lb)] []) in
  collapse (0, 0, 0) (merge_sort match_le found) ++ [(la, lb, 0)].

(** [get_opcodes()], with [(i, j)] the loop's cursor. *)
Fixpoint opcodes_from (i j : nat) (blocks : list Match) : list opcode :=
  match blocks with
  | [] => []
  | (ai, bj, size) :: rest =>
      (if (i <? ai) && (j <? bj) then [(Replace, i, ai, j, bj)]
       else if i <? ai then [(Delete, i, ai, j, bj)]
       else if j <? bj then [(Insert, i, ai, j, bj)]
       else [])
      ++ (if size =? 0 then [] else [(Equal, ai, ai + size, bj, bj + size)])
      ++ opcodes_from (ai + size) (bj + size) rest
  end.

Definition get_opcodes (a b : list A) : list opcode :=
  opcodes_from 0 0 (get_matching_blocks a b).

(** The two fix-ups of [get_grouped_opcodes] at the ends of [codes]. *)
Definition trim_first (n : nat) (codes : list opcode) : list opcode :=
  match codes with
  | (Equal, i1, i2, j1, j2) :: rest =>
      (Equal, Nat.max i1 (i2 - n), i2, Nat.max j1 (j2 - n), j2) :: rest
  | _ => codes
  end.

Fixpoint trim_last (n : nat) (codes : list opcode) : list opcode :=
  match codes with
  | [] => []
  | [(Equal, i1, i2, j1, j2)] =>
      [(Equal, i1, Nat.min i2 (i1 + n), j1, Nat.min j2 (j1 + n))]
  | c :: rest => c :: trim_last n rest
  end.

(** The grouping loop; [group] is the group being filled. *)
Fixpoint group_loop (n : nat) (codes : list opcode) (group : list opcode)
    : list (list opcode) :=
  match codes with
  | [] =>
      match group with
      | [] => []
      | [(Equal, _, _, _, _)] => []
      | _ => [group]
      end
  | (t, i1, i2, j1, j2) :: rest =>
      if tag_is_equal t && (n + n <? i2 - i1) then
        (group ++ [(t, i1, Nat.min i2 (i1 + n), j1, Nat.min j2 (j1 + n))])
        :: group_loop n rest [(t, Nat.max i1 (i2 - n), i2, Nat.max j1 (j2 - n), j2)]
      else group_loop n rest (group ++ [(t, i1, i2, j1, j2)])
  end.

(** [get_grouped_opcodes(n)] *)
Definition get_grouped_opcodes (a b : list A) (n : nat) : list (list opcode) :=
  let codes := match get_opcodes a b with
               | [] => [(Equal, 0, 1, 0, 1)]
               | cs => cs
               end in
  group_loop n (trim_last n (trim_first n codes)) [].

(** The slice [a[i1:i2]]. *)
Definition slice (a : list A) (i1 i2 : nat) : list A :=
  take (i2 - i1) (drop i1 a).
End SequenceMatcher.

(** ** difflib.unified_diff *)

(** [_format_range_unified(start, stop)] *)
Definition format_range_unified (start stop : nat) : pystr :=
  let beginning := start + 1 in
  let length := stop - start in
  if length =? 1 then lit (pretty beginning)
  else
    let beginning := if length =? 0 then beginning - 1 else beginning in
    lit (pretty beginning) ++ lit "," ++ lit (pretty length).

(** The lines one opcode contributes to a hunk. *)
Definition opcode_lines (a b : list pystr) (c : opcode) : list pystr :=
  let '(t, i1, i2, j1, j2) := c in
  match t with
  | Equal => map (fun line => lit " " ++ line) (slice a i1 i2)
  | Replace => map (fun line => lit "-" ++ line) (slice a i1 i2)
               ++ map (fun line => lit "+" ++ line) (slice b j1 j2)
  | Delete => map (fun line => lit "-" ++ line) (slice a i1 i2)
  | Insert => map (fun line => lit "+" ++ line) (slice b j1 j2)
  end.

(** The [@@] line and the body of one group. *)
Definition hunk (a b : list pystr) (group : list opcode) : list pystr :=
  match group, last group with
  | (_, f1, _, f3, _) :: _, Some (_, _, l2, _, l4) =>
      (lit "@@ -" ++ format_range_unified f1 l2 ++ lit " +"
         ++ format_range_unified f3 l4 ++ lit " @@")
      :: concat (map (opcode_lines a b) group)
  | _, _ => []
  end.

(** [unified_diff(a, b, lineterm='')]: file names and dates are empty,
    [n] is 3.  The two header lines come before the first group. *)
Definition unified_diff (a b : list pystr) : list pystr :=
  match get_grouped_opcodes a b 3 with
  | [] => []
  | groups => lit "--- " :: lit "+++ " :: concat (map (hunk a b) groups)
  end.

(** ** FileChangeHandler._compute_diff *)

(** The counting loop over the diff, with [(added, deleted)] the two
    counters. *)
Fixpoint count_lines (diff : list pystr) (added deleted : nat) : nat * nat :=
  match diff with
  | [] => (added, deleted)
  | line :: rest =>
      if startswith line (lit "+") && negb (startswith line (lit "+++"))
      then count_lines rest (added + 1) deleted
      else if startswith line (lit "-") && negb (startswith line (lit "---"))
      then count_lines rest added (deleted + 1)
      else count_lines rest added deleted
  end.

Definition _compute_diff (old_content new_content : pystr) : nat * nat :=
  let old_lines := splitlines old_content in
  let new_lines := splitlines new_content in
  let diff := unified_diff old_lines new_lines in
  count_lines diff 0 0.

(** ** pathlib and os.path (POSIX flavour) *)

Local Open Scope string_scope.

(** [s.split('/')] *)
Fixpoint split_slash (s : string) : list string :=
  match s with
  | EmptyString => [EmptyString]
  | String c s' =>
      if Ascii.eqb c "/" then EmptyString :: split_slash s'
      else match split_slash s' with
           | x :: xs => String c x :: xs
           | [] => [String c EmptyString]
           end
  end.

(** The named segments of a path: empty and ["."] components are
    dropped by [PurePath]. *)
Definition path_segments (p : string) : list string :=
  filter (fun x => x ≠ "" ∧ x ≠ ".") (split_slash p).

(** The root that [posixpath.splitroot] finds: ["//"] for exactly two
    leading slashes, ["/"] for one or for three and more. *)
Definition path_root (p : string) : list string :=
  match p with
  | String "/" (String "/" (String "/" _)) => ["/"]
  | String "/" (String "/" _) => ["//"]
  | String "/" _ => ["/"]
  | _ => []
  end.

(** [Path(file_path).parts] *)
Definition path_parts (p : string) : list string :=
  path_root p ++ path_segments p.

(** [os.path.basename(p)] *)
Definition basename (p : string) : string :=
  default "" (last (split_slash p)).

(** [part.startswith('.')] *)
Definition starts_with_dot (part : string) : bool :=
  match part with
  | String "." _ => true
  | _ => false
  end.

(** The set [excluded] of [_should_process]. *)
Definition excluded : gset string :=
  {[ ".git"; "__pycache__"; "node_modules"; ".viber_shadow";
     ".viber.db"; "venv"; ".env" ]}.

(** [any(part in excluded or part.startswith('.') for part in path_parts)] *)
Definition any_part_excluded (p : string) : bool :=
  existsb (fun part => bool_decide (part ∈ excluded) || starts_with_dot part)
          (path_parts p).

(** ** Text files

    [open(path, 'r', encoding='utf-8', errors='ignore').read()] decodes
    the bytes, dropping what is not well-formed UTF-8, and then maps
    CR LF and CR to LF (universal newlines). *)

Local Open Scope N_scope.

Definition is_cont (b : N) : bool := (128 <=? b) && (b <? 192).

Definition valid2 (b0 b1 : N) : bool :=
  (194 <=? b0) && (b0 <? 224) && is_cont b1.

Definition valid3 (b0 b1 b2 : N) : bool :=
  (224 <=? b0) && (b0 <? 240) && is_cont b1 && is_cont b2
  && (negb (b0 =? 224) || (160 <=? b1))
  && (negb (b0 =? 237) || (b1 <? 160)).

Definition valid4 (b0 b1 b2 b3 : N) : bool :=
  (240 <=? b0) && (b0 <? 245) && is_cont b1 && is_cont b2 && is_cont b3
  && (negb (b0 =? 240) || (144 <=? b1))
  && (negb (b0 =? 244) || (b1 <? 144)).

(** Decoding with [errors='ignore']: a well-formed sequence yields its
    code point, any other byte is skipped. *)
Fixpoint utf8_decode_ignore (bs : list N) : pystr :=
  match bs with
  | [] => []
  | b0 :: r0 =>
      if b0 <? 128 then b0 :: utf8_decode_ignore r0
      else
        match r0 with
        | b1 :: r1 =>
            if valid2 b0 b1
            then ((b0 - 192) * 64 + (b1 - 128)) :: utf8_decode_ignore r1
            else
              match r1 with
              | b2 :: r2 =>
                  if valid3 b0 b1 b2
                  then ((b0 - 224) * 4096 + (b1 - 128) * 64 + (b2 - 128))
                       :: utf8_decode_ignore r2
                  else
                    match r2 with
                    | b3 :: r3 =>
                        if valid4 b0 b1 b2 b3
                        then ((b0 - 240) * 262144 + (b1 - 128) * 4096
                              + (b2 - 128) * 64 + (b3 - 128))
                             :: utf8_decode_ignore r3
                        else utf8_decode_ignore r0
                    | [] => utf8_decode_ignore r0
                    end
              | [] => utf8_decode_ignore r0
              end
        | [] => []
        end
  end.

Fixpoint translate_newlines (s : pystr) : pystr :=
  match s with
  | [] => []
  | c :: rest =>
      if c =? 13 then
        10 :: match rest with
              | d :: rest' =>
                  if d =? 10 then translate_newlines rest'
                  else translate_newlines rest
              | [] => []
              end
      else c :: translate_newlines rest
  end.

Definition bytes_of (data : string) : list N := map ord (list_ascii_of_string data).

Definition read_text (data : string) : pystr :=
  translate_newlines (utf8_decode_ignore (bytes_of data)).

Local Close Scope N_scope.

(** ** The magnitude tag of a modification *)

Local Open Scope Z_scope.

(** The value of [float(n)]: [n] rounded to 53 significant bits, ties
    to even (file sizes are far below the overflow threshold). *)
Definition float_of_int (n : Z) : Z :=
  let m := Z.abs n in
  if m <? 2 ^ 53 then n
  else
    let sh := Z.log2 m - 52 in
    let q := Z.shiftr m sh in
    let r := Z.land m (Z.ones sh) in
    let half := Z.shiftl 1 (sh - 1) in
    let q' := if r <? half then q
              else if half <? r then q + 1
              else if Z.even q then q else q + 1 in
    Z.sgn n * Z.shiftl q' sh.

(** [size_after < size_before * 0.5]: the product is [float(size_before)]
    halved, which is exact, and Python compares an int with a float by
    value. *)
Definition lt_half (size_after size_before : Z) : bool :=
  2 * size_after <? float_of_int size_before.

(** The exceptions of the engine's calls.  [OSError] stands for an
    [OSError] that is none of its subclasses listed here. *)
Inductive exn :=
| SqliteError | TypeError | OSError
| FileNotFoundError | PermissionError | NotADirectoryError | IsADirectoryError
| UnicodeDecodeError | ValueError.

Inductive outcome (A : Type) :=
| Ret (a : A)
| Raise (e : exn).
Arguments Ret {A} a.
Arguments Raise {A} e.

(** Lines 232-238 of [_process_modification]: the text appended to the
    console line.  [size_before] is what [get_shadow_size] returned;
    comparing [None] with [0] raises [TypeError]. *)
Definition magnitude (size_before : option Z) (size_after : Z) : outcome string :=
  let otherwise :=
    match size_before with
    | Some sb =>
        if negb (sb =? 0) && lt_half size_after sb
        then Ret (" [LARGE DELETION: -" +:+ pretty (sb - size_after) +:+ " bytes]")
        else if negb (sb =? 0) && (sb * 2 <? size_after)
        then Ret (" [LARGE ADDITION: +" +:+ pretty (size_after - sb) +:+ " bytes]")
        else Ret ""
    | None => Ret ""
    end in
  if size_after =? 0 then
    match size_before with
    | None => Raise TypeError
    | Some sb => if 0 <? sb then Ret " [FILE ZEROED OUT!]" else otherwise
    end
  else otherwise.

Local Close Scope Z_scope.

(** ** State of the engine and of its surroundings *)

(** What a path leads to: a directory with its [st_size]; a regular
    file with its bytes and whether this process may read it; something
    else that [stat] finds and [open] refuses with [e] (a socket, say);
    or nothing that can be reached at all, [stat] failing and [open]
    raising [e] (a loop of symbolic links, a name too long, a name with
    a null character).  Symbolic links are not modelled otherwise, and
    paths are names that encode as UTF-8. *)
Inductive node :=
| Dir (st_size : Z)
| File (data : string) (readable : bool)
| Special (st_size : Z) (e : exn)
| Unresolvable (e : exn).

(** Where a shadow copy that fails does so: on opening the target,
    which is then left as it was; while writing, after the target has
    been truncated and [written] bytes are in it; or in [copystat],
    with all bytes written and the mode copied or not. *)
Inductive copy_stage :=
| AtOpen
| AtWrite (written : nat)
| AtStat (mode_copied : bool).

(** A row of [file_changes] (the [id] column is assigned by SQLite). *)
Record ChangeRecord := {
  timestamp : string;
  file_path : string;
  event_type : string;
  size_before : option Z;
  size_after : option Z;
  size_change : option Z;
  lines_added : nat;
  lines_deleted : nat;
  lines_changed : nat
}.

(** What [print] receives; the layout of the lines and
    [os.path.relpath] are left out. *)
Inductive console_msg :=
| MsgChange (timestamp file_path magnitude : string)
| MsgSize (size_before size_after : Z)
| MsgLines (added deleted : nat)
| MsgTracking (file_path : string)
| MsgCreated (timestamp file_path : string)
| MsgCreatedSize (size_after : Z)
| MsgReadError (file_path : string)
| MsgShadowCreateError (file_path : string)
| MsgShadowReadError (file_path : string).

(** The handler's own state ([processing]), the two stores it writes
    to, and what it observes of its surroundings.  The three [_ok]
    fields say whether the next write of that kind goes through; events
    are handled one after the other, and a guard held by another pass
    shows as a path already in [processing]. *)
Record world := {
  fs : gmap string node;        (* the file system, shadow directory included *)
  db : list ChangeRecord;       (* table file_changes, oldest row first *)
  db_ok : bool;                 (* false: INSERT/commit raises sqlite3.Error *)
  copy_ok : bool;               (* false: writing the shadow copy raises OSError *)
  copy_fault : copy_stage;      (* where it does, when copy_ok is false *)
  meta_ok : bool;               (* false: writing the .meta file raises OSError *)
  processing : gset string;     (* FileChangeHandler.processing *)
  now : string;                 (* datetime.now().isoformat() *)
  console : list console_msg    (* standard output, oldest line first *)
}.

Definition set_fs (f : gmap string node) (w : world) : world :=
  {| fs := f; db := db w; db_ok := db_ok w; copy_ok := copy_ok w;
     copy_fault := copy_fault w; meta_ok := meta_ok w;
     processing := processing w; now := now w; console := console w |}.

Definition set_db (d : list ChangeRecord) (w : world) : world :=
  {| fs := fs w; db := d; db_ok := db_ok w; copy_ok := copy_ok w;
     copy_fault := copy_fault w; meta_ok := meta_ok w;
     processing := processing w; now := now w; console := console w |}.

Definition set_processing (s : gset string) (w : world) : world :=
  {| fs := fs w; db := db w; db_ok := db_ok w; copy_ok := copy_ok w;
     copy_fault := copy_fault w; meta_ok := meta_ok w;
     processing := s; now := now w; console := console w |}.

Definition set_console (c : list console_msg) (w : world) : world :=
  {| fs := fs w; db := db w; db_ok := db_ok w; copy_ok := copy_ok w;
     copy_fault := copy_fault w; meta_ok := meta_ok w;
     processing := processing w; now := now w; console := c |}.

(** Computations that read and change the world and may raise. *)
Definition M (A : Type) : Type := world -> outcome A * world.

Definition ret {A} (a : A) : M A := fun w => (Ret a, w).
Definition raise {A} (e : exn) : M A := fun w => (Raise e, w).
Definition bind {A B} (m : M A) (k : A -> M B) : M B :=
  fun w => match m w with
           | (Ret a, w') => k a w'
           | (Raise e, w') => (Raise e, w')
           end.
Definition gets {A} (f : world -> A) : M A := fun w => (Ret (f w), w).
Definition modify (f : world -> world) : M unit := fun w => (Ret tt, f w).
Definition lift {A} (o : outcome A) : M A := fun w => (o, w).

(** [try: body finally: fin] *)
Definition try_finally {A} (body : M A) (fin : M unit) : M A :=
  fun w => match body w with
           | (r, w') => match fin w' with
                        | (Ret _, w'') => (r, w'')
                        | (Raise e, w'') => (Raise e, w'')
                        end
           end.

Notation "x <- m ;; k" := (bind m (fun x => k))
  (at level 20, m at level 99, k at level 200, only parsing).
Notation "m ;; k" := (bind m (fun _ => k))
  (at level 100, k at level 200, only parsing, right associativity).

Definition print (msg : console_msg) : M unit :=
  modify (fun w => set_console (console w ++ [msg]) w).

(** ** os.path *)

(** [os.path.exists(p)]: whether [stat] finds something at [p]. *)
Definition path_exists (p : string) (w : world) : bool :=
  match fs w !! p with
  | Some (Unresolvable _) | None => false
  | Some _ => true
  end.

Definition isdir (p : string) (w : world) : bool :=
  match fs w !! p with Some (Dir _) => true | _ => false end.

Definition node_size (n : node) : Z :=
  match n with
  | Dir sz | Special sz _ => sz
  | File data _ => Z.of_nat (String.length data)
  | Unresolvable _ => 0
  end.

(** [os.path.getsize(p)] *)
Definition getsize (p : string) : M Z :=
  fun w => match fs w !! p with
           | Some (Unresolvable _) | None => (Raise OSError, w)
           | Some n => (Ret (node_size n), w)
           end.

(** The bytes that opening [p] for reading gives, when it succeeds. *)
Definition open_read (p : string) (w : world) : option string :=
  match fs w !! p with
  | Some (File data true) => Some data
  | _ => None
  end.

(** The paths above [p]: each prefix of [p] that a slash follows. *)
Fixpoint ancestors_from (above rest : string) : list string :=
  match rest with
  | EmptyString => []
  | String c rest' =>
      let more := ancestors_from (above +:+ String c EmptyString) rest' in
      if Ascii.eqb c "/" && negb (String.eqb above "") then above :: more
      else more
  end.

Definition ancestors (p : string) : list string := ancestors_from "" p.

(** What [open] raises for a path at which nothing is found: the first
    of the paths above it that is no directory decides. *)
Fixpoint missing_error (above : list string) (w : world) : exn :=
  match above with
  | [] => FileNotFoundError
  | q :: rest =>
      match fs w !! q with
      | Some (File _ _) | Some (Special _ _) => NotADirectoryError
      | Some (Unresolvable e) => e
      | Some (Dir _) | None => missing_error rest w
      end
  end.

(** [open(p, 'r')]: the bytes of the file, or the exception raised. *)
Definition open_file (p : string) : M string :=
  fun w =>
    match fs w !! p with
    | Some (File data true) => (Ret data, w)
    | Some (File _ false) => (Raise PermissionError, w)
    | Some (Dir _) => (Raise IsADirectoryError, w)
    | Some (Special _ e) | Some (Unresolvable e) => (Raise e, w)
    | None => (Raise (missing_error (ancestors p) w), w)
    end.

(** [try: body except Exception: handler] *)
Definition try_except {A} (body : M A) (handler : exn -> M A) : M A :=
  fun w => match body w with
           | (Ret a, w') => (Ret a, w')
           | (Raise e, w') => handler e w'
           end.

(** [try: body except (E1, E2, ...): handler], with [sel] telling the
    exceptions listed. *)
Definition try_except_on {A} (sel : exn -> bool) (body : M A) (handler : M A)
    : M A :=
  fun w => match body w with
           | (Ret a, w') => (Ret a, w')
           | (Raise e, w') => if sel e then handler w' else (Raise e, w')
           end.

(** [os.path.join(d, name)] for a relative [name] *)
Definition path_join (d name : string) : string :=
  match last (list_ascii_of_string d) with
  | None => name
  | Some c => if Ascii.eqb c "/" then d +:+ name else d +:+ "/" +:+ name
  end.

Definition newline : string := String "010" EmptyString.

(** What the surrounding platform contributes and the source does not
    fix: the digest behind the shadow file names, and whether
    [open(p, 'r', encoding='utf-8').read(1024)] returns on a readable
    file with the given bytes ([false]: it raises [UnicodeDecodeError]). *)
Class Platform := {
  md5_hexdigest : string -> string;
  utf8_probe : string -> bool
}.

Section Engine.
Context `{Platform}.

(** [ShadowCopyManager.shadow_dir], a directory path without a
    trailing slash. *)
Variable shadow_dir : string.

(** *** ShadowCopyManager *)

Definition _get_shadow_path (file_path : string) : string :=
  shadow_dir +:+ "/" +:+ md5_hexdigest file_path.

(** [with_suffix('.meta')] appends: a hex digest has no suffix. *)
Definition _get_metadata_path (file_path : string) : string :=
  _get_shadow_path file_path +:+ ".meta".

Definition has_shadow (file_path : string) : M bool :=
  gets (path_exists (_get_shadow_path file_path)).

(** The first [n] bytes of [data]. *)
Fixpoint first_bytes (n : nat) (data : string) : string :=
  match n, data with
  | S n', String c rest => String c (first_bytes n' rest)
  | _, _ => EmptyString
  end.

(** Whether the file at [dst] can be read once it has been opened for
    writing: an existing file keeps its mode, a new one is readable. *)
Definition mode_kept (dst : string) (w : world) : bool :=
  match fs w !! dst with
  | Some (File _ readable) => readable
  | _ => true
  end.

(** [shutil.copy2(src, dst)]: a directory as [dst] receives the file
    under its base name; copying a file onto itself and reading a
    directory or an unreadable file raise at once.  The target is then
    opened, which truncates it, the bytes are written, and [copystat]
    copies times and mode: a copy that fails leaves what the stages
    before its failure have done.  Whether the copy goes through is
    the world's to say: a target that cannot be written, for lack of
    permission or of space or for being no regular file, comes with
    [copy_ok = false]. *)
Definition copy2 (src dst : string) : M unit :=
  fun w =>
    let dst' := if isdir dst w then path_join dst (basename src) else dst in
    match open_read src w with
    | None => (Raise OSError, w)
    | Some data =>
        if bool_decide (src = dst') || isdir dst' w then (Raise OSError, w)
        else if copy_ok w
        then (Ret tt, set_fs (<[dst' := File data true]> (fs w)) w)
        else
          match copy_fault w with
          | AtOpen => (Raise OSError, w)
          | AtWrite n =>
              (Raise OSError,
               set_fs (<[dst' := File (first_bytes n data) (mode_kept dst' w)]>
                         (fs w)) w)
          | AtStat mode_copied =>
              (Raise OSError,
               set_fs (<[dst' := File data (mode_copied || mode_kept dst' w)]>
                         (fs w)) w)
          end
    end.

(** The [with open(metadata_path, 'w')] block: the file is truncated
    on opening and holds what was written when the block is left. *)
Definition write_metadata (file_path : string) : M unit :=
  fun w =>
    let mp := _get_metadata_path file_path in
    if negb (meta_ok w) || isdir mp w then (Raise OSError, w)
    else
      let w1 := set_fs (<[mp := File "" true]> (fs w)) w in
      let line1 := file_path +:+ newline in
      match getsize file_path w1 with
      | (Ret size, _) =>
          (Ret tt,
           set_fs (<[mp := File (line1 +:+ pretty size +:+ newline) true]> (fs w)) w)
      | (Raise e, _) =>
          (Raise e, set_fs (<[mp := File line1 true]> (fs w)) w)
      end.

Definition create_shadow (file_path : string) : M bool :=
  try_except
    (ex <- gets (path_exists file_path) ;;
     if negb ex then ret false
     else
       copy2 file_path (_get_shadow_path file_path) ;;
       write_metadata file_path ;;
       ret true)
    (fun _ => print (MsgShadowCreateError file_path) ;; ret false).

Definition get_shadow_content (file_path : string) : M (option pystr) :=
  let shadow_path := _get_shadow_path file_path in
  ex <- gets (path_exists shadow_path) ;;
  if negb ex then ret None
  else
    opened <- gets (open_read shadow_path) ;;
    match opened with
    | Some data => ret (Some (read_text data))
    | None => print (MsgShadowReadError file_path) ;; ret None
    end.

Definition get_shadow_size (file_path : string) : M (option Z) :=
  let shadow_path := _get_shadow_path file_path in
  ex <- gets (path_exists shadow_path) ;;
  if negb ex then ret None
  else try_except (size <- getsize shadow_path ;; ret (Some size))
                  (fun _ => ret None).

Definition update_shadow (file_path : string) : M bool :=
  create_shadow file_path.

(** *** ChangeDatabase *)

Definition record_change (file_path event_type : string)
    (size_before size_after : option Z) (lines_added lines_deleted : nat)
    : M string :=
  timestamp <- gets now ;;
  let size_change :=
    match size_before, size_after with
    | Some sb, Some sa => Some (sa - sb)%Z
    | _, _ => None
    end in
  let row := {| timestamp := timestamp; file_path := file_path;
                event_type := event_type; size_before := size_before;
                size_after := size_after; size_change := size_change;
                lines_added := lines_added; lines_deleted := lines_deleted;
                lines_changed := lines_added + lines_deleted |} in
  ok <- gets db_ok ;;
  if ok then modify (fun w => set_db (db w ++ [row]) w) ;; ret timestamp
  else raise SqliteError.

(** *** FileChangeHandler *)

(** The exceptions that line 176 lists. *)
Definition caught_by_filter (e : exn) : bool :=
  match e with
  | UnicodeDecodeError | PermissionError | FileNotFoundError => true
  | _ => false
  end.

(** A missing file ([FileNotFoundError]), an unreadable one
    ([PermissionError]) and a failed probe ([UnicodeDecodeError]) end
    in [return False]; any other exception of [open] leaves the
    function. *)
Definition _should_process (file_path : string) : M bool :=
  dir <- gets (isdir file_path) ;;
  if dir then ret false
  else if any_part_excluded file_path then ret false
  else
    try_except_on caught_by_filter
      (data <- open_file file_path ;;
       if utf8_probe data then ret true else raise UnicodeDecodeError)
      (ret false).

(** The body of the [try] block of [_process_modification]; each
    [ret tt] before the end is one of its [return] statements. *)
Definition modification_body (file_path : string) : M unit :=
  modify (fun w => set_processing ({[file_path]} ∪ processing w) w) ;;
  ok <- _should_process file_path ;;
  if negb ok then ret tt
  else
    ex <- gets (path_exists file_path) ;;
    if negb ex then ret tt
    else
      size_after <- getsize file_path ;;
      opened <- gets (open_read file_path) ;;
      match opened with
      | None => print (MsgReadError file_path) ;; ret tt
      | Some data =>
          let new_content := read_text data in
          shadowed <- has_shadow file_path ;;
          (if shadowed then
             old_content <- get_shadow_content file_path ;;
             size_before <- get_shadow_size file_path ;;
             match old_content with
             | Some old_content =>
                 let '(lines_added, lines_deleted) :=
                   _compute_diff old_content new_content in
                 tag <- lift (magnitude size_before size_after) ;;
                 timestamp <- record_change file_path "modified" size_before
                                (Some size_after) lines_added lines_deleted ;;
                 print (MsgChange timestamp file_path tag) ;;
                 match size_before with
                 | Some sb => print (MsgSize sb size_after)
                 | None => raise TypeError
                 end ;;
                 print (MsgLines lines_added lines_deleted)
             | None => ret tt
             end
           else print (MsgTracking file_path)) ;;
          update_shadow file_path ;;
          ret tt
      end.

Definition _process_modification (file_path : string) : M unit :=
  held <- gets (fun w => bool_decide (file_path ∈ processing w)) ;;
  if held then ret tt
  else
    try_finally (modification_body file_path)
      (modify (fun w => set_processing (processing w ∖ {[file_path]}) w)).

Definition _process_creation (file_path : string) : M unit :=
  ok <- _should_process file_path ;;
  if negb ok then ret tt
  else
    ex <- gets (path_exists file_path) ;;
    if ex then
      size_after <- getsize file_path ;;
      timestamp <- record_change file_path "created" None (Some size_after) 0 0 ;;
      print (MsgCreated timestamp file_path) ;;
      print (MsgCreatedSize size_after) ;;
      create_shadow file_path ;;
      ret tt
    else ret tt.

(** A [watchdog] event. *)
Record FileSystemEvent := { is_directory : bool; src_path : string }.

Definition on_modified (event : FileSystemEvent) : M unit :=
  if negb (is_directory event) then _process_modification (src_path event)
  else ret tt.

(** The settle delay [time.sleep(0.1)] changes nothing in the state. *)
Definition on_created (event : FileSystemEvent) : M unit :=
  if negb (is_directory event) then _process_creation (src_path event)
  else ret tt.
End Engine.

(** ** A concrete platform

    Used to run the engine on explicit worlds: file names in the shadow
    directory are the hexadecimal spelling of the path (a digest
    without collisions), and a file passes the probe when all of its
    bytes form well-formed UTF-8. *)

Definition hex_digit (n : N) : ascii :=
  match n with
  | 0 => "0" | 1 => "1" | 2 => "2" | 3 => "3" | 4 => "4" | 5 => "5"
  | 6 => "6" | 7 => "7" | 8 => "8" | 9 => "9" | 10 => "a" | 11 => "b"
  | 12 => "c" | 13 => "d" | 14 => "e" | _ => "f"
  end%N%char.

Fixpoint hex_name (p : string) : string :=
  match p with
  | EmptyString => EmptyString
  | String c rest =>
      String (hex_digit (ord c / 16)) (String (hex_digit (ord c mod 16)) (hex_name rest))
  end.

Fixpoint utf8_wellformed (bs : list N) : bool :=
  match bs with
  | [] => true
  | b0 :: r0 =>
      if (b0 <? 128)%N then utf8_wellformed r0
      else
        match r0 with
        | b1 :: r1 =>
            if valid2 b0 b1 then utf8_wellformed r1
            else
              match r1 with
              | b2 :: r2 =>
                  if valid3 b0 b1 b2 then utf8_wellformed r2
                  else
                    match r2 with
                    | b3 :: r3 => valid4 b0 b1 b2 b3 && utf8_wellformed r3
                    | [] => false
                    end
              | [] => false
              end
        | [] => false
        end
  end.

Definition demo_platform : Platform :=
  {| md5_hexdigest := hex_name;
     utf8_probe := fun data => utf8_wellformed (bytes_of data) |}.

Definition demo_world (files : list (string * node)) (held : list string)
    (store_ok : bool) : world :=
  {| fs := list_to_map files; db := []; db_ok := store_ok; copy_ok := true;
     copy_fault := AtOpen; meta_ok := true; processing := list_to_set held;
     now := "2024-01-01T00:00:00"; console := [] |}.

(** The events for a regular file at [p]; the kind of an event shows
    in the handler that [watchdog] calls with it. *)
Definition modified (p : string) : FileSystemEvent :=
  {| is_directory := false; src_path := p |}.

Definition created (p : string) : FileSystemEvent :=
  {| is_directory := false; src_path := p |}.

(** Worlds for the concrete runs: a tracked file with its snapshot, an
    untracked file, a file under [.git], and a file below a hidden
    directory. *)
Definition tracked_world (held : list string) (store_ok : bool) : world :=
  demo_world
    [("/w/a.txt", File (esc "a\nx\nc\nd\n") true);
     ("/s/" +:+ hex_name "/w/a.txt", File (esc "a\nb\nc\n") true)]
    held store_ok.

Definition untracked_world : world :=
  demo_world [("/w/a.txt", File (esc "a\nx\nc\nd\n") true)] [] true.

Definition git_world : world :=
  demo_world [("/w/.git/config", File (esc "[core]\n") true)] [] true.

Definition hidden_root_world : world :=
  demo_world [("/home/u/.config/app/notes.txt", File (esc "hello\n") true)] [] true.

(** Further worlds for the tracked file: one whose shadow directory
    takes no writes, one whose snapshot cannot be read, and one whose
    snapshot differs from the file in its line endings only; and a
    world with a file that is not UTF-8. *)
Definition full_disk_world : world :=
  {| fs := fs (tracked_world [] true); db := []; db_ok := true;
     copy_ok := false; copy_fault := AtStat false; meta_ok := true;
     processing := ∅;
     now := "2024-01-01T00:00:00"; console := [] |}.

Definition locked_snapshot_world : world :=
  demo_world
    [("/w/a.txt", File (esc "a\nx\nc\nd\n") true);
     ("/s/" +:+ hex_name "/w/a.txt", File (esc "a\nb\nc\n") false)]
    [] true.

(** The same with a shadow file that cannot be opened for writing
    either. *)
Definition sealed_snapshot_world : world :=
  {| fs := fs locked_snapshot_world; db := []; db_ok := true;
     copy_ok := false; copy_fault := AtOpen; meta_ok := true;
     processing := ∅; now := "2024-01-01T00:00:00"; console := [] |}.

Definition crlf : string := String "013" (String "010" EmptyString).

Definition line_endings_world : world :=
  demo_world
    [("/w/a.txt", File (esc "a\nb\n") true);
     ("/s/" +:+ hex_name "/w/a.txt", File ("a" +:+ crlf +:+ "b" +:+ crlf) true)]
    [] true.

Definition binary_world : world :=
  demo_world [("/w/a.bin", File (String "255" EmptyString) true)] [] true.

(** A file of CVS metadata. *)
Definition cvs_world : world :=
  demo_world [("/w/CVS/Entries", File (esc "D\n") true)] [] true.

(** The two handlers run on the tracked file, and the first
    modification of the untracked one followed by an edit of the
    file. *)
Definition tracked_modified_run (store_ok : bool) : outcome unit * world :=
  @on_modified demo_platform "/s" (modified "/w/a.txt") (tracked_world [] store_ok).

Definition tracked_created_run (store_ok : bool) : outcome unit * world :=
  @on_created demo_platform "/s" (created "/w/a.txt") (tracked_world [] store_ok).

Definition snapshot_taken_world : world :=
  snd (@create_shadow demo_platform "/s" "/w/a.txt" untracked_world).

Definition first_seen_world : world :=
  snd (@on_modified demo_platform "/s" (modified "/w/a.txt") untracked_world).

Definition edited_world : world :=
  set_fs (<["/w/a.txt" := File (esc "a\ny\nc\n") true]> (fs first_seen_world))
    first_seen_world.

(** ** Vocabulary of the properties *)

(** *** The engine *)

(** The fields that only the engine itself changes. *)
Definition same_stores (w w' : world) : Prop :=
  db w' = db w /\ processing w' = processing w /\ db_ok w' = db_ok w
  /\ copy_ok w' = copy_ok w /\ meta_ok w' = meta_ok w /\ now w' = now w
  /\ copy_fault w' = copy_fault w.

(** A computation that touches at most the file system and the
    console. *)
Definition keeps_stores {A} (m : M A) : Prop :=
  forall w r w', m w = (r, w') -> same_stores w w'.

(** A computation that always returns. *)
Definition returns {A} (m : M A) : Prop :=
  forall w, exists a w', m w = (Ret a, w').

Definition modified_row (p : string) (t : string) (old_data new_data : string)
    : ChangeRecord :=
  let '(added, deleted) :=
    _compute_diff (read_text old_data) (read_text new_data) in
  let sb := Z.of_nat (String.length old_data) in
  let sa := Z.of_nat (String.length new_data) in
  {| timestamp := t; file_path := p; event_type := "modified";
     size_before := Some sb; size_after := Some sa;
     size_change := Some (sa - sb)%Z;
     lines_added := added; lines_deleted := deleted;
     lines_changed := added + deleted |}.

Definition created_row (p : string) (t : string) (data : string) : ChangeRecord :=
  {| timestamp := t; file_path := p; event_type := "created";
     size_before := None;
     size_after := Some (Z.of_nat (String.length data));
     size_change := None;
     lines_added := 0; lines_deleted := 0; lines_changed := 0 |}.

Section EngineVocabulary.
Context `{Platform}.
Variable shadow_dir : string.
Implicit Types (w : world) (p : string).

(** The state once [_process_modification] has taken its guard. *)
Definition guarded p w : world := set_processing ({[p]} ∪ processing w) w.

(** The state [create_shadow] leaves; it always returns. *)
Definition after_shadow p w : world := snd (create_shadow shadow_dir p w).

(** The paths [create_shadow] may write: the shadow file, the file
    inside the shadow path when that is a directory, and the metadata
    file. *)
Definition shadow_paths p : list string :=
  [_get_shadow_path shadow_dir p;
   path_join (_get_shadow_path shadow_dir p) (basename p);
   _get_metadata_path shadow_dir p].

(** The console lines of a recorded modification. *)
Definition modified_messages p w (old_data new_data : string) : list console_msg :=
  let '(added, deleted) :=
    _compute_diff (read_text old_data) (read_text new_data) in
  let sb := Z.of_nat (String.length old_data) in
  let sa := Z.of_nat (String.length new_data) in
  [MsgChange (now w) p
     match magnitude (Some sb) sa with Ret tag => tag | Raise _ => "" end;
   MsgSize sb sa; MsgLines added deleted].

(** The console lines of a recorded creation. *)
Definition created_messages p w (data : string) : list console_msg :=
  [MsgCreated (now w) p; MsgCreatedSize (Z.of_nat (String.length data))].

(** The state in which [create_shadow] is called differs from the
    state [w] at the start by console lines and, at most, [rows]. *)
Definition before_shadow (w wm : world) (held : gset string)
    (rows : list ChangeRecord) : Prop :=
  fs wm = fs w /\ db wm = (db w ++ rows)%list /\ processing wm = held
  /\ db_ok wm = db_ok w /\ copy_ok wm = copy_ok w /\ meta_ok wm = meta_ok w
  /\ now wm = now w /\ copy_fault wm = copy_fault w.

(** The ways the body of [_process_modification] can end: the file is
    filtered out; the filter's [open] raises what line 176 does not
    catch; the file is seen for the first time; its snapshot cannot be
    read; the change is recorded; the record store refuses the row. *)
Inductive modification_end p w : outcome unit * world -> Prop :=
| mod_filtered :
    _should_process p w = (Ret false, w) ->
    modification_end p w (Ret tt, guarded p w)
| mod_probe_raises e :
    _should_process p w = (Raise e, w) ->
    modification_end p w (Raise e, guarded p w)
| mod_first_seen data wm :
    fs w !! p = Some (File data true) ->
    path_exists (_get_shadow_path shadow_dir p) w = false ->
    before_shadow w wm ({[p]} ∪ processing w) [] ->
    modification_end p w (Ret tt, after_shadow p wm)
| mod_unreadable data wm :
    fs w !! p = Some (File data true) ->
    path_exists (_get_shadow_path shadow_dir p) w = true ->
    open_read (_get_shadow_path shadow_dir p) w = None ->
    before_shadow w wm ({[p]} ∪ processing w) [] ->
    modification_end p w (Ret tt, after_shadow p wm)
| mod_recorded data old_data wm :
    fs w !! p = Some (File data true) ->
    fs w !! _get_shadow_path shadow_dir p = Some (File old_data true) ->
    db_ok w = true ->
    before_shadow w wm ({[p]} ∪ processing w)
      [modified_row p (now w) old_data data] ->
    modification_end p w (Ret tt, after_shadow p wm)
| mod_refused data old_data :
    fs w !! p = Some (File data true) ->
    fs w !! _get_shadow_path shadow_dir p = Some (File old_data true) ->
    db_ok w = false ->
    modification_end p w (Raise SqliteError, guarded p w).

(** The ways [_process_creation] can end. *)
Inductive creation_end p w : outcome unit * world -> Prop :=
| cre_filtered :
    _should_process p w = (Ret false, w) ->
    creation_end p w (Ret tt, w)
| cre_probe_raises e :
    _should_process p w = (Raise e, w) ->
    creation_end p w (Raise e, w)
| cre_recorded data wm :
    fs w !! p = Some (File data true) ->
    db_ok w = true ->
    before_shadow w wm (processing w) [created_row p (now w) data] ->
    creation_end p w (Ret tt, after_shadow p wm)
| cre_refused data :
    fs w !! p = Some (File data true) ->
    db_ok w = false ->
    creation_end p w (Raise SqliteError, w).

(** How a handler called for [p] in state [w] can end: with nothing
    done; with an exception, of the filter's [open] or of the record
    store, and nothing done; or with [rows] appended, console lines
    printed and [create_shadow] run. *)
Inductive finished p w : list ChangeRecord -> outcome unit -> world -> Prop :=
| fin_ignored : finished p w [] (Ret tt) w
| fin_probe_raises e :
    _should_process p w = (Raise e, w) -> finished p w [] (Raise e) w
| fin_refused : db_ok w = false -> finished p w [] (Raise SqliteError) w
| fin_shadowed wm held rows :
    before_shadow w wm held rows ->
    finished p w rows (Ret tt)
      (set_processing (processing w) (after_shadow p wm)).
End EngineVocabulary.

(** *** The diff *)

Local Close Scope string_scope.
Local Open Scope nat_scope.

(** A block inside the window [alo, ahi) x [blo, bhi). *)
Definition within (alo ahi blo bhi : nat) (m : Match) : Prop :=
  let '(i, j, k) := m in
  alo <= i /\ i + k <= ahi /\ blo <= j /\ j + k <= bhi.

(** The entries of [j2len] after the rows before [r]: a match of
    length [k] ending at column [j] starts inside the window. *)
Definition row_ok (alo blo bhi r : nat) (j2len : gmap nat nat) : Prop :=
  forall j k, j2len !! j = Some k -> k + alo <= r /\ k + blo <= j + 1 /\ j < bhi.

(** A window of the search, [(alo, ahi, blo, bhi)]. *)
Definition rect := (nat * nat * nat * nat)%type.

(** The window a block covers. *)
Definition extent (m : Match) : rect :=
  let '(i, j, k) := m in (i, i + k, j, j + k).

(** [x] lies before [y] in both sequences. *)
Definition precedes (x y : rect) : Prop :=
  let '(_, xa2, _, xb2) := x in
  let '(ya1, _, yb1, _) := y in
  xa2 <= ya1 /\ xb2 <= yb1.

Definition apart (x y : rect) : Prop := precedes x y \/ precedes y x.

Definition inside (outer x : rect) : Prop :=
  let '(oa1, oa2, ob1, ob2) := outer in
  let '(a1, a2, b1, b2) := x in
  oa1 <= a1 /\ a1 <= a2 /\ a2 <= oa2 /\ ob1 <= b1 /\ b1 <= b2 /\ b2 <= ob2.

(** What [blocks_loop] keeps true of the blocks found and the windows
    still to search. *)
Definition loop_inv (la lb : nat) (queue : list rect) (acc : list Match) : Prop :=
  ForallOrdPairs apart (map extent acc ++ queue)
  /\ Forall (inside (0, la, 0, lb)) (map extent acc ++ queue)
  /\ Forall (fun m : Match => 0 < snd m) acc.

(** The work left in a queue: a window of [n] lines of [a] weighs
    [2 * n + 1]. *)
Fixpoint queue_weight (queue : list rect) : nat :=
  match queue with
  | [] => 0
  | (alo, ahi, _, _) :: rest => 2 * (ahi - alo) + 1 + queue_weight rest
  end.

Definition proper (r : rect) : Prop :=
  let '(alo, ahi, blo, bhi) := r in alo <= ahi /\ blo <= bhi.

(** The queue after one round that found the block [(i, j, k)]. *)
Definition pushed (alo ahi blo bhi i j k : nat) (queue' : list rect) : list rect :=
  let q1 := if (alo <? i) && (blo <? j) then (alo, i, blo, j) :: queue' else queue' in
  if (i + k <? ahi) && (j + k <? bhi) then (i + k, ahi, j + k, bhi) :: q1 else q1.

(** Each block starts at or after the cursor [(i, j)] and the next one
    at or after its end. *)
Fixpoint monotone_from (i j : nat) (blocks : list Match) : Prop :=
  match blocks with
  | [] => True
  | (ai, bj, k) :: rest =>
      i <= ai /\ j <= bj /\ monotone_from (ai + k) (bj + k) rest
  end.

(** Where the cursor of [get_opcodes] stands after [blocks]. *)
Fixpoint end_cursor (i j : nat) (blocks : list Match) : nat * nat :=
  match blocks with
  | [] => (i, j)
  | (ai, bj, k) :: rest => end_cursor (ai + k) (bj + k) rest
  end.

Definition before (x y : Match) : Prop := precedes (extent x) (extent y).

Section OpcodeLines.
Context {A : Type}.
Implicit Types (a b : list A).

(** The lines of [a] that an opcode reports as removed, and the lines
    of [b] it reports as inserted. *)
Definition op_deleted a (c : opcode) : nat :=
  let '(t, i1, i2, _, _) := c in
  match t with
  | Replace | Delete => length (slice a i1 i2)
  | _ => 0
  end.

Definition op_added b (c : opcode) : nat :=
  let '(t, _, _, j1, j2) := c in
  match t with
  | Replace | Insert => length (slice b j1 j2)
  | _ => 0
  end.

End OpcodeLines.

(** A text none of whose lines begins with two plus signs or two minus
    signs: lines which, once prefixed by the diff, the counting loop
    cannot tell from the header. *)
Definition plain_line (line : pystr) : bool :=
  negb (startswith line (lit "++")) && negb (startswith line (lit "--")).

Definition plain_lines (s : pystr) : Prop :=
  forallb plain_line (splitlines s) = true.

(** *** Line endings *)

(** A text without carriage return. *)
Definition no_cr (s : pystr) : bool := forallb (fun c => negb (N.eqb c 13)) s.

(** A text with every LF turned into CR LF, and into CR. *)
Definition crlf_endings (s : pystr) : pystr :=
  flat_map (fun c => if N.eqb c 10 then [13; 10]%N else [c]) s.

Definition cr_endings (s : pystr) : pystr :=
  map (fun c => if N.eqb c 10 then 13%N else c) s.

(** The text of a file's bytes as decoded, before its line endings are
    translated. *)
Definition decoded (data : string) : pystr := utf8_decode_ignore (bytes_of data).

(** What the counting loop of [_compute_diff] adds to its two
    counters. *)
Definition counted (diff : list pystr) : nat * nat := count_lines diff 0 0.

(** *** A sequence compared with itself *)

Section SameSequenceDefs.
Context {A : Type} `{EqDecision A}.
Variable a : list A.

(** [a[i]] is an element that [b2j] keeps. *)
Definition kept (i : nat) : bool :=
  match a !! i with
  | Some x => negb (popular a x)
  | None => false
  end.

(** The number of consecutive kept elements that end just before index
    [r], going back no further than [lo]. *)
Fixpoint run_upto (lo r : nat) : nat :=
  match r with
  | O => 0
  | S i => if (lo <=? i) && kept i then S (run_upto lo i) else 0
  end.

(** [j2len] after the rows before [r], when [a] is compared with
    itself: no entry exceeds the run on the diagonal, and the diagonal
    entry is the run. *)
Definition diag_row (lo r : nat) (j2len : gmap nat nat) : Prop :=
  (forall j k, j2len !! j = Some k ->
               k <= run_upto lo r /\ k <= run_upto lo (S j))
  /\ (forall i, r = S i -> 0 < run_upto lo r ->
                j2len !! i = Some (run_upto lo r)).

(** The best block after the rows before [r]: on the diagonal, and at
    least as long as every run seen. *)
Definition diag_best (lo r : nat) (best : Match) : Prop :=
  let '(bi, bj, bs) := best in
  bi = bj /\ (bs = 0 -> bi = lo)
  /\ forall t, lo <= t -> t < r -> run_upto lo (S t) <= bs.
End SameSequenceDefs.

(** A window of the queue that lies on the diagonal. *)
Definition diag_window (n : nat) (r : rect) : Prop :=
  let '(alo, ahi, blo, bhi) := r in
  alo = blo /\ ahi = bhi /\ alo <= ahi /\ ahi <= n.

Definition width (r : rect) : nat :=
  let '(alo, ahi, _, _) := r in ahi - alo.

Local Open Scope string_scope.

(** * Checks of the model on small inputs *)

Example splitlines_abc :
  splitlines (py "a\nb\nc\n") = [py "a\n"; py "b\n"; py "c\n"].
Proof. reflexivity. Qed.

Example splitlines_no_final_newline :
  splitlines (py "a\nb") = [py "a\n"; py "b"].
Proof. reflexivity. Qed.

Example unified_diff_abc :
  unified_diff (splitlines (py "a\nb\nc\n")) (splitlines (py "a\nx\nc\nd\n"))
  = [py "--- "; py "+++ "; py "@@ -1,3 +1,4 @@";
     py " a\n"; py "-b\n"; py "+x\n"; py " c\n"; py "+d\n"].
Proof. vm_compute. reflexivity. Qed.

Example path_parts_abs :
  path_parts "/home/u/.config/app/notes.txt"
  = ["/"; "home"; "u"; ".config"; "app"; "notes.txt"].
Proof. reflexivity. Qed.

Example path_parts_rel : path_parts "./src//viber.py" = ["src"; "viber.py"].
Proof. reflexivity. Qed.

Example read_text_ascii : read_text (esc "a\nb\nc\n") = py "a\nb\nc\n".
Proof. reflexivity. Qed.

Example magnitude_halved : magnitude (Some 100%Z) 50 = Ret "".
Proof. reflexivity. Qed.

(** * Properties of the engine *)

Lemma string_length_app (s t : string) :
  String.length (s +:+ t) = String.length s + String.length t.
Proof. induction s as [|c s IH]; simpl; [reflexivity | now rewrite IH]. Qed.

Lemma guard_restored (p : string) (P : gset string) :
  p ∉ P -> ({[p]} ∪ P) ∖ {[p]} = P.
Proof.
  intros Hp. apply set_eq. intros x.
  rewrite elem_of_difference, elem_of_union, elem_of_singleton.
  split; [tauto|]. intros Hx. split; [tauto|]. congruence.
Qed.

Lemma magnitude_returns (sb sa : Z) : exists s, magnitude (Some sb) sa = Ret s.
Proof.
  unfold magnitude.
  repeat match goal with
         | |- context [if ?c then _ else _] => destruct c
         end; eauto.
Qed.

Lemma compute_diff_vector :
  _compute_diff (py "a\nb\nc\n") (py "a\nx\nc\nd\n") = (2, 1).
Proof. vm_compute. reflexivity. Qed.

Lemma split_slash_nonempty (s : string) : split_slash s <> [].
Proof.
  destruct s as [|c s]; simpl; [discriminate|].
  destruct (Ascii.eqb c "/"); [discriminate|].
  destruct (split_slash s); discriminate.
Qed.

Lemma split_slash_join (s t : string) :
  split_slash (s +:+ "/" +:+ t) = (split_slash s ++ split_slash t)%list.
Proof.
  induction s as [|c s IH]; [reflexivity|].
  change (String c s +:+ "/" +:+ t) with (String c (s +:+ "/" +:+ t)).
  cbn [split_slash]. rewrite IH.
  destruct (Ascii.eqb c "/"); [reflexivity|].
  pose proof (split_slash_nonempty s) as Hne.
  destruct (split_slash s) as [|x xs]; [congruence | reflexivity].
Qed.

Lemma path_segments_join (root rel : string) :
  path_segments (root +:+ "/" +:+ rel)
  = (path_segments root ++ path_segments rel)%list.
Proof. unfold path_segments. rewrite split_slash_join. apply filter_app. Qed.

Lemma path_root_not_hidden (p part : string) :
  part ∈ path_root p -> starts_with_dot part = false.
Proof.
  unfold path_root. intros Hin.
  repeat match type of Hin with
         | context [match ?x with _ => _ end] => destruct x
         end;
    repeat match type of Hin with
           | _ ∈ [] => inversion Hin
           | _ ∈ _ :: _ => apply elem_of_cons in Hin as [->|Hin]; [reflexivity|]
           end.
Qed.

(** A hidden component of a directory is a component of every path
    below it. *)
Lemma hidden_part_inherited (root rel part : string) :
  part ∈ path_parts root -> starts_with_dot part = true ->
  part ∈ path_parts (root +:+ "/" +:+ rel).
Proof.
  unfold path_parts. intros Hin Hdot.
  apply elem_of_app in Hin as [Hin|Hin].
  - apply path_root_not_hidden in Hin. congruence.
  - apply elem_of_app. right. rewrite path_segments_join.
    apply elem_of_app. now left.
Qed.

Lemma hidden_part_excluded (p part : string) :
  part ∈ path_parts p -> starts_with_dot part = true ->
  any_part_excluded p = true.
Proof.
  intros Hin Hdot. unfold any_part_excluded. apply existsb_exists.
  exists part. split; [now apply list_elem_of_In|].
  rewrite Hdot. apply orb_true_r.
Qed.

Create HintDb keeps.

Section EngineProperties.
Context `{Platform}.
Variable shadow_dir : string.

Implicit Types (w : world) (p : string).

Local Arguments _compute_diff : simpl never.
Local Arguments read_text : simpl never.
Local Arguments magnitude : simpl never.
Local Arguments any_part_excluded : simpl never.

Ltac unfold_monad :=
  unfold bind, gets, ret, modify, lift, raise, print, try_except in *.

Lemma record_change_ok p ev sb sa la ld w :
  db_ok w = true ->
  record_change p ev sb sa la ld w
  = (Ret (now w),
     set_db (db w ++ [{| timestamp := now w; file_path := p; event_type := ev;
                         size_before := sb; size_after := sa;
                         size_change := match sb, sa with
                                        | Some b, Some a => Some (a - b)%Z
                                        | _, _ => None
                                        end;
                         lines_added := la; lines_deleted := ld;
                         lines_changed := la + ld |}]) w).
Proof.
  intros Hok. unfold record_change. unfold_monad. now rewrite Hok.
Qed.

Lemma record_change_fail p ev sb sa la ld w :
  db_ok w = false ->
  record_change p ev sb sa la ld w = (Raise SqliteError, w).
Proof.
  intros Hok. unfold record_change. unfold_monad. now rewrite Hok.
Qed.

(** [_should_process] never changes the state; its result, case by
    case. *)
Lemma should_process_unfold p w :
  _should_process p w
  = if isdir p w then (Ret false, w)
    else if any_part_excluded p then (Ret false, w)
    else match fst (open_file p w) with
         | Ret data =>
             if utf8_probe data then (Ret true, w) else (Ret false, w)
         | Raise e =>
             if caught_by_filter e then (Ret false, w) else (Raise e, w)
         end.
Proof.
  unfold _should_process, bind, gets, ret.
  destruct (isdir p w); [reflexivity|].
  destruct (any_part_excluded p); [reflexivity|].
  unfold try_except_on, open_file, raise.
  destruct (fs w !! p) as [[sz|data [|]|sz e|e]|]; cbn [fst];
    try reflexivity.
  now destruct (utf8_probe data).
Qed.

Lemma open_file_readable p w data :
  fs w !! p = Some (File data true) -> open_file p w = (Ret data, w).
Proof. intros Hp. unfold open_file. now rewrite Hp. Qed.

Lemma open_file_returns p w data :
  fst (open_file p w) = Ret data -> fs w !! p = Some (File data true).
Proof.
  unfold open_file.
  destruct (fs w !! p) as [[sz|d [|]|sz e|e]|]; cbn [fst]; congruence.
Qed.

Lemma isdir_file p w data readable :
  fs w !! p = Some (File data readable) -> isdir p w = false.
Proof. intros Hp. unfold isdir. now rewrite Hp. Qed.

Lemma should_process_true p w :
  _should_process p w = (Ret true, w) ->
  any_part_excluded p = false
  /\ exists data, fs w !! p = Some (File data true) /\ utf8_probe data = true.
Proof.
  rewrite should_process_unfold.
  destruct (isdir p w); [discriminate|].
  destruct (any_part_excluded p); [discriminate|].
  destruct (fst (open_file p w)) as [data|e] eqn:Hopen.
  - destruct (utf8_probe data) eqn:Hprobe; [|discriminate].
    intros _. split; [reflexivity|]. exists data.
    split; [now apply open_file_returns|exact Hprobe].
  - destruct (caught_by_filter e); discriminate.
Qed.

Lemma should_process_intro p w data :
  any_part_excluded p = false ->
  fs w !! p = Some (File data true) -> utf8_probe data = true ->
  _should_process p w = (Ret true, w).
Proof.
  intros Hex Hp Hprobe. rewrite should_process_unfold.
  rewrite (isdir_file _ _ _ _ Hp), Hex, (open_file_readable _ _ _ Hp).
  cbn [fst]. now rewrite Hprobe.
Qed.

Lemma should_process_excluded p w :
  any_part_excluded p = true -> _should_process p w = (Ret false, w).
Proof.
  intros Hex. rewrite should_process_unfold, Hex.
  now destruct (isdir p w).
Qed.

Lemma shadow_path_not_metadata_path p :
  _get_metadata_path shadow_dir p <> _get_shadow_path shadow_dir p.
Proof.
  unfold _get_metadata_path. intros Heq.
  apply (f_equal String.length) in Heq.
  rewrite string_length_app in Heq. simpl in Heq. lia.
Qed.

Lemma same_stores_refl w : same_stores w w.
Proof. unfold same_stores; tauto. Qed.

Lemma same_stores_trans w1 w2 w3 :
  same_stores w1 w2 -> same_stores w2 w3 -> same_stores w1 w3.
Proof. unfold same_stores; intuition congruence. Qed.

Lemma keeps_bind {A B} (m : M A) (k : A -> M B) :
  keeps_stores m -> (forall a, keeps_stores (k a)) -> keeps_stores (bind m k).
Proof.
  intros Hm Hk w r w'. unfold bind.
  destruct (m w) as [[a|e] w1] eqn:Hmw; intros Heq.
  - eapply same_stores_trans; [eapply Hm; eassumption | eapply Hk; eassumption].
  - injection Heq as <- <-. eapply Hm; eassumption.
Qed.

Lemma keeps_ret {A} (a : A) : keeps_stores (ret a).
Proof. intros w r w' [= <- <-]. apply same_stores_refl. Qed.

Lemma keeps_raise {A} e : keeps_stores (@raise A e).
Proof. intros w r w' [= <- <-]. apply same_stores_refl. Qed.

Lemma keeps_gets {A} (f : world -> A) : keeps_stores (gets f).
Proof. intros w r w' [= <- <-]. apply same_stores_refl. Qed.

Lemma keeps_lift {A} (o : outcome A) : keeps_stores (lift o).
Proof. intros w r w' [= <- <-]. apply same_stores_refl. Qed.

Lemma keeps_print msg : keeps_stores (print msg).
Proof. intros w r w' [= <- <-]. unfold same_stores; simpl; tauto. Qed.

Lemma keeps_try_except {A} (body : M A) handler :
  keeps_stores body -> (forall e, keeps_stores (handler e)) ->
  keeps_stores (try_except body handler).
Proof.
  intros Hb Hh w r w'. unfold try_except.
  destruct (body w) as [[a|e] w1] eqn:Hbw; intros Heq.
  - injection Heq as <- <-. eapply Hb; eassumption.
  - eapply same_stores_trans; [eapply Hb; eassumption | eapply Hh; eassumption].
Qed.

Lemma keeps_getsize p : keeps_stores (getsize p).
Proof.
  intros w r w'. unfold getsize.
  destruct (fs w !! p) as [[sz|data readable|sz e|e]|];
    intros [= <- <-]; apply same_stores_refl.
Qed.

Lemma keeps_copy2 src dst : keeps_stores (copy2 src dst).
Proof.
  intros w r w'. unfold copy2.
  destruct (open_read src w); [|intros [= <- <-]; apply same_stores_refl].
  match goal with |- context [if ?c then _ else _] => destruct c end;
    [intros [= <- <-]; apply same_stores_refl|].
  destruct (copy_ok w); [|destruct (copy_fault w)];
    intros [= <- <-]; unfold same_stores; simpl; tauto.
Qed.

Lemma keeps_write_metadata p : keeps_stores (write_metadata shadow_dir p).
Proof.
  intros w r w'. unfold write_metadata.
  match goal with |- context [if ?c then _ else _] => destruct c end;
    [intros [= <- <-]; apply same_stores_refl|].
  match goal with |- context [getsize ?a ?b] => destruct (getsize a b) as [[sz|e] w1] end;
    intros [= <- <-]; unfold same_stores; simpl; tauto.
Qed.

#[local] Hint Resolve keeps_bind keeps_ret keeps_raise keeps_gets keeps_lift
  keeps_print keeps_try_except keeps_getsize keeps_copy2
  keeps_write_metadata : keeps.

Lemma keeps_create_shadow p : keeps_stores (create_shadow shadow_dir p).
Proof.
  unfold create_shadow.
  apply keeps_try_except; [|auto with keeps].
  apply keeps_bind; [auto with keeps|]. intros ex.
  destruct (negb ex); auto 10 with keeps.
Qed.

Lemma returns_create_shadow p : returns (create_shadow shadow_dir p).
Proof.
  intros w. unfold create_shadow, try_except.
  match goal with |- context [match ?m w with _ => _ end] =>
    destruct (m w) as [[b|e] w1] end; [eauto|].
  unfold_monad. eauto.
Qed.

(** [create_shadow] never raises and leaves the record store, the
    guard set and the clock alone. *)
Lemma create_shadow_frame p w :
  exists b w', create_shadow shadow_dir p w = (Ret b, w') /\ same_stores w w'.
Proof.
  destruct (returns_create_shadow p w) as (b & w' & Heq).
  exists b, w'. split; [assumption|]. eapply keeps_create_shadow; eassumption.
Qed.

Lemma path_exists_lookup p w data readable :
  fs w !! p = Some (File data readable) -> path_exists p w = true.
Proof. intros Hp. unfold path_exists. now rewrite Hp. Qed.

Lemma path_exists_missing p w :
  fs w !! p = None -> path_exists p w = false.
Proof. intros Hp. unfold path_exists. now rewrite Hp. Qed.

(** After [create_shadow], the shadow file holds the bytes of the
    file, whatever became of the metadata. *)
Lemma create_shadow_snapshot p w data :
  fs w !! p = Some (File data true) ->
  isdir (_get_shadow_path shadow_dir p) w = false ->
  copy_ok w = true ->
  exists b w', create_shadow shadow_dir p w = (Ret b, w')
    /\ fs w' !! _get_shadow_path shadow_dir p = Some (File data true).
Proof.
  intros Hp Hdir Hcopy.
  unfold create_shadow, try_except, bind, gets.
  rewrite (path_exists_lookup _ _ _ _ Hp). cbn [negb].
  unfold copy2, open_read. rewrite Hp, Hdir, Hdir, Hcopy.
  cbn [negb orb]. rewrite orb_false_r.
  destruct (bool_decide (p = _get_shadow_path shadow_dir p)) eqn:Hsame.
  - apply bool_decide_eq_true_1 in Hsame. unfold_monad.
    do 2 eexists. split; [reflexivity|]. simpl. now rewrite <- Hsame.
  - cbn [orb negb]. unfold write_metadata.
    match goal with |- context [if ?c then _ else _] => destruct c end.
    + unfold_monad. do 2 eexists. split; [reflexivity|]. simpl.
      apply lookup_insert_eq.
    + match goal with |- context [getsize ?a ?b] =>
        destruct (getsize a b) as [[sz|e] w1] end; unfold_monad;
        do 2 eexists; (split; [reflexivity|]); simpl;
        (rewrite lookup_insert_ne by apply shadow_path_not_metadata_path);
        apply lookup_insert_eq.
Qed.

(** [create_shadow] writes nowhere but at the shadow path and the
    metadata path. *)
Lemma create_shadow_elsewhere p q w r w' :
  isdir (_get_shadow_path shadow_dir p) w = false ->
  q <> _get_shadow_path shadow_dir p ->
  q <> _get_metadata_path shadow_dir p ->
  create_shadow shadow_dir p w = (r, w') ->
  fs w' !! q = fs w !! q.
Proof.
  intros Hdir Hq1 Hq2.
  unfold create_shadow, try_except, bind, gets.
  destruct (negb (path_exists p w)); [intros [= <- <-]; reflexivity|].
  unfold copy2. rewrite Hdir.
  destruct (open_read p w) as [data|]; [|intros [= <- <-]; reflexivity].
  match goal with |- context [if ?c then _ else _] => destruct c end;
    [intros [= <- <-]; reflexivity|].
  destruct (copy_ok w);
    [|destruct (copy_fault w); intros [= <- <-]; simpl;
      now rewrite ?lookup_insert_ne by congruence].
  unfold write_metadata.
  match goal with |- context [if ?c then _ else _] => destruct c end.
  - intros [= <- <-]. simpl. now rewrite lookup_insert_ne.
  - match goal with |- context [getsize ?a ?b] =>
      destruct (getsize a b) as [[sz|e] w1] end;
      intros [= <- <-]; simpl; now rewrite !lookup_insert_ne.
Qed.

(** C7: the first modification event processed for a path without a
    snapshot appends no row to the record store and leaves a snapshot
    with the file's bytes behind. *)
Theorem first_modification_only_snapshots p w data :
  p ∉ processing w ->
  any_part_excluded p = false ->
  fs w !! p = Some (File data true) ->
  utf8_probe data = true ->
  fs w !! _get_shadow_path shadow_dir p = None ->
  copy_ok w = true ->
  exists w', on_modified shadow_dir (modified p) w = (Ret tt, w')
    /\ db w' = db w
    /\ fs w' !! _get_shadow_path shadow_dir p = Some (File data true)
    /\ has_shadow shadow_dir p w' = (Ret true, w')
    /\ processing w' = processing w.
Proof.
  intros Hfree Hex Hp Hprobe Hnone Hcopy.
  unfold on_modified, modified. cbn [is_directory src_path negb].
  unfold _process_modification, bind at 1, gets at 1.
  rewrite bool_decide_eq_false_2 by assumption.
  unfold try_finally, modification_body, bind at 1, modify at 1.
  set (w1 := set_processing _ w).
  unfold bind at 1.
  rewrite (should_process_intro p w1 data) by assumption. cbn [negb].
  unfold bind at 1, gets at 1.
  rewrite (path_exists_lookup p w1 data true) by assumption. cbn [negb].
  unfold bind at 1, getsize at 1.
  replace (fs w1 !! p) with (Some (File data true)) by (symmetry; assumption).
  unfold bind at 1, gets at 1, open_read at 1.
  replace (fs w1 !! p) with (Some (File data true)) by (symmetry; assumption).
  unfold bind at 1, has_shadow at 1, gets at 1.
  rewrite (path_exists_missing (_get_shadow_path shadow_dir p) w1)
    by assumption.
  unfold bind at 1, bind at 1, print at 1, modify at 1.
  set (w2 := set_console _ w1).
  unfold bind, update_shadow.
  destruct (create_shadow_snapshot p w2 data) as (b & w3 & Hcs & Hsnap);
    [assumption | unfold isdir; simpl; now rewrite Hnone | assumption |].
  pose proof (keeps_create_shadow _ _ _ _ Hcs) as (Hdb & Hproc & _).
  rewrite Hcs. unfold ret, modify.
  eexists. split; [reflexivity|]. simpl.
  split; [assumption|]. split; [assumption|].
  split.
  - unfold has_shadow, gets, path_exists. simpl. now rewrite Hsnap.
  - rewrite Hproc. simpl. now apply guard_restored.
Qed.

(** The steps of [modification_body] up to the comparison with the
    snapshot, for a file that passes the filter and has a readable
    snapshot. *)
Ltac enter_modification Hfree Hex Hp Hprobe Hold :=
  unfold on_modified, modified; cbn [is_directory src_path negb];
  unfold _process_modification, bind at 1, gets at 1;
  rewrite bool_decide_eq_false_2 by exact Hfree;
  unfold try_finally, modification_body, bind at 1, modify at 1;
  unfold bind at 1;
  erewrite should_process_intro by (first [exact Hex | exact Hp | exact Hprobe]);
  cbn [negb];
  unfold bind at 1, gets at 1;
  erewrite path_exists_lookup by exact Hp; cbn [negb];
  unfold bind at 1, getsize at 1; cbn [fs set_processing]; rewrite Hp;
  unfold bind at 1, gets at 1, open_read at 1; cbn [fs set_processing];
  rewrite Hp;
  unfold bind at 1, has_shadow at 1, gets at 1;
  erewrite path_exists_lookup by exact Hold;
  unfold bind at 1, bind at 1, bind at 1, get_shadow_content at 1,
    bind at 1, gets at 1;
  erewrite path_exists_lookup by exact Hold; cbn [negb];
  unfold bind at 1, gets at 1, open_read at 1; cbn [fs set_processing];
  rewrite Hold; unfold ret at 1;
  unfold bind at 1, get_shadow_size at 1, bind at 1, gets at 1;
  erewrite path_exists_lookup by exact Hold; cbn [negb];
  unfold try_except at 1, bind at 1, getsize at 1; cbn [fs set_processing];
  rewrite Hold; unfold ret at 1.

(** A modification of a tracked file appends exactly one row, built
    from the snapshot and the new content, and releases the guard. *)
Lemma modification_recorded p w new_data old_data :
  p ∉ processing w ->
  any_part_excluded p = false ->
  fs w !! p = Some (File new_data true) ->
  utf8_probe new_data = true ->
  fs w !! _get_shadow_path shadow_dir p = Some (File old_data true) ->
  db_ok w = true ->
  exists w', on_modified shadow_dir (modified p) w = (Ret tt, w')
    /\ db w' = (db w ++ [modified_row p (now w) old_data new_data])%list
    /\ processing w' = processing w.
Proof.
  intros Hfree Hex Hp Hprobe Hold Hok.
  enter_modification Hfree Hex Hp Hprobe Hold.
  unfold modified_row. cbn [node_size].
  destruct (_compute_diff (read_text old_data) (read_text new_data))
    as [added deleted].
  destruct (magnitude_returns (Z.of_nat (String.length old_data))
              (Z.of_nat (String.length new_data))) as [tag Htag].
  unfold bind at 1, lift at 1. rewrite Htag.
  unfold bind at 1. rewrite record_change_ok by exact Hok.
  unfold bind, print, modify, update_shadow.
  match goal with |- context [create_shadow shadow_dir p ?w2] =>
    destruct (create_shadow_frame p w2) as (b & w3 & Hcs & Hdb & Hproc & _);
    rewrite Hcs
  end.
  unfold ret. eexists. split; [reflexivity|]. simpl.
  split; [exact Hdb|]. rewrite Hproc. simpl. now apply guard_restored.
Qed.

(** C1: with snapshot content ["a\nb\nc\n"] and new content
    ["a\nx\nc\nd\n"], the row that the modification appends has
    [lines_added = 2], [lines_deleted = 1] and [lines_changed = 3]. *)
Theorem record_end_to_end p w new_data old_data :
  p ∉ processing w ->
  any_part_excluded p = false ->
  fs w !! p = Some (File new_data true) ->
  utf8_probe new_data = true ->
  fs w !! _get_shadow_path shadow_dir p = Some (File old_data true) ->
  db_ok w = true ->
  read_text old_data = py "a\nb\nc\n" ->
  read_text new_data = py "a\nx\nc\nd\n" ->
  exists row w', on_modified shadow_dir (modified p) w = (Ret tt, w')
    /\ db w' = (db w ++ [row])%list
    /\ file_path row = p /\ event_type row = "modified"
    /\ lines_added row = 2 /\ lines_deleted row = 1 /\ lines_changed row = 3.
Proof.
  intros Hfree Hex Hp Hprobe Hold Hok Hold_text Hnew_text.
  destruct (modification_recorded p w new_data old_data)
    as (w' & Hrun & Hdb & _); try assumption.
  exists (modified_row p (now w) old_data new_data), w'.
  split; [exact Hrun|]. split; [exact Hdb|].
  unfold modified_row. rewrite Hold_text, Hnew_text, compute_diff_vector.
  simpl. repeat split.
Qed.

(** C6: once modification handling has taken the guard for a path,
    the path is out of the processing set when handling ends, with
    whatever outcome; and while the guard is held, a modification
    event for the path returns at once and changes nothing. *)
Theorem guard_released_on_every_exit p w :
  (p ∉ processing w ->
   forall r w', on_modified shadow_dir (modified p) w = (r, w') ->
                p ∉ processing w')
  /\ (p ∈ processing w ->
      on_modified shadow_dir (modified p) w = (Ret tt, w)).
Proof.
  unfold on_modified, modified. cbn [is_directory src_path negb].
  split; intros Hp; unfold _process_modification, bind at 1, gets at 1.
  - rewrite bool_decide_eq_false_2 by exact Hp.
    unfold try_finally, modify. intros r w'.
    destruct (modification_body shadow_dir p w) as [r1 w1].
    intros [= <- <-]. simpl.
    rewrite elem_of_difference, elem_of_singleton. tauto.
  - rewrite bool_decide_eq_true_2 by exact Hp. reflexivity.
Qed.

(** An event on a path that the filter excludes changes neither the
    record store nor the file system. *)
Lemma excluded_event_ignored (event : FileSystemEvent) w :
  any_part_excluded (src_path event) = true ->
  (exists w', on_created shadow_dir event w = (Ret tt, w')
              /\ db w' = db w /\ fs w' = fs w)
  /\ (exists w', on_modified shadow_dir event w = (Ret tt, w')
                 /\ db w' = db w /\ fs w' = fs w).
Proof.
  intros Hex. destruct event as [d p]. cbn [src_path] in Hex.
  unfold on_created, on_modified. cbn [is_directory src_path].
  destruct d; cbn [negb]; [split; exists w; repeat split|].
  split.
  - unfold _process_creation, bind at 1.
    rewrite should_process_excluded by exact Hex. cbn [negb].
    exists w. repeat split.
  - unfold _process_modification, bind at 1, gets at 1.
    destruct (bool_decide (p ∈ processing w)); [exists w; repeat split|].
    unfold try_finally, modification_body, bind at 1, modify at 1.
    unfold bind at 1.
    rewrite should_process_excluded by exact Hex. cbn [negb].
    unfold ret, modify. eexists. split; [reflexivity|]. simpl. tauto.
Qed.

Lemma git_is_excluded : bool_decide (".git" ∈ excluded) = true.
Proof. vm_compute. reflexivity. Qed.

(** C8 (what the code does): an event, creation or modification, on a
    path with a segment named [.git], or named with a leading dot as
    [.svn] and [.hg] are, writes no row and leaves the file system,
    snapshots included, as it was, whatever the file holds. *)
Theorem version_control_paths_ignored (event : FileSystemEvent) part w :
  part = ".git" \/ starts_with_dot part = true ->
  part ∈ path_parts (src_path event) ->
  (exists w', on_created shadow_dir event w = (Ret tt, w')
              /\ db w' = db w /\ fs w' = fs w)
  /\ (exists w', on_modified shadow_dir event w = (Ret tt, w')
                 /\ db w' = db w /\ fs w' = fs w).
Proof.
  intros Hpart Hin. apply excluded_event_ignored.
  destruct Hpart as [->|Hdot].
  - unfold any_part_excluded. apply existsb_exists.
    exists ".git". split; [now apply list_elem_of_In|].
    now rewrite git_is_excluded.
  - eapply hidden_part_excluded; eassumption.
Qed.

(** C10: the filter looks at every component of the path it is
    given.  A component that starts with a dot, in the path itself or
    in a directory above it such as the watch root, makes
    [_should_process] answer [False], and no event on the path writes
    a row or a snapshot. *)
Theorem hidden_component_rejects_path (event : FileSystemEvent) part w :
  starts_with_dot part = true ->
  (part ∈ path_parts (src_path event)
   \/ exists root rel, part ∈ path_parts root
                       /\ src_path event = root +:+ "/" +:+ rel) ->
  _should_process (src_path event) w = (Ret false, w)
  /\ (exists w', on_created shadow_dir event w = (Ret tt, w')
                 /\ db w' = db w /\ fs w' = fs w)
  /\ (exists w', on_modified shadow_dir event w = (Ret tt, w')
                 /\ db w' = db w /\ fs w' = fs w).
Proof.
  intros Hdot Hin.
  assert (Hex : any_part_excluded (src_path event) = true).
  { destruct Hin as [Hin | (root & rel & Hin & ->)].
    - eapply hidden_part_excluded; eassumption.
    - eapply hidden_part_excluded; [|exact Hdot].
      now apply hidden_part_inherited. }
  split; [now apply should_process_excluded|].
  now apply excluded_event_ignored.
Qed.

Ltac enter_creation Hex Hp Hprobe :=
  unfold on_created, created; cbn [is_directory src_path negb];
  unfold _process_creation, bind at 1;
  erewrite should_process_intro by (first [exact Hex | exact Hp | exact Hprobe]);
  cbn [negb];
  unfold bind at 1, gets at 1;
  erewrite path_exists_lookup by exact Hp;
  unfold bind at 1, getsize at 1; rewrite Hp; cbn [node_size];
  unfold bind at 1.

(** What a creation event does to a file that passes the filter: the
    guard set and an existing snapshot play no part. *)
Lemma creation_recorded p w data :
  any_part_excluded p = false ->
  fs w !! p = Some (File data true) ->
  utf8_probe data = true ->
  db_ok w = true ->
  copy_ok w = true ->
  isdir (_get_shadow_path shadow_dir p) w = false ->
  exists w', on_created shadow_dir (created p) w = (Ret tt, w')
    /\ db w' = (db w ++ [created_row p (now w) data])%list
    /\ fs w' !! _get_shadow_path shadow_dir p = Some (File data true)
    /\ same_stores (set_db (db w') w) w'
    /\ (forall q, q <> _get_shadow_path shadow_dir p ->
                  q <> _get_metadata_path shadow_dir p ->
                  fs w' !! q = fs w !! q).
Proof.
  intros Hex Hp Hprobe Hok Hcopy Hdir.
  enter_creation Hex Hp Hprobe.
  rewrite record_change_ok by exact Hok.
  unfold bind, print, modify.
  match goal with |- context [create_shadow shadow_dir p ?w2] =>
    destruct (create_shadow_snapshot p w2 data) as (b & w3 & Hcs & Hsnap);
      [exact Hp | exact Hdir | exact Hcopy |];
    pose proof (keeps_create_shadow _ _ _ _ Hcs) as Hkeep;
    pose proof (fun q H1 H2 => create_shadow_elsewhere p q w2 _ _ Hdir H1 H2 Hcs)
      as Helse;
    rewrite Hcs
  end.
  unfold ret. eexists. split; [reflexivity|].
  destruct Hkeep as (Hdb & Hproc & Hdbok & Hcok & Hmok & Hnow & Hfault).
  simpl in *. repeat split; assumption.
Qed.

(** C9: a creation event for a path that already has a snapshot
    appends a "created" row without [size_before] and with zero line
    counts and replaces the snapshot by the file's bytes; a second
    creation event appends a second such row. *)
Theorem creation_with_snapshot_not_special p w data old_data old_r :
  any_part_excluded p = false ->
  fs w !! p = Some (File data true) ->
  utf8_probe data = true ->
  db_ok w = true ->
  copy_ok w = true ->
  fs w !! _get_shadow_path shadow_dir p = Some (File old_data old_r) ->
  exists w' row,
    on_created shadow_dir (created p) w = (Ret tt, w')
    /\ db w' = (db w ++ [row])%list
    /\ event_type row = "created" /\ size_before row = None
    /\ lines_added row = 0 /\ lines_deleted row = 0 /\ lines_changed row = 0
    /\ fs w' !! _get_shadow_path shadow_dir p = Some (File data true)
    /\ (p <> _get_shadow_path shadow_dir p ->
        p <> _get_metadata_path shadow_dir p ->
        exists w'', on_created shadow_dir (created p) w' = (Ret tt, w'')
                    /\ db w'' = (db w ++ [row; row])%list).
Proof.
  intros Hex Hp Hprobe Hok Hcopy Hold.
  assert (Hdir : isdir (_get_shadow_path shadow_dir p) w = false)
    by (unfold isdir; now rewrite Hold).
  destruct (creation_recorded p w data)
    as (w' & Hrun & Hdb & Hsnap & Hkeep & Helse); try assumption.
  exists w', (created_row p (now w) data).
  repeat (split; [first [assumption | reflexivity]|]).
  intros Hne1 Hne2.
  destruct Hkeep as (_ & _ & Hdbok & Hcok & _ & Hnow & _). simpl in *.
  destruct (creation_recorded p w' data) as (w'' & Hrun2 & Hdb2 & _);
    try congruence.
  - rewrite Helse by assumption. exact Hp.
  - unfold isdir. now rewrite Hsnap.
  - exists w''. split; [exact Hrun2|].
    rewrite Hdb2, Hdb, Hnow, <- app_assoc. reflexivity.
Qed.

(** C4 (what the code does): when the record store refuses the write,
    [sqlite3.Error] leaves [on_created] and [on_modified] uncaught;
    the guard has been released again by then, and neither a row nor a
    snapshot has been written: the state is the one before the
    event. *)
Theorem record_store_failure_propagates p w data :
  p ∉ processing w ->
  any_part_excluded p = false ->
  fs w !! p = Some (File data true) ->
  utf8_probe data = true ->
  db_ok w = false ->
  on_created shadow_dir (created p) w = (Raise SqliteError, w)
  /\ (forall old_data,
        fs w !! _get_shadow_path shadow_dir p = Some (File old_data true) ->
        on_modified shadow_dir (modified p) w = (Raise SqliteError, w)).
Proof.
  intros Hfree Hex Hp Hprobe Hfail. split.
  - enter_creation Hex Hp Hprobe.
    rewrite record_change_fail by exact Hfail. reflexivity.
  - intros old_data Hold.
    enter_modification Hfree Hex Hp Hprobe Hold.
    cbn [node_size].
    destruct (_compute_diff (read_text old_data) (read_text data))
      as [added deleted].
    destruct (magnitude_returns (Z.of_nat (String.length old_data))
                (Z.of_nat (String.length data))) as [tag Htag].
    unfold bind at 1, lift at 1. rewrite Htag.
    unfold bind at 1. rewrite record_change_fail by exact Hfail.
    unfold modify. f_equal. simpl.
    rewrite guard_restored by exact Hfree. unfold set_processing. simpl.
    now destruct w.
Qed.
End EngineProperties.

(** C2: sizes 100 and 0 give the zeroed-out tag alone; 100 and 40 the
    large-deletion tag with delta 60; 100 and 250 the large-addition
    tag with delta 150; 100 and 90 no tag. *)
Theorem magnitude_priority :
  magnitude (Some 100%Z) 0 = Ret " [FILE ZEROED OUT!]"
  /\ magnitude (Some 100%Z) 40 = Ret " [LARGE DELETION: -60 bytes]"
  /\ magnitude (Some 100%Z) 250 = Ret " [LARGE ADDITION: +150 bytes]"
  /\ magnitude (Some 100%Z) 90 = Ret "".
Proof. repeat split; vm_compute; reflexivity. Qed.

(** The first rule wins whenever it applies, whatever the later rules
    would say. *)
Lemma magnitude_zeroed_first (sb : Z) :
  (0 < sb)%Z -> magnitude (Some sb) 0 = Ret " [FILE ZEROED OUT!]".
Proof.
  intros Hsb. unfold magnitude. cbn [Z.eqb].
  now rewrite (proj2 (Z.ltb_lt 0 sb) Hsb).
Qed.

(** * Concrete runs *)

Ltac by_computation := vm_compute; reflexivity.
Ltac not_held := apply (proj1 (bool_decide_eq_false _)); by_computation.
Ltac is_held := apply (proj1 (bool_decide_eq_true _)); by_computation.

Lemma record_end_to_end_witness :
  exists row w',
    @on_modified demo_platform "/s" (modified "/w/a.txt") (tracked_world [] true)
    = (Ret tt, w')
    /\ db w' = (db (tracked_world [] true) ++ [row])%list
    /\ file_path row = "/w/a.txt" /\ event_type row = "modified"
    /\ lines_added row = 2 /\ lines_deleted row = 1 /\ lines_changed row = 3.
Proof.
  apply (@record_end_to_end demo_platform "/s" "/w/a.txt" (tracked_world [] true)
           (esc "a\nx\nc\nd\n") (esc "a\nb\nc\n"));
    first [not_held | by_computation].
Defined.

Lemma first_modification_only_snapshots_witness :
  exists w',
    @on_modified demo_platform "/s" (modified "/w/a.txt") untracked_world
    = (Ret tt, w')
    /\ db w' = db untracked_world
    /\ fs w' !! @_get_shadow_path demo_platform "/s" "/w/a.txt"
       = Some (File (esc "a\nx\nc\nd\n") true)
    /\ @has_shadow demo_platform "/s" "/w/a.txt" w' = (Ret true, w')
    /\ processing w' = processing untracked_world.
Proof.
  apply (@first_modification_only_snapshots demo_platform "/s" "/w/a.txt"
           untracked_world (esc "a\nx\nc\nd\n"));
    first [not_held | by_computation].
Defined.

Lemma guard_released_on_every_exit_witness :
  (forall r w',
      @on_modified demo_platform "/s" (modified "/w/a.txt") (tracked_world [] false)
      = (r, w') -> "/w/a.txt" ∉ processing w')
  /\ @on_modified demo_platform "/s" (modified "/w/a.txt")
       (tracked_world ["/w/a.txt"] true)
     = (Ret tt, tracked_world ["/w/a.txt"] true).
Proof.
  split.
  - apply (proj1 (@guard_released_on_every_exit demo_platform "/s" "/w/a.txt"
                    (tracked_world [] false))).
    not_held.
  - apply (proj2 (@guard_released_on_every_exit demo_platform "/s" "/w/a.txt"
                    (tracked_world ["/w/a.txt"] true))).
    is_held.
Defined.

Lemma version_control_paths_ignored_witness :
  (exists w', @on_created demo_platform "/s" (created "/w/.git/config") git_world
              = (Ret tt, w')
              /\ db w' = db git_world /\ fs w' = fs git_world)
  /\ (exists w', @on_modified demo_platform "/s" (modified "/w/.git/config") git_world
                 = (Ret tt, w')
                 /\ db w' = db git_world /\ fs w' = fs git_world).
Proof.
  apply (@version_control_paths_ignored demo_platform "/s"
           (modified "/w/.git/config") ".git" git_world).
  - left. reflexivity.
  - apply list_elem_of_In. vm_compute. tauto.
Defined.

Lemma hidden_component_rejects_path_witness :
  @_should_process demo_platform "/home/u/.config/app/notes.txt" hidden_root_world
  = (Ret false, hidden_root_world)
  /\ (exists w', @on_created demo_platform "/s"
                   (created "/home/u/.config/app/notes.txt") hidden_root_world
                 = (Ret tt, w')
                 /\ db w' = db hidden_root_world /\ fs w' = fs hidden_root_world)
  /\ (exists w', @on_modified demo_platform "/s"
                   (modified "/home/u/.config/app/notes.txt") hidden_root_world
                 = (Ret tt, w')
                 /\ db w' = db hidden_root_world /\ fs w' = fs hidden_root_world).
Proof.
  apply (@hidden_component_rejects_path demo_platform "/s"
           (modified "/home/u/.config/app/notes.txt") ".config" hidden_root_world).
  - reflexivity.
  - right. exists "/home/u/.config/app", "notes.txt". split; [|reflexivity].
    apply list_elem_of_In. vm_compute. tauto.
Defined.

Lemma creation_with_snapshot_not_special_witness :
  exists w' row,
    @on_created demo_platform "/s" (created "/w/a.txt") (tracked_world [] true)
    = (Ret tt, w')
    /\ db w' = (db (tracked_world [] true) ++ [row])%list
    /\ event_type row = "created" /\ size_before row = None
    /\ lines_added row = 0 /\ lines_deleted row = 0 /\ lines_changed row = 0
    /\ fs w' !! @_get_shadow_path demo_platform "/s" "/w/a.txt"
       = Some (File (esc "a\nx\nc\nd\n") true)
    /\ ("/w/a.txt" <> @_get_shadow_path demo_platform "/s" "/w/a.txt" ->
        "/w/a.txt" <> @_get_metadata_path demo_platform "/s" "/w/a.txt" ->
        exists w'', @on_created demo_platform "/s" (created "/w/a.txt") w'
                    = (Ret tt, w'')
                    /\ db w'' = (db (tracked_world [] true) ++ [row; row])%list).
Proof.
  apply (@creation_with_snapshot_not_special demo_platform "/s" "/w/a.txt"
           (tracked_world [] true) (esc "a\nx\nc\nd\n") (esc "a\nb\nc\n") true);
    by_computation.
Defined.

Lemma record_store_failure_propagates_witness :
  @on_created demo_platform "/s" (created "/w/a.txt") (tracked_world [] false)
  = (Raise SqliteError, tracked_world [] false)
  /\ (forall old_data,
        fs (tracked_world [] false) !! @_get_shadow_path demo_platform "/s" "/w/a.txt"
        = Some (File old_data true) ->
        @on_modified demo_platform "/s" (modified "/w/a.txt") (tracked_world [] false)
        = (Raise SqliteError, tracked_world [] false)).
Proof.
  apply (@record_store_failure_propagates demo_platform "/s" "/w/a.txt"
           (tracked_world [] false) (esc "a\nx\nc\nd\n"));
    first [not_held | by_computation].
Defined.

(** C4, as stated, fails: with the record store refusing writes, the
    modification handler ends by raising [sqlite3.Error]. *)
Lemma record_store_failure_escapes :
  db_ok (tracked_world [] false) = false
  /\ fst (@on_modified demo_platform "/s" (modified "/w/a.txt") (tracked_world [] false))
     = Raise SqliteError
  /\ fst (@on_created demo_platform "/s" (created "/w/a.txt") (tracked_world [] false))
     = Raise SqliteError.
Proof. repeat split; by_computation. Qed.

(** C8, as stated, fails: [CVS] names version-control metadata as
    [.git] does, it is not in the exclusion set and does not begin
    with a dot, and the creation event for a file below it appends a
    row and writes a snapshot. *)
Lemma version_control_cvs_recorded :
  "CVS" ∈ path_parts "/w/CVS/Entries"
  /\ db cvs_world = []
  /\ fs cvs_world !! @_get_shadow_path demo_platform "/s" "/w/CVS/Entries" = None
  /\ db (snd (@on_created demo_platform "/s" (created "/w/CVS/Entries") cvs_world))
     = [created_row "/w/CVS/Entries" (now cvs_world) (esc "D\n")]
  /\ fs (snd (@on_created demo_platform "/s" (created "/w/CVS/Entries") cvs_world))
       !! @_get_shadow_path demo_platform "/s" "/w/CVS/Entries"
     = Some (File (esc "D\n") true).
Proof.
  split; [apply list_elem_of_In; vm_compute; tauto|].
  repeat split; by_computation.
Qed.

(** C3, as stated, fails: between ["t\ni\nd\ne\n"] and ["d\ni\ne\nt\n"]
    the diff adds three lines one way and deletes two the other way. *)
Lemma diff_symmetry_fails :
  _compute_diff (py "t\ni\nd\ne\n") (py "d\ni\ne\nt\n") = (3, 3)
  /\ _compute_diff (py "d\ni\ne\nt\n") (py "t\ni\nd\ne\n") = (2, 2)
  /\ fst (_compute_diff (py "t\ni\nd\ne\n") (py "d\ni\ne\nt\n"))
     <> snd (_compute_diff (py "d\ni\ne\nt\n") (py "t\ni\nd\ne\n")).
Proof. repeat split; try by_computation. vm_compute. discriminate. Qed.

(** The counting loop takes a line that begins with two plus signs for
    a header, so an added ["++x"] is not counted, while its removal
    is. *)
Example added_line_with_plus_prefix :
  _compute_diff (py "") (py "++x\n") = (0, 0)
  /\ _compute_diff (py "++x\n") (py "") = (0, 1).
Proof. split; by_computation. Qed.

(** * Properties of the diff *)

Local Close Scope string_scope.
Local Open Scope nat_scope.

(** ** The longest match lies in the window searched *)

Section MatchBounds.
Context {A : Type} `{EqDecision A}.
Implicit Types (a b : list A).

Lemma scan_js_within alo ahi blo bhi i j2len js newj2len best :
  alo <= i -> i < ahi ->
  row_ok alo blo bhi i j2len ->
  row_ok alo blo bhi (i + 1) newj2len ->
  within alo ahi blo bhi best ->
  let '(m, best') := scan_js j2len i blo bhi js newj2len best in
  row_ok alo blo bhi (i + 1) m /\ within alo ahi blo bhi best'.
Proof.
  intros Hlo Hhi Hprev. revert newj2len best.
  induction js as [|j js IH]; intros newj2len best Hnew Hbest; cbn [scan_js].
  - split; assumption.
  - destruct (j <? blo) eqn:Hjlo; [now apply IH|].
    destruct (bhi <=? j) eqn:Hjhi; [split; assumption|].
    apply Nat.ltb_ge in Hjlo. apply Nat.leb_gt in Hjhi.
    set (k := match j with O => 0 | S j' => default 0 (j2len !! j') end + 1).
    assert (Hk : k + alo <= i + 1 /\ k + blo <= j + 1).
    { subst k. destruct j as [|j']; [lia|].
      destruct (j2len !! j') as [k'|] eqn:Hj'; simpl; [|lia].
      destruct (Hprev _ _ Hj') as (? & ? & ?). lia. }
    destruct best as [[besti bestj] bestsize].
    apply IH.
    + intros j0 k0. rewrite lookup_insert. case_decide as Hj0.
      * intros [= <-]. subst j0. lia.
      * apply Hnew.
    + destruct (bestsize <? k); [|assumption].
      unfold within. lia.
Qed.

Lemma scan_is_within a b alo ahi blo bhi n r j2len best :
  alo <= r -> r + n <= ahi ->
  row_ok alo blo bhi r j2len ->
  within alo ahi blo bhi best ->
  within alo ahi blo bhi (scan_is a b blo bhi (seq r n) j2len best).
Proof.
  revert r j2len best.
  induction n as [|n IH]; intros r j2len best Hlo Hhi Hrow Hbest;
    cbn [seq scan_is]; [assumption|].
  set (js := match a !! r with Some x => b2j_get b x | None => [] end).
  pose proof (scan_js_within alo ahi blo bhi r j2len js ∅ best) as Hjs.
  destruct (scan_js j2len r blo bhi js ∅ best) as [m best'].
  destruct Hjs as [Hm Hbest']; try assumption; try lia.
  { intros j k. rewrite lookup_empty. discriminate. }
  apply IH; try lia; try assumption.
  replace (S r) with (r + 1) by lia. exact Hm.
Qed.

Lemma extend_back_within a b alo ahi blo bhi besti bestj bestsize :
  within alo ahi blo bhi (besti, bestj, bestsize) ->
  within alo ahi blo bhi (extend_back a b alo blo besti bestj bestsize).
Proof.
  revert bestj bestsize.
  induction besti as [|i' IH]; intros bestj bestsize Hin; cbn [extend_back];
    [assumption|].
  destruct bestj as [|j']; [assumption|].
  destruct ((alo <? S i') && (blo <? S j') && same_at a b i' j') eqn:Hc;
    [|assumption].
  apply andb_true_iff in Hc as [Hc _]. apply andb_true_iff in Hc as [H1 H2].
  apply Nat.ltb_lt in H1, H2.
  apply IH. unfold within in *. lia.
Qed.

Lemma extend_forward_within a b alo ahi blo bhi n besti bestj bestsize :
  within alo ahi blo bhi (besti, bestj, bestsize) ->
  within alo ahi blo bhi (extend_forward a b ahi bhi n besti bestj bestsize).
Proof.
  revert bestsize.
  induction n as [|n IH]; intros bestsize Hin; cbn [extend_forward];
    [assumption|].
  match goal with |- context [if ?c then _ else _] => destruct c eqn:Hc end;
    [|assumption].
  apply andb_true_iff in Hc as [Hc _]. apply andb_true_iff in Hc as [H1 H2].
  apply Nat.ltb_lt in H1, H2.
  apply IH. unfold within in *. lia.
Qed.

(** The bound on the rounds of [extend_forward] is never what stops
    it: one more round changes nothing. *)
Lemma extend_forward_enough a b ahi bhi n besti bestj bestsize :
  ahi - (besti + bestsize) <= n ->
  extend_forward a b ahi bhi (S n) besti bestj bestsize
  = extend_forward a b ahi bhi n besti bestj bestsize.
Proof.
  revert bestsize. induction n as [|n IH]; intros bestsize Hn.
  - cbn [extend_forward].
    destruct (besti + bestsize <? ahi) eqn:Hc; [|reflexivity].
    apply Nat.ltb_lt in Hc. lia.
  - change (extend_forward a b ahi bhi (S (S n)) besti bestj bestsize)
      with (if (besti + bestsize <? ahi) && (bestj + bestsize <? bhi)
               && same_at a b (besti + bestsize) (bestj + bestsize)
            then extend_forward a b ahi bhi (S n) besti bestj (S bestsize)
            else (besti, bestj, bestsize)).
    rewrite IH by lia. reflexivity.
Qed.

Lemma find_longest_match_within a b alo ahi blo bhi :
  alo <= ahi -> blo <= bhi ->
  within alo ahi blo bhi (find_longest_match a b alo ahi blo bhi).
Proof.
  intros Ha Hb. unfold find_longest_match.
  pose proof (scan_is_within a b alo ahi blo bhi (ahi - alo) alo ∅ (alo, blo, 0))
    as Hscan.
  destruct (scan_is a b blo bhi (seq alo (ahi - alo)) ∅ (alo, blo, 0))
    as [[besti bestj] bestsize].
  assert (Hin : within alo ahi blo bhi (besti, bestj, bestsize)).
  { apply Hscan; try lia.
    - intros j k. rewrite lookup_empty. discriminate.
    - unfold within. lia. }
  pose proof (extend_back_within a b alo ahi blo bhi besti bestj bestsize Hin)
    as Hback.
  destruct (extend_back a b alo blo besti bestj bestsize) as [[i j] k].
  now apply extend_forward_within with (alo := alo) (blo := blo).
Qed.
End MatchBounds.

(** ** The matching blocks form a chain *)

Ltac open_rects :=
  repeat match goal with
         | r : rect |- _ => destruct r as [[[? ?] ?] ?]
         | m : Match |- _ => destruct m as [[? ?] ?]
         end;
  unfold apart, precedes, inside, extent, within in *.

Lemma apart_sym (x y : rect) : apart x y -> apart y x.
Proof. unfold apart. tauto. Qed.

Lemma apart_inside (x s y : rect) : inside x s -> apart x y -> apart s y.
Proof. open_rects. lia. Qed.

Lemma inside_trans (o x s : rect) : inside o x -> inside x s -> inside o s.
Proof. open_rects. lia. Qed.

Lemma fop_app {T} (R : T -> T -> Prop) (l1 l2 : list T) :
  ForallOrdPairs R (l1 ++ l2)
  <-> ForallOrdPairs R l1 /\ ForallOrdPairs R l2
      /\ Forall (fun x => Forall (R x) l2) l1.
Proof.
  induction l1 as [|x l1 IH]; cbn [app].
  - split; [intros Hl; repeat split; [constructor | assumption | constructor]
           | tauto].
  - split.
    + intros Hl. inversion Hl as [|? ? Hx Hrest]; subst.
      apply Forall_app in Hx as [Hx1 Hx2].
      apply IH in Hrest as (H1 & H2 & H3).
      repeat split; [constructor; assumption | assumption | constructor; assumption].
    + intros (H1 & H2 & H3).
      inversion H1 as [|? ? Hx Hrest]; subst.
      inversion H3 as [|? ? Hx2 H3']; subst.
      constructor; [apply Forall_app; split; assumption|].
      apply IH. tauto.
Qed.

Lemma fop_perm {T} (R : T -> T -> Prop) (l l' : list T) :
  (forall x y, R x y -> R y x) ->
  l ≡ₚ l' -> ForallOrdPairs R l -> ForallOrdPairs R l'.
Proof.
  intros Hsym Hperm.
  induction Hperm as [|x l l' Hperm IH|x y l|l l' l'' H1 IH1 H2 IH2]; intros Hl.
  - constructor.
  - inversion Hl as [|? ? Hx Hrest]; subst.
    constructor; [now rewrite <- Hperm | now apply IH].
  - inversion Hl as [|? ? Hy Hrest]; subst.
    inversion Hrest as [|? ? Hx Hrest']; subst.
    inversion Hy as [|? ? Hyx Hy']; subst.
    repeat constructor; auto.
  - auto.
Qed.

(** Replacing a window by pieces of itself that are apart from each
    other keeps all windows apart. *)
Lemma fop_replace (l1 l2 subs : list rect) (x : rect) :
  ForallOrdPairs apart (l1 ++ x :: l2) ->
  Forall (inside x) subs ->
  ForallOrdPairs apart subs ->
  ForallOrdPairs apart (l1 ++ subs ++ l2).
Proof.
  intros Hold Hin Hsubs.
  apply fop_app in Hold as (H1 & H2 & H3).
  inversion H2 as [|? ? Hx H2']; subst.
  apply fop_app. split; [assumption|]. split.
  - apply fop_app. split; [assumption|]. split; [assumption|].
    eapply Forall_impl; [exact Hin|]. intros s Hs. simpl.
    eapply Forall_impl; [exact Hx|]. intros y Hy. simpl in Hy.
    eapply apart_inside; eassumption.
  - eapply Forall_impl; [exact H3|]. intros y Hy. simpl in Hy.
    inversion Hy as [|? ? Hyx Hy2]; subst.
    apply Forall_app. split; [|assumption].
    eapply Forall_impl; [exact Hin|]. intros s Hs. simpl.
    apply apart_sym. eapply apart_inside; [exact Hs|]. now apply apart_sym.
Qed.

Section MatchingBlocks.
Context {A : Type} `{EqDecision A}.
Implicit Types (a b : list A).

Lemma pushed_pieces alo ahi blo bhi i j k queue' :
  within alo ahi blo bhi (i, j, k) ->
  exists subs,
    pushed alo ahi blo bhi i j k queue' = (subs ++ queue')%list
    /\ Forall (inside (alo, ahi, blo, bhi)) ((i, i + k, j, j + k) :: subs)
    /\ ForallOrdPairs apart ((i, i + k, j, j + k) :: subs)
    /\ (0 < k -> queue_weight subs < 2 * (ahi - alo) + 1).
Proof.
  intros Hin. unfold pushed, within in *.
  destruct ((alo <? i) && (blo <? j)); destruct ((i + k <? ahi) && (j + k <? bhi)).
  - exists [(i + k, ahi, j + k, bhi); (alo, i, blo, j)].
    split; [reflexivity|].
    repeat split; repeat constructor; unfold inside, apart, precedes;
      cbn [queue_weight]; lia.
  - exists [(alo, i, blo, j)]. split; [reflexivity|].
    repeat split; repeat constructor; unfold inside, apart, precedes;
      cbn [queue_weight]; lia.
  - exists [(i + k, ahi, j + k, bhi)]. split; [reflexivity|].
    repeat split; repeat constructor; unfold inside, apart, precedes;
      cbn [queue_weight]; lia.
  - exists []. split; [reflexivity|].
    repeat split; repeat constructor; unfold inside, apart, precedes;
      cbn [queue_weight]; lia.
Qed.

Lemma queue_weight_app (q1 q2 : list rect) :
  queue_weight (q1 ++ q2) = queue_weight q1 + queue_weight q2.
Proof.
  induction q1 as [|[[[alo ahi] blo] bhi] q1 IH]; cbn [app queue_weight]; lia.
Qed.

Lemma blocks_loop_step a b fuel alo ahi blo bhi queue' acc :
  blocks_loop a b (S fuel) ((alo, ahi, blo, bhi) :: queue') acc
  = let '(i, j, k) := find_longest_match a b alo ahi blo bhi in
    if k =? 0 then blocks_loop a b fuel queue' acc
    else blocks_loop a b fuel (pushed alo ahi blo bhi i j k queue')
           (acc ++ [(i, j, k)]).
Proof. reflexivity. Qed.

(** [blocks_loop] empties its queue within the fuel that
    [get_matching_blocks] gives it. *)
Lemma blocks_loop_total a b fuel queue acc :
  Forall proper queue -> queue_weight queue <= fuel ->
  is_Some (blocks_loop a b fuel queue acc).
Proof.
  revert queue acc.
  induction fuel as [|fuel IH]; intros queue acc Hproper Hweight.
  - destruct queue as [|[[[alo ahi] blo] bhi] queue']; [eauto|].
    cbn [queue_weight] in Hweight. lia.
  - destruct queue as [|[[[alo ahi] blo] bhi] queue']; [eauto|].
    rewrite blocks_loop_step.
    inversion Hproper as [|? ? Hp Hproper']; subst.
    destruct Hp as [Ha Hb].
    pose proof (find_longest_match_within a b alo ahi blo bhi Ha Hb) as Hin.
    destruct (find_longest_match a b alo ahi blo bhi) as [[i j] k].
    cbn [queue_weight] in Hweight.
    destruct (k =? 0) eqn:Hk.
    + apply IH; [assumption | lia].
    + apply Nat.eqb_neq in Hk.
      destruct (pushed_pieces alo ahi blo bhi i j k queue' Hin)
        as (subs & -> & Hinside & _ & Hw).
      apply IH.
      * apply Forall_app. split; [|assumption].
        inversion Hinside as [|? ? _ Hsubs]; subst.
        eapply Forall_impl; [exact Hsubs|].
        intros [[[a1 a2] b1] b2]. unfold inside, proper. lia.
      * rewrite queue_weight_app. specialize (Hw ltac:(lia)). lia.
Qed.

(** [get_matching_blocks] never falls back on its default. *)
Lemma get_matching_blocks_total a b :
  is_Some (blocks_loop a b (blocks_fuel a) [(0, length a, 0, length b)] []).
Proof.
  apply blocks_loop_total.
  - repeat constructor; lia.
  - unfold blocks_fuel. cbn [queue_weight]. lia.
Qed.

Lemma blocks_loop_inv a b la lb fuel queue acc res :
  loop_inv la lb queue acc ->
  blocks_loop a b fuel queue acc = Some res ->
  loop_inv la lb [] res.
Proof.
  revert queue acc.
  induction fuel as [|fuel IH]; intros queue acc Hinv Hres.
  - destruct queue as [|[[[alo ahi] blo] bhi] queue']; [|discriminate].
    cbn in Hres. now injection Hres as <-.
  - destruct queue as [|[[[alo ahi] blo] bhi] queue'].
    { cbn in Hres. now injection Hres as <-. }
    rewrite blocks_loop_step in Hres.
    destruct Hinv as (Hfop & Hbound & Hpos).
    assert (Hr : inside (0, la, 0, lb) (alo, ahi, blo, bhi)).
    { apply Forall_app in Hbound as [_ Hq]. now inversion Hq. }
    assert (Ha : alo <= ahi) by (unfold inside in Hr; lia).
    assert (Hb : blo <= bhi) by (unfold inside in Hr; lia).
    pose proof (find_longest_match_within a b alo ahi blo bhi Ha Hb) as Hin.
    destruct (find_longest_match a b alo ahi blo bhi) as [[i j] k].
    destruct (k =? 0) eqn:Hk.
    + apply (IH queue' acc); [|assumption].
      split; [|split; [|assumption]].
      * apply fop_app in Hfop as (H1 & H2 & H3).
        apply fop_app. split; [assumption|].
        inversion H2; subst. split; [assumption|].
        eapply Forall_impl; [exact H3|]. intros y Hy. simpl in Hy.
        now inversion Hy.
      * apply Forall_app in Hbound as [Hb1 Hb2].
        apply Forall_app. split; [assumption | now inversion Hb2].
    + apply Nat.eqb_neq in Hk.
      destruct (pushed_pieces alo ahi blo bhi i j k queue' Hin)
        as (subs & Hpush & Hinside & Hsubs & _).
      rewrite Hpush in Hres.
      apply (IH _ _ ) in Hres; [assumption|].
      unfold loop_inv. rewrite map_app. cbn [map extent]. rewrite <- app_assoc.
      split; [|split].
      * apply (fop_replace _ _ ((i, i + k, j, j + k) :: subs) _ Hfop Hinside Hsubs).
      * apply Forall_app in Hbound as [Hb1 Hb2].
        apply Forall_app. split; [assumption|].
        inversion Hb2; subst.
        change (Forall (inside (0, la, 0, lb))
                  (((i, i + k, j, j + k) :: subs) ++ queue')).
        apply Forall_app. split; [|assumption].
        eapply Forall_impl; [exact Hinside|]. intros s Hs.
        eapply inside_trans; eassumption.
      * apply Forall_app. split; [assumption|].
        constructor; [cbn; lia | constructor].
Qed.
End MatchingBlocks.

(** ** From the blocks found to the list [get_matching_blocks] returns *)

Lemma match_leb_spec (x y : Match) :
  match_leb x y = true
  <-> let '(i1, j1, k1) := x in
      let '(i2, j2, k2) := y in
      i1 < i2 \/ (i1 = i2 /\ (j1 < j2 \/ (j1 = j2 /\ k1 <= k2))).
Proof.
  destruct x as [[i1 j1] k1], y as [[i2 j2] k2]. unfold match_leb.
  rewrite !orb_true_iff, !andb_true_iff, !orb_true_iff, !andb_true_iff.
  rewrite !Nat.ltb_lt, !Nat.eqb_eq, Nat.leb_le. tauto.
Qed.

#[local] Instance match_le_trans : Transitive match_le.
Proof.
  intros x y z. unfold match_le. rewrite !match_leb_spec.
  destruct x as [[? ?] ?], y as [[? ?] ?], z as [[? ?] ?]. lia.
Qed.

#[local] Instance match_le_total : Total match_le.
Proof.
  intros x y. unfold match_le. rewrite !match_leb_spec.
  destruct x as [[? ?] ?], y as [[? ?] ?]. lia.
Qed.

Lemma sorted_apart_before (x y : Match) :
  match_le x y -> apart (extent x) (extent y) -> 0 < snd y -> before x y.
Proof.
  unfold match_le, before. rewrite match_leb_spec.
  destruct x as [[? ?] ?], y as [[? ?] ?].
  unfold apart, precedes, extent. cbn [snd]. lia.
Qed.

Lemma sorted_blocks_chain (l : list Match) :
  StronglySorted match_le l ->
  ForallOrdPairs apart (map extent l) ->
  Forall (fun m : Match => 0 < snd m) l ->
  StronglySorted before l.
Proof.
  induction l as [|x l IH]; intros Hs Hfop Hpos; [constructor|].
  inversion Hs as [|? ? Hs' Hle]; subst.
  cbn [map] in Hfop. inversion Hfop as [|? ? Hap Hfop']; subst.
  inversion Hpos as [|? ? Hx Hpos']; subst.
  constructor; [now apply IH|].
  rewrite Forall_map in Hap.
  rewrite Forall_forall in Hle, Hap, Hpos' |- *. intros y Hy.
  apply sorted_apart_before; [apply Hle | apply Hap | apply Hpos']; exact Hy.
Qed.

Lemma monotone_from_weaken (i j i' j' : nat) (l : list Match) :
  i <= i' -> j <= j' -> monotone_from i' j' l -> monotone_from i j l.
Proof.
  destruct l as [|[[ai bj] k] l]; cbn [monotone_from]; [tauto | intuition lia].
Qed.

Lemma chain_monotone (l : list Match) (i j : nat) :
  StronglySorted before l ->
  Forall (fun m : Match => i <= fst (fst m) /\ j <= snd (fst m)) l ->
  monotone_from i j l.
Proof.
  revert i j. induction l as [|[[ai bj] k] l IH]; intros i j Hs Hlow;
    cbn [monotone_from]; [exact I|].
  inversion Hs as [|? ? Hs' Hbefore]; subst.
  inversion Hlow as [|? ? Hx Hlow']; subst. cbn [fst snd] in Hx.
  split; [lia|]. split; [lia|].
  apply IH; [assumption|].
  eapply Forall_impl; [exact Hbefore|].
  intros [[ci cj] ck]. unfold before, precedes, extent. cbn [fst snd]. lia.
Qed.

Lemma end_cursor_bound (l : list Match) (i j la lb : nat) :
  i <= la -> j <= lb ->
  Forall (fun m => inside (0, la, 0, lb) (extent m)) l ->
  fst (end_cursor i j l) <= la /\ snd (end_cursor i j l) <= lb.
Proof.
  revert i j. induction l as [|[[ai bj] k] l IH]; intros i j Hi Hj Hin;
    cbn [end_cursor]; [cbn; lia|].
  inversion Hin as [|? ? Hx Hin']; subst.
  unfold inside, extent in Hx. apply IH; [lia | lia | assumption].
Qed.

Lemma end_cursor_app (l1 l2 : list Match) (i j : nat) :
  end_cursor i j (l1 ++ l2)
  = end_cursor (fst (end_cursor i j l1)) (snd (end_cursor i j l1)) l2.
Proof.
  revert i j. induction l1 as [|[[ai bj] k] l1 IH]; intros i j;
    cbn [app end_cursor]; [reflexivity | apply IH].
Qed.

(** Merging adjacent blocks keeps the chain; [tail] is what follows. *)
Lemma collapse_chain (rest tail : list Match) (i1 j1 k1 : nat) :
  monotone_from (i1 + k1) (j1 + k1) rest ->
  monotone_from (fst (end_cursor (i1 + k1) (j1 + k1) rest))
                (snd (end_cursor (i1 + k1) (j1 + k1) rest)) tail ->
  monotone_from i1 j1 (collapse (i1, j1, k1) rest ++ tail).
Proof.
  revert i1 j1 k1.
  induction rest as [|[[i2 j2] k2] rest IH]; intros i1 j1 k1 Hrest Htail.
  - cbn [collapse end_cursor fst snd] in *.
    destruct (k1 =? 0) eqn:Hk; cbn [app monotone_from].
    + apply Nat.eqb_eq in Hk. subst k1.
      eapply monotone_from_weaken; [| |exact Htail]; lia.
    + repeat split; [lia | lia | exact Htail].
  - cbn [collapse]. cbn [monotone_from end_cursor] in Hrest, Htail.
    destruct Hrest as (Hi & Hj & Hrest).
    destruct ((i1 + k1 =? i2) && (j1 + k1 =? j2)) eqn:Hadj.
    + apply andb_true_iff in Hadj as [Hi2 Hj2].
      apply Nat.eqb_eq in Hi2, Hj2. subst i2 j2.
      apply IH.
      * now rewrite !Nat.add_assoc.
      * now rewrite !Nat.add_assoc.
    + specialize (IH i2 j2 k2 Hrest Htail).
      rewrite <- app_assoc.
      destruct (k1 =? 0) eqn:Hk; cbn [app monotone_from].
      * eapply monotone_from_weaken; [| |exact IH]; lia.
      * repeat split; [lia | lia |].
        eapply monotone_from_weaken; [| |exact IH]; lia.
Qed.

Section MatchingBlocksChain.
Context {A : Type} `{EqDecision A}.
Implicit Types (a b : list A).

(** The list [get_matching_blocks] returns is a chain from [(0, 0)]
    that ends with the sentinel at [(len(a), len(b))]. *)
Lemma matching_blocks_chain a b :
  monotone_from 0 0 (get_matching_blocks a b)
  /\ end_cursor 0 0 (get_matching_blocks a b) = (length a, length b).
Proof.
  unfold get_matching_blocks.
  set (la := length a). set (lb := length b).
  destruct (get_matching_blocks_total a b) as [found Hfound].
  fold la lb in Hfound.
  rewrite Hfound. cbn [default from_option].
  assert (Hstart : loop_inv la lb [(0, la, 0, lb)] []).
  { unfold loop_inv. cbn [map app].
    repeat split; repeat constructor; unfold inside; lia. }
  destruct (blocks_loop_inv a b la lb _ _ _ _ Hstart Hfound)
    as (Hfop & Hbound & Hpos).
  rewrite app_nil_r in Hfop, Hbound.
  set (sorted := merge_sort match_le found).
  assert (Hperm : sorted ≡ₚ found) by apply merge_sort_Permutation.
  assert (Hchain : StronglySorted before sorted).
  { apply sorted_blocks_chain.
    - apply StronglySorted_merge_sort; apply _.
    - eapply fop_perm; [apply apart_sym | | exact Hfop].
      apply Permutation_map. now symmetry.
    - now rewrite Hperm. }
  assert (Hin : Forall (fun m => inside (0, la, 0, lb) (extent m)) sorted).
  { rewrite Hperm. rewrite Forall_map in Hbound. exact Hbound. }
  split.
  - apply (collapse_chain sorted [(la, lb, 0)] 0 0 0).
    + apply chain_monotone; [assumption|].
      eapply Forall_impl; [exact Hin|]. intros m _. lia.
    + cbn [monotone_from Nat.add].
      pose proof (end_cursor_bound sorted 0 0 la lb ltac:(lia) ltac:(lia) Hin).
      tauto.
  - rewrite end_cursor_app. cbn [end_cursor]. now rewrite !Nat.add_0_r.
Qed.
End MatchingBlocksChain.

(** ** Counting the lines of the opcodes *)

Section OpcodeCounts.
Context {A : Type} `{EqDecision A}.
Implicit Types (a b : list A).

Lemma slice_length a (i1 i2 : nat) :
  i2 <= length a -> length (slice a i1 i2) = i2 - i1.
Proof. intros Hi. unfold slice. rewrite length_take, length_drop. lia. Qed.

Lemma end_cursor_ge (blocks : list Match) (i j : nat) :
  monotone_from i j blocks ->
  i <= fst (end_cursor i j blocks) /\ j <= snd (end_cursor i j blocks).
Proof.
  revert i j. induction blocks as [|[[ai bj] k] blocks IH]; intros i j Hm;
    cbn [end_cursor monotone_from] in *; [cbn; lia|].
  destruct Hm as (Hi & Hj & Hm). specialize (IH _ _ Hm). lia.
Qed.

(** Along a chain of blocks, removed lines and matched lines make up
    [a], inserted lines and matched lines make up [b]. *)
Lemma opcodes_balance a b (blocks : list Match) (i j : nat) :
  monotone_from i j blocks ->
  fst (end_cursor i j blocks) <= length a ->
  snd (end_cursor i j blocks) <= length b ->
  i + sum_list_with (op_deleted a) (opcodes_from i j blocks)
    + sum_list_with snd blocks = fst (end_cursor i j blocks)
  /\ j + sum_list_with (op_added b) (opcodes_from i j blocks)
       + sum_list_with snd blocks = snd (end_cursor i j blocks).
Proof.
  revert i j. induction blocks as [|[[ai bj] k] blocks IH]; intros i j Hm Ha Hb;
    cbn [end_cursor monotone_from opcodes_from sum_list_with snd] in *;
    [cbn; lia|].
  destruct Hm as (Hi & Hj & Hm).
  destruct (IH _ _ Hm Ha Hb) as [IHa IHb].
  destruct (end_cursor_ge _ _ _ Hm) as [Hea Heb].
  rewrite !sum_list_with_app.
  assert (Hda : length (slice a i ai) = ai - i) by (apply slice_length; lia).
  assert (Hdb : length (slice b j bj) = bj - j) by (apply slice_length; lia).
  destruct (i <? ai) eqn:Hci; destruct (j <? bj) eqn:Hcj;
    destruct (k =? 0) eqn:Hk; cbn [andb sum_list_with op_deleted op_added];
    try apply Nat.ltb_lt in Hci; try apply Nat.ltb_ge in Hci;
    try apply Nat.ltb_lt in Hcj; try apply Nat.ltb_ge in Hcj;
    rewrite ?Hda, ?Hdb; lia.
Qed.

(** Grouping moves no opcode other than unchanged ranges, so sums of a
    quantity that is zero on those are the same before and after. *)
Section Grouping.
Variable f : opcode -> nat.
Hypothesis f_equal_zero : forall i1 i2 j1 j2, f (Equal, i1, i2, j1, j2) = 0.

Lemma trim_first_sum n (codes : list opcode) :
  sum_list_with f (trim_first n codes) = sum_list_with f codes.
Proof.
  destruct codes as [|[[[[[] i1] i2] j1] j2] rest]; cbn [trim_first]; try reflexivity.
  cbn [sum_list_with]. now rewrite !f_equal_zero.
Qed.

Lemma trim_last_sum n (codes : list opcode) :
  sum_list_with f (trim_last n codes) = sum_list_with f codes.
Proof.
  induction codes as [|[[[[t i1] i2] j1] j2] rest IH]; [reflexivity|].
  destruct t, rest as [|c rest']; cbn [trim_last sum_list_with] in *;
    rewrite ?f_equal_zero; try reflexivity; now rewrite IH.
Qed.

Lemma group_loop_sum n (codes group : list opcode) :
  sum_list_with (sum_list_with f) (group_loop n codes group)
  = sum_list_with f group + sum_list_with f codes.
Proof.
  revert group. induction codes as [|[[[[t i1] i2] j1] j2] rest IH]; intros group.
  - cbn [group_loop sum_list_with].
    destruct group as [|[[[[[] g1] g2] g3] g4] [|c group']];
      cbn [sum_list_with]; rewrite ?f_equal_zero; lia.
  - cbn [group_loop].
    destruct (tag_is_equal t && (n + n <? i2 - i1)) eqn:Hsplit.
    + apply andb_true_iff in Hsplit as [Ht _]. destruct t; try discriminate.
      cbn [sum_list_with]. rewrite IH, sum_list_with_app.
      cbn [sum_list_with]. rewrite !f_equal_zero. lia.
    + rewrite IH, sum_list_with_app. cbn [sum_list_with]. lia.
Qed.
End Grouping.

Lemma grouped_opcodes_sum (f : opcode -> nat) a b n :
  (forall i1 i2 j1 j2, f (Equal, i1, i2, j1, j2) = 0) ->
  sum_list_with (sum_list_with f) (get_grouped_opcodes a b n)
  = sum_list_with f (get_opcodes a b).
Proof.
  intros Hf. unfold get_grouped_opcodes.
  rewrite group_loop_sum, trim_last_sum, trim_first_sum by exact Hf.
  destruct (get_opcodes a b); cbn [sum_list_with]; rewrite ?Hf; lia.
Qed.

(** The opcodes account for every line of both sequences. *)
Lemma opcodes_account a b :
  exists matched,
    sum_list_with (op_deleted a) (get_opcodes a b) + matched = length a
    /\ sum_list_with (op_added b) (get_opcodes a b) + matched = length b.
Proof.
  destruct (matching_blocks_chain a b) as [Hm Hend].
  destruct (opcodes_balance a b (get_matching_blocks a b) 0 0 Hm) as [Hda Hdb].
  { rewrite Hend. cbn. lia. }
  { rewrite Hend. cbn. lia. }
  rewrite Hend in Hda, Hdb. cbn [fst snd] in Hda, Hdb.
  exists (sum_list_with snd (get_matching_blocks a b)).
  unfold get_opcodes. lia.
Qed.
End OpcodeCounts.

(** ** Counting the lines of the unified diff *)

Lemma count_lines_acc (diff : list pystr) (x y : nat) :
  count_lines diff x y
  = (x + fst (count_lines diff 0 0), y + snd (count_lines diff 0 0)).
Proof.
  revert x y. induction diff as [|line rest IH]; intros x y; cbn [count_lines].
  - cbn. f_equal; lia.
  - repeat match goal with |- context [if ?c then _ else _] => destruct c end;
      rewrite IH; [rewrite (IH (0 + 1) 0) | rewrite (IH 0 (0 + 1)) | reflexivity];
      cbn [fst snd]; f_equal; lia.
Qed.

Lemma count_lines_app (l1 l2 : list pystr) (x y : nat) :
  count_lines (l1 ++ l2) x y
  = count_lines l2 (fst (count_lines l1 x y)) (snd (count_lines l1 x y)).
Proof.
  revert x y. induction l1 as [|line rest IH]; intros x y; cbn [app count_lines].
  - reflexivity.
  - repeat match goal with |- context [if ?c then _ else _] => destruct c end;
      apply IH.
Qed.

Lemma count_removed_lines (ls : list pystr) (x y : nat) :
  Forall (fun line => plain_line line = true) ls ->
  count_lines (map (fun line => lit "-" ++ line) ls) x y = (x, y + length ls).
Proof.
  revert y. induction ls as [|line ls IH]; intros y Hplain; cbn [map length].
  - cbn. f_equal. lia.
  - inversion Hplain as [|? ? Hline Hrest]; subst.
    unfold plain_line in Hline. apply andb_true_iff in Hline as [_ Hmm].
    apply negb_true_iff in Hmm.
    change (lit "-" ++ line) with (45%N :: line).
    cbn [count_lines].
    change (startswith (45%N :: line) (lit "+")) with false.
    change (startswith (45%N :: line) (lit "-")) with true.
    change (startswith (45%N :: line) (lit "---"))
      with (startswith line (lit "--")).
    rewrite Hmm. cbn [andb negb]. rewrite IH by assumption. f_equal. lia.
Qed.

Lemma count_inserted_lines (ls : list pystr) (x y : nat) :
  Forall (fun line => plain_line line = true) ls ->
  count_lines (map (fun line => lit "+" ++ line) ls) x y = (x + length ls, y).
Proof.
  revert x. induction ls as [|line ls IH]; intros x Hplain; cbn [map length].
  - cbn. f_equal. lia.
  - inversion Hplain as [|? ? Hline Hrest]; subst.
    unfold plain_line in Hline. apply andb_true_iff in Hline as [Hpp _].
    apply negb_true_iff in Hpp.
    change (lit "+" ++ line) with (43%N :: line).
    cbn [count_lines].
    change (startswith (43%N :: line) (lit "+")) with true.
    change (startswith (43%N :: line) (lit "+++"))
      with (startswith line (lit "++")).
    rewrite Hpp. cbn [andb negb]. rewrite IH by assumption. f_equal. lia.
Qed.

Lemma count_context_lines (ls : list pystr) (x y : nat) :
  count_lines (map (fun line => lit " " ++ line) ls) x y = (x, y).
Proof.
  induction ls as [|line ls IH]; cbn [map]; [reflexivity|].
  change (lit " " ++ line) with (32%N :: line).
  cbn [count_lines].
  change (startswith (32%N :: line) (lit "+")) with false.
  change (startswith (32%N :: line) (lit "-")) with false.
  cbn [andb]. exact IH.
Qed.

Section DiffCounts.
Variables a b : list pystr.
Hypothesis a_plain : Forall (fun line => plain_line line = true) a.
Hypothesis b_plain : Forall (fun line => plain_line line = true) b.

Lemma slice_plain (l : list pystr) (i1 i2 : nat) :
  Forall (fun line => plain_line line = true) l ->
  Forall (fun line => plain_line line = true) (slice l i1 i2).
Proof. intros Hl. unfold slice. now apply Forall_take, Forall_drop. Qed.

Lemma count_opcode_lines (c : opcode) (x y : nat) :
  count_lines (opcode_lines a b c) x y = (x + op_added b c, y + op_deleted a c).
Proof.
  destruct c as [[[[t i1] i2] j1] j2]. unfold opcode_lines, op_added, op_deleted.
  destruct t.
  - rewrite count_lines_app, count_removed_lines by now apply slice_plain.
    cbn [fst snd]. now rewrite count_inserted_lines by now apply slice_plain.
  - rewrite count_removed_lines by now apply slice_plain. f_equal. lia.
  - rewrite count_inserted_lines by now apply slice_plain. f_equal. lia.
  - rewrite count_context_lines. f_equal; lia.
Qed.

Lemma count_group_lines (group : list opcode) (x y : nat) :
  count_lines (concat (map (opcode_lines a b) group)) x y
  = (x + sum_list_with (op_added b) group, y + sum_list_with (op_deleted a) group).
Proof.
  revert x y. induction group as [|c group IH]; intros x y;
    cbn [map concat sum_list_with].
  - cbn. f_equal; lia.
  - rewrite count_lines_app, count_opcode_lines. cbn [fst snd].
    rewrite IH. f_equal; lia.
Qed.

Lemma count_hunk (group : list opcode) (x y : nat) :
  count_lines (hunk a b group) x y
  = (x + sum_list_with (op_added b) group, y + sum_list_with (op_deleted a) group).
Proof.
  unfold hunk. destruct group as [|[[[[t f1] f2] f3] f4] rest].
  - cbn. f_equal; lia.
  - cbv beta iota.
    match goal with |- context [match ?l with Some _ => _ | None => _ end] =>
      destruct l as [[[[[lt l1] l2] l3] l4]|] eqn:Hlast
    end.
    + cbn [count_lines].
      match goal with |- context [startswith ?h (lit "+")] =>
        change (startswith h (lit "+")) with false;
        change (startswith h (lit "-")) with false
      end.
      cbn [andb]. apply count_group_lines.
    + apply last_None in Hlast. discriminate.
Qed.

Lemma count_hunks (groups : list (list opcode)) (x y : nat) :
  count_lines (concat (map (hunk a b) groups)) x y
  = (x + sum_list_with (sum_list_with (op_added b)) groups,
     y + sum_list_with (sum_list_with (op_deleted a)) groups).
Proof.
  revert x y. induction groups as [|g groups IH]; intros x y;
    cbn [map concat sum_list_with].
  - cbn. f_equal; lia.
  - rewrite count_lines_app, count_hunk. cbn [fst snd].
    rewrite IH. f_equal; lia.
Qed.

(** The loop of [_compute_diff] counts the inserted and removed lines
    of the opcodes. *)
Lemma count_unified_diff :
  count_lines (unified_diff a b) 0 0
  = (sum_list_with (op_added b) (get_opcodes a b),
     sum_list_with (op_deleted a) (get_opcodes a b)).
Proof.
  rewrite <- (grouped_opcodes_sum (op_added b) a b 3) by reflexivity.
  rewrite <- (grouped_opcodes_sum (op_deleted a) a b 3) by reflexivity.
  unfold unified_diff.
  destruct (get_grouped_opcodes a b 3) as [|g groups]; [reflexivity|].
  cbn [count_lines].
  change (startswith (lit "--- ") (lit "+")) with false.
  change (startswith (lit "--- ") (lit "-")) with true.
  change (startswith (lit "--- ") (lit "---")) with true.
  change (startswith (lit "+++ ") (lit "+")) with true.
  change (startswith (lit "+++ ") (lit "+++")) with true.
  cbn [andb negb]. apply count_hunks.
Qed.
End DiffCounts.

(** ** The net change of a diff *)

Lemma plain_lines_forall (s : pystr) :
  plain_lines s -> Forall (fun line => plain_line line = true) (splitlines s).
Proof.
  unfold plain_lines. intros Hs. apply Forall_forall. intros line Hin.
  apply (proj1 (forallb_forall _ _) Hs). now apply list_elem_of_In.
Qed.

(** For plain texts, the lines [_compute_diff] reports as added and as
    deleted differ by the difference in length of the two texts. *)
Lemma compute_diff_balance (old_content new_content : pystr) :
  plain_lines old_content -> plain_lines new_content ->
  fst (_compute_diff old_content new_content) + length (splitlines old_content)
  = snd (_compute_diff old_content new_content) + length (splitlines new_content).
Proof.
  intros Hold Hnew. unfold _compute_diff.
  rewrite count_unified_diff by now apply plain_lines_forall.
  cbn [fst snd].
  destruct (opcodes_account (splitlines old_content) (splitlines new_content))
    as (matched & Hdel & Hadd).
  lia.
Qed.

(** C3 (what the code does): for texts none of whose lines begins with
    two plus or two minus signs, the net change of [diff(A, B)], lines
    added minus lines deleted, is the number of lines of [B] minus that
    of [A]; so the net change of [diff(B, A)] is its opposite:
    [added(A,B) + added(B,A) = deleted(A,B) + deleted(B,A)]. *)
Theorem diff_net_change_antisymmetric (A B : pystr) :
  plain_lines A -> plain_lines B ->
  fst (_compute_diff A B) + length (splitlines A)
  = snd (_compute_diff A B) + length (splitlines B)
  /\ fst (_compute_diff A B) + fst (_compute_diff B A)
     = snd (_compute_diff A B) + snd (_compute_diff B A).
Proof.
  intros HA HB.
  pose proof (compute_diff_balance A B HA HB) as H1.
  pose proof (compute_diff_balance B A HB HA) as H2.
  split; [exact H1 | lia].
Qed.

Lemma diff_net_change_antisymmetric_witness :
  fst (_compute_diff (py "t\ni\nd\ne\n") (py "a\nt\ni\n"))
  + length (splitlines (py "t\ni\nd\ne\n"))
  = snd (_compute_diff (py "t\ni\nd\ne\n") (py "a\nt\ni\n"))
    + length (splitlines (py "a\nt\ni\n"))
  /\ fst (_compute_diff (py "t\ni\nd\ne\n") (py "a\nt\ni\n"))
     + fst (_compute_diff (py "a\nt\ni\n") (py "t\ni\nd\ne\n"))
     = snd (_compute_diff (py "t\ni\nd\ne\n") (py "a\nt\ni\n"))
       + snd (_compute_diff (py "a\nt\ni\n") (py "t\ni\nd\ne\n")).
Proof.
  apply (diff_net_change_antisymmetric (py "t\ni\nd\ne\n") (py "a\nt\ni\n"));
    vm_compute; reflexivity.
Defined.

(** * Further properties of the diff *)

(** ** Bounds on the counts, for any texts *)

Lemma counted_nil : counted [] = (0, 0).
Proof. reflexivity. Qed.

Lemma counted_app (l1 l2 : list pystr) :
  counted (l1 ++ l2)
  = (fst (counted l1) + fst (counted l2), snd (counted l1) + snd (counted l2)).
Proof.
  unfold counted. rewrite count_lines_app.
  rewrite (count_lines_acc l2). rewrite (count_lines_acc l1 0 0).
  cbn [fst snd]. f_equal; lia.
Qed.

Lemma counted_removed_le (ls : list pystr) :
  fst (counted (map (fun line => lit "-" ++ line) ls)) = 0
  /\ snd (counted (map (fun line => lit "-" ++ line) ls)) <= length ls.
Proof.
  induction ls as [|line ls IH]; [cbn; lia|].
  cbn [map length].
  change ((lit "-" ++ line) :: map (fun line => lit "-" ++ line) ls)
    with ([45%N :: line] ++ map (fun line => lit "-" ++ line) ls).
  rewrite counted_app. cbn [fst snd].
  assert (Hone : fst (counted [45%N :: line]) = 0
                 /\ snd (counted [45%N :: line]) <= 1).
  { unfold counted. cbn [count_lines].
    change (startswith (45%N :: line) (lit "+")) with false.
    change (startswith (45%N :: line) (lit "-")) with true.
    cbn [andb]. destruct (negb (startswith (45%N :: line) (lit "---")));
      cbn; lia. }
  lia.
Qed.

Lemma counted_inserted_le (ls : list pystr) :
  fst (counted (map (fun line => lit "+" ++ line) ls)) <= length ls
  /\ snd (counted (map (fun line => lit "+" ++ line) ls)) = 0.
Proof.
  induction ls as [|line ls IH]; [cbn; lia|].
  cbn [map length].
  change ((lit "+" ++ line) :: map (fun line => lit "+" ++ line) ls)
    with ([43%N :: line] ++ map (fun line => lit "+" ++ line) ls).
  rewrite counted_app. cbn [fst snd].
  assert (Hone : fst (counted [43%N :: line]) <= 1
                 /\ snd (counted [43%N :: line]) = 0).
  { unfold counted. cbn [count_lines].
    change (startswith (43%N :: line) (lit "+")) with true.
    change (startswith (43%N :: line) (lit "-")) with false.
    cbn [andb]. destruct (negb (startswith (43%N :: line) (lit "+++")));
      cbn; lia. }
  lia.
Qed.

Lemma counted_context (ls : list pystr) :
  counted (map (fun line => lit " " ++ line) ls) = (0, 0).
Proof. unfold counted. apply count_context_lines. Qed.

Section CountBounds.
Variables a b : list pystr.

Lemma counted_opcode_le (c : opcode) :
  fst (counted (opcode_lines a b c)) <= op_added b c
  /\ snd (counted (opcode_lines a b c)) <= op_deleted a c.
Proof.
  destruct c as [[[[t i1] i2] j1] j2]. unfold opcode_lines, op_added, op_deleted.
  pose proof (counted_removed_le (slice a i1 i2)) as [Hr1 Hr2].
  pose proof (counted_inserted_le (slice b j1 j2)) as [Hi1 Hi2].
  destruct t; rewrite ?counted_app, ?counted_context; cbn [fst snd]; lia.
Qed.

Lemma counted_group_le (group : list opcode) :
  fst (counted (concat (map (opcode_lines a b) group)))
    <= sum_list_with (op_added b) group
  /\ snd (counted (concat (map (opcode_lines a b) group)))
       <= sum_list_with (op_deleted a) group.
Proof.
  induction group as [|c group IH]; cbn [map concat sum_list_with];
    [cbn; lia|].
  rewrite counted_app. cbn [fst snd].
  pose proof (counted_opcode_le c). lia.
Qed.

Lemma counted_hunk_le (group : list opcode) :
  fst (counted (hunk a b group)) <= sum_list_with (op_added b) group
  /\ snd (counted (hunk a b group)) <= sum_list_with (op_deleted a) group.
Proof.
  unfold hunk. destruct group as [|[[[[t f1] f2] f3] f4] rest]; [cbn; lia|].
  cbv beta iota.
  match goal with |- context [match ?l with Some _ => _ | None => _ end] =>
    destruct l as [[[[[lt l1] l2] l3] l4]|] eqn:Hlast
  end; [|cbn; lia].
  match goal with |- context [counted (?h :: ?body)] =>
    change (counted (h :: body)) with (counted body)
  end.
  apply counted_group_le.
Qed.

Lemma counted_hunks_le (groups : list (list opcode)) :
  fst (counted (concat (map (hunk a b) groups)))
    <= sum_list_with (sum_list_with (op_added b)) groups
  /\ snd (counted (concat (map (hunk a b) groups)))
       <= sum_list_with (sum_list_with (op_deleted a)) groups.
Proof.
  induction groups as [|g groups IH]; cbn [map concat sum_list_with];
    [cbn; lia|].
  rewrite counted_app. cbn [fst snd].
  pose proof (counted_hunk_le g). lia.
Qed.

(** Whatever the lines look like, the loop of [_compute_diff] counts
    no more than the opcodes insert and remove. *)
Lemma counted_unified_diff_le :
  fst (counted (unified_diff a b)) <= sum_list_with (op_added b) (get_opcodes a b)
  /\ snd (counted (unified_diff a b))
       <= sum_list_with (op_deleted a) (get_opcodes a b).
Proof.
  rewrite <- (grouped_opcodes_sum (op_added b) a b 3) by reflexivity.
  rewrite <- (grouped_opcodes_sum (op_deleted a) a b 3) by reflexivity.
  unfold unified_diff.
  destruct (get_grouped_opcodes a b 3) as [|g groups]; [cbn; lia|].
  match goal with |- context [counted (?h1 :: ?h2 :: ?body)] =>
    change (counted (h1 :: h2 :: body)) with (counted body)
  end.
  apply counted_hunks_le.
Qed.
End CountBounds.

(** X1: whatever the two texts are, [_compute_diff] reports no more
    added lines than the new text has lines, and no more deleted lines
    than the old text has. *)
Theorem compute_diff_bounded (old_content new_content : pystr) :
  fst (_compute_diff old_content new_content) <= length (splitlines new_content)
  /\ snd (_compute_diff old_content new_content) <= length (splitlines old_content).
Proof.
  unfold _compute_diff.
  pose proof (counted_unified_diff_le (splitlines old_content)
                (splitlines new_content)) as [Ha Hd].
  destruct (opcodes_account (splitlines old_content) (splitlines new_content))
    as (matched & Hdel & Hadd).
  unfold counted in *. lia.
Qed.

(** ** A sequence compared with itself *)

Section SameSequence.
Context {A : Type} `{EqDecision A}.
Implicit Types (a b : list A).

Lemma indices_from_spec b x s j :
  j ∈ indices_from s b x <-> s <= j /\ b !! (j - s) = Some x.
Proof.
  revert s. induction b as [|y b IH]; intros s; cbn [indices_from].
  - rewrite elem_of_nil, lookup_nil. split; [tauto | intros [_ ?]; discriminate].
  - destruct (decide (x = y)) as [->|Hne].
    + rewrite elem_of_cons, IH. split.
      * intros [->|[Hs Hj]].
        -- split; [lia|]. now rewrite Nat.sub_diag.
        -- split; [lia|]. replace (j - s) with (S (j - S s)) by lia. exact Hj.
      * intros [Hs Hj]. destruct (decide (j = s)) as [->|Hjs]; [now left|].
        right. split; [lia|].
        replace (j - s) with (S (j - S s)) in Hj by lia. exact Hj.
    + rewrite IH. split.
      * intros [Hs Hj]. split; [lia|].
        replace (j - s) with (S (j - S s)) by lia. exact Hj.
      * intros [Hs Hj]. destruct (decide (j = s)) as [->|Hjs].
        -- rewrite Nat.sub_diag in Hj. cbn in Hj. congruence.
        -- split; [lia|].
           replace (j - s) with (S (j - S s)) in Hj by lia. exact Hj.
Qed.

Lemma indices_from_sorted b x s : StronglySorted lt (indices_from s b x).
Proof.
  revert s. induction b as [|y b IH]; intros s; cbn [indices_from];
    [constructor|].
  destruct (decide (x = y)); [|apply IH].
  constructor; [apply IH|].
  apply Forall_forall. intros j Hj. apply indices_from_spec in Hj. lia.
Qed.

Lemma b2j_get_spec b x j :
  j ∈ b2j_get b x <-> popular b x = false /\ b !! j = Some x.
Proof.
  unfold b2j_get. destruct (popular b x).
  - rewrite elem_of_nil. split; [tauto | intros [? _]; discriminate].
  - rewrite indices_from_spec, Nat.sub_0_r. split; [tauto|]. intros [_ ?].
    split; [lia | assumption].
Qed.

Lemma b2j_get_sorted b x : StronglySorted lt (b2j_get b x).
Proof.
  unfold b2j_get. destruct (popular b x); [constructor|].
  apply indices_from_sorted.
Qed.

Lemma run_upto_kept a lo i x :
  lo <= i -> a !! i = Some x -> popular a x = false ->
  run_upto a lo (S i) = S (run_upto a lo i).
Proof.
  intros Hlo Hi Hpop. cbn [run_upto]. unfold kept. rewrite Hi, Hpop.
  now rewrite (proj2 (Nat.leb_le lo i) Hlo).
Qed.

(** One row of the scan, for an [a[i]] = [x] that [b2j] keeps. *)
Lemma scan_js_diag a lo hi i x prev js new bi bs :
  lo <= i -> i < hi ->
  a !! i = Some x -> popular a x = false ->
  StronglySorted lt js -> Forall (fun j => a !! j = Some x) js ->
  diag_row a lo i prev ->
  (forall j k, new !! j = Some k ->
               k <= run_upto a lo (S i) /\ k <= run_upto a lo (S j)) ->
  (i ∈ js \/ (new !! i = Some (run_upto a lo (S i)) /\ run_upto a lo (S i) <= bs)) ->
  diag_best a lo i (bi, bi, bs) ->
  let '(m, best') := scan_js prev i lo hi js new (bi, bi, bs) in
  diag_row a lo (S i) m /\ diag_best a lo (S i) best'.
Proof.
  intros Hlo Hhi Hx Hpop Hsorted Hjs [Hprev Hpdiag].
  revert new bi bs Hsorted Hjs.
  induction js as [|j js IH]; intros new bi bs Hsorted Hjs Hnew Hdone Hbest;
    cbn [scan_js].
  - destruct Hdone as [Hin|[Hdi Hdb]]; [now apply elem_of_nil in Hin|].
    destruct Hbest as (_ & Hzero & Hruns).
    split; [split|].
    + exact Hnew.
    + intros i' [= <-] _. exact Hdi.
    + repeat split; [exact Hzero|].
      intros t Ht1 Ht2. destruct (decide (t = i)) as [->|]; [exact Hdb|].
      apply Hruns; lia.
  - apply StronglySorted_inv in Hsorted as [Hsorted Hlt].
    inversion Hjs as [|? ? Hj Hjs']; subst.
    rewrite Forall_forall in Hlt.
    assert (Hnotin : i < j -> i ∉ j :: js).
    { intros Hij Hin. apply elem_of_cons in Hin as [->|Hin]; [lia|].
      apply Hlt in Hin. lia. }
    destruct (j <? lo) eqn:Hjlo.
    { apply Nat.ltb_lt in Hjlo. apply IH; try assumption.
      destruct Hdone as [Hin|Hd]; [|now right].
      apply elem_of_cons in Hin as [->|Hin]; [lia | now left]. }
    apply Nat.ltb_ge in Hjlo.
    destruct (hi <=? j) eqn:Hjhi.
    { apply Nat.leb_le in Hjhi.
      destruct Hdone as [Hin|[Hdi Hdb]]; [exfalso; apply Hnotin; [lia | exact Hin]|].
      destruct Hbest as (_ & Hzero & Hruns).
      split; [split|].
      - exact Hnew.
      - intros i' [= <-] _. exact Hdi.
      - repeat split; [exact Hzero|].
        intros t Ht1 Ht2. destruct (decide (t = i)) as [->|]; [exact Hdb|].
        apply Hruns; lia. }
    apply Nat.leb_gt in Hjhi.
    set (k := match j with O => 0 | S j' => default 0 (prev !! j') end + 1).
    pose proof (run_upto_kept a lo i x Hlo Hx Hpop) as Hri.
    pose proof (run_upto_kept a lo j x Hjlo Hj Hpop) as Hrj.
    assert (Hk : k <= run_upto a lo (S i) /\ k <= run_upto a lo (S j)
                 /\ (j = i -> k = run_upto a lo (S i))).
    { subst k. destruct j as [|j'].
      - split; [lia|]. split; [lia|]. intros Hji. subst i. rewrite Hri. cbn. lia.
      - destruct (prev !! j') as [k'|] eqn:Hj'; cbn [from_option id].
        + destruct (Hprev _ _ Hj') as [Hk1 Hk2].
          split; [lia|]. split; [lia|]. intros Hji. subst i.
          destruct (Nat.eq_dec (run_upto a lo (S j')) 0) as [Hz|Hnz]; [lia|].
          rewrite (Hpdiag j' eq_refl) in Hj' by lia.
          assert (Hk' : run_upto a lo (S j') = k') by congruence. lia.
        + split; [lia|]. split; [lia|]. intros Hji. subst i.
          destruct (Nat.eq_dec (run_upto a lo (S j')) 0) as [Hz|Hnz]; [lia|].
          rewrite (Hpdiag j' eq_refl) in Hj' by lia. discriminate. }
    destruct Hk as (Hk1 & Hk2 & Hk3).
    destruct Hbest as (_ & Hzero & Hruns).
    assert (Hnew' : forall j0 k0, <[j:=k]> new !! j0 = Some k0 ->
                      k0 <= run_upto a lo (S i) /\ k0 <= run_upto a lo (S j0)).
    { intros j0 k0. rewrite lookup_insert. case_decide as Hj0.
      - intros [= <-]. subst j0. lia.
      - apply Hnew. }
    destruct (bs <? k) eqn:Hupd.
    + apply Nat.ltb_lt in Hupd.
      assert (Hji : j = i).
      { destruct (Nat.lt_trichotomy j i) as [Hlt'|[Heq|Hgt]]; [|exact Heq|].
        - specialize (Hruns j Hjlo Hlt'). lia.
        - destruct Hdone as [Hin|[_ Hdb]]; [exfalso; now apply (Hnotin Hgt)|]. lia. }
      subst j. replace (i + 1 - k) with (i + 1 - k) by reflexivity.
      apply IH; try assumption.
      * right. rewrite lookup_insert_eq. split; [f_equal; now apply Hk3 | lia].
      * repeat split; [lia|].
        intros t Ht1 Ht2. specialize (Hruns t Ht1 Ht2). lia.
    + apply Nat.ltb_ge in Hupd.
      apply IH; try assumption.
      * destruct (decide (j = i)) as [->|Hne].
        -- right. rewrite lookup_insert_eq. split; [f_equal; now apply Hk3|].
           rewrite <- (Hk3 eq_refl). exact Hupd.
        -- destruct Hdone as [Hin|[Hdi Hdb]].
           ++ apply elem_of_cons in Hin as [->|Hin]; [congruence | now left].
           ++ right. rewrite lookup_insert_ne by exact Hne. now split.
      * repeat split; assumption.
Qed.

Lemma scan_is_diag a lo hi n r j2len best :
  lo <= r -> r + n <= hi -> hi <= length a ->
  diag_row a lo r j2len -> diag_best a lo r best ->
  diag_best a lo (r + n) (scan_is a a lo hi (seq r n) j2len best).
Proof.
  revert r j2len best.
  induction n as [|n IH]; intros r j2len best Hlo Hhi Hlen Hrow Hbest;
    cbn [seq scan_is].
  - now rewrite Nat.add_0_r.
  - replace (r + S n) with (S r + n) by lia.
    destruct (lookup_lt_is_Some_2 a r ltac:(lia)) as [x Hx]. rewrite Hx.
    destruct best as [[bi bj] bs].
    assert (Hbij : bi = bj) by (destruct Hbest; assumption). subst bj.
    destruct (popular a x) eqn:Hpop.
    + unfold b2j_get. rewrite Hpop. cbn [scan_js].
      assert (Hrun : run_upto a lo (S r) = 0).
      { cbn [run_upto]. unfold kept. rewrite Hx, Hpop.
        now rewrite andb_false_r. }
      apply IH; try lia.
      * split; [intros j k; rewrite lookup_empty; discriminate|].
        intros i _ Hpos. lia.
      * destruct Hbest as (_ & Hzero & Hruns). repeat split; [exact Hzero|].
        intros t Ht1 Ht2. destruct (decide (t = r)) as [->|]; [lia|].
        apply Hruns; lia.
    + pose proof (scan_js_diag a lo hi r x j2len (b2j_get a x) ∅ bi bs) as Hjs.
      destruct (scan_js j2len r lo hi (b2j_get a x) ∅ (bi, bi, bs)) as [m best'].
      destruct Hjs as [Hm Hbest']; try assumption; try lia.
      * apply b2j_get_sorted.
      * apply Forall_forall. intros j Hj. now apply b2j_get_spec in Hj.
      * intros j k. rewrite lookup_empty. discriminate.
      * left. now apply b2j_get_spec.
      * apply IH; try lia; assumption.
Qed.

Lemma same_at_diag a i : i < length a -> same_at a a i i = true.
Proof.
  intros Hi. unfold same_at.
  destruct (lookup_lt_is_Some_2 a i Hi) as [x ->].
  now apply bool_decide_eq_true_2.
Qed.

Lemma extend_back_diag a lo bi bs :
  exists i k, extend_back a a lo lo bi bi bs = (i, i, k)
              /\ bs <= k /\ (k = bs -> i = bi).
Proof.
  revert bs. induction bi as [|i' IH]; intros bs; cbn [extend_back].
  - exists 0, bs. auto.
  - match goal with |- context [if ?c then _ else _] => destruct c end.
    + destruct (IH (S bs)) as (i & k & Heq & Hk & _).
      exists i, k. split; [exact Heq|]. split; lia.
    + exists (S i'), bs. auto.
Qed.

Lemma extend_forward_diag a hi n bi bs :
  exists k, extend_forward a a hi hi n bi bi bs = (bi, bi, k)
            /\ bs <= k
            /\ (0 < n -> bi + bs < hi -> hi <= length a -> bs < k).
Proof.
  revert bs. induction n as [|n IH]; intros bs; cbn [extend_forward].
  - exists bs. repeat split; lia.
  - destruct ((bi + bs <? hi) && (bi + bs <? hi)
              && same_at a a (bi + bs) (bi + bs)) eqn:Hc.
    + destruct (IH (S bs)) as (k & Heq & Hk & _).
      exists k. split; [exact Heq|]. split; lia.
    + exists bs. split; [reflexivity|]. split; [lia|].
      intros _ Hlt Hlen. exfalso.
      rewrite same_at_diag in Hc by lia.
      rewrite (proj2 (Nat.ltb_lt _ _) Hlt) in Hc. discriminate.
Qed.

(** Comparing [a] with itself over a window on the diagonal, the
    longest match lies on the diagonal, and is not empty unless the
    window is. *)
Lemma find_longest_match_diag a lo hi :
  lo < hi -> hi <= length a ->
  exists i k, find_longest_match a a lo hi lo hi = (i, i, k) /\ 0 < k.
Proof.
  intros Hlo Hhi. unfold find_longest_match.
  pose proof (scan_is_diag a lo hi (hi - lo) lo ∅ (lo, lo, 0)) as Hscan.
  destruct (scan_is a a lo hi (seq lo (hi - lo)) ∅ (lo, lo, 0))
    as [[bi bj] bs].
  destruct Hscan as (Hbij & Hzero & _); try lia.
  { split; [intros j k; rewrite lookup_empty; discriminate|].
    intros i Hi. subst lo. cbn [run_upto].
    rewrite (proj2 (Nat.leb_gt (S i) i)) by lia. cbn. lia. }
  { repeat split. intros t Ht1 Ht2. lia. }
  subst bj.
  destruct (extend_back_diag a lo bi bs) as (i & k & -> & Hk & Hsame).
  destruct (extend_forward_diag a hi (hi - (i + k)) i k) as (k' & -> & Hk' & Hgrow).
  exists i, k'. split; [reflexivity|].
  destruct (Nat.eq_dec k 0) as [Hk0|]; [|lia].
  assert (i = lo) by (rewrite Hsame by lia; apply Hzero; lia).
  subst. apply Hgrow; lia.
Qed.
End SameSequence.

(** ** The blocks of a sequence against itself cover it *)

Section SameSequenceBlocks.
Context {A : Type} `{EqDecision A}.
Implicit Types (a : list A).

Lemma blocks_loop_cover a fuel queue acc res :
  Forall (diag_window (length a)) queue ->
  blocks_loop a a fuel queue acc = Some res ->
  sum_list_with snd res = sum_list_with snd acc + sum_list_with width queue.
Proof.
  revert queue acc.
  induction fuel as [|fuel IH]; intros queue acc Hq Hres.
  - destruct queue as [|[[[alo ahi] blo] bhi] queue']; [|discriminate].
    cbn in Hres. injection Hres as <-. cbn. lia.
  - destruct queue as [|[[[alo ahi] blo] bhi] queue'].
    { cbn in Hres. injection Hres as <-. cbn. lia. }
    rewrite blocks_loop_step in Hres.
    inversion Hq as [|? ? Hw Hq']; subst.
    destruct Hw as (<- & <- & Hle & Hn).
    pose proof (find_longest_match_within a a alo ahi alo ahi Hle Hle) as Hin.
    cbn [sum_list_with width].
    destruct (Nat.eq_dec alo ahi) as [->|Hne].
    + destruct (find_longest_match a a ahi ahi ahi ahi) as [[i j] k].
      unfold within in Hin. assert (k = 0) by lia. subst k.
      cbn [Nat.eqb] in Hres. rewrite (IH _ _ Hq' Hres). lia.
    + destruct (find_longest_match_diag a alo ahi ltac:(lia) Hn)
        as (i & k & Heq & Hk).
      rewrite Heq in Hres, Hin. unfold within in Hin.
      rewrite (proj2 (Nat.eqb_neq k 0)) in Hres by lia.
      apply IH in Hres.
      * rewrite Hres, sum_list_with_app. cbn [sum_list_with snd].
        unfold pushed.
        destruct (alo <? i) eqn:H1; destruct (i + k <? ahi) eqn:H2;
          cbn [andb sum_list_with width];
          try apply Nat.ltb_lt in H1; try apply Nat.ltb_ge in H1;
          try apply Nat.ltb_lt in H2; try apply Nat.ltb_ge in H2; lia.
      * unfold pushed.
        destruct (alo <? i) eqn:H1; destruct (i + k <? ahi) eqn:H2;
          cbn [andb];
          try apply Nat.ltb_lt in H1; try apply Nat.ltb_lt in H2;
          repeat constructor; try assumption; lia.
Qed.

Lemma collapse_sum (rest : list Match) (cur : Match) :
  sum_list_with snd (collapse cur rest) = snd cur + sum_list_with snd rest.
Proof.
  revert cur. induction rest as [|[[i2 j2] k2] rest IH]; intros [[i1 j1] k1];
    cbn [collapse sum_list_with snd].
  - destruct (k1 =? 0) eqn:Hk; cbn [sum_list_with snd];
      [apply Nat.eqb_eq in Hk|]; lia.
  - destruct ((i1 + k1 =? i2) && (j1 + k1 =? j2)).
    + rewrite IH. cbn [snd]. lia.
    + rewrite sum_list_with_app, IH. cbn [snd].
      destruct (k1 =? 0) eqn:Hk; cbn [sum_list_with snd];
        [apply Nat.eqb_eq in Hk|]; lia.
Qed.

(** Every line of a sequence is matched when it is compared with
    itself. *)
Lemma matching_blocks_same a :
  sum_list_with snd (get_matching_blocks a a) = length a.
Proof.
  unfold get_matching_blocks.
  destruct (get_matching_blocks_total a a) as [found Hfound].
  rewrite Hfound. cbn [default from_option id].
  apply blocks_loop_cover in Hfound.
  2:{ repeat constructor; lia. }
  rewrite sum_list_with_app, collapse_sum.
  rewrite (sum_list_with_Permutation_proper snd _ _ (merge_sort_Permutation match_le found)).
  rewrite Hfound. cbn [sum_list_with snd width]. lia.
Qed.

Lemma opcodes_same a :
  sum_list_with (op_added a) (get_opcodes a a) = 0
  /\ sum_list_with (op_deleted a) (get_opcodes a a) = 0.
Proof.
  destruct (matching_blocks_chain a a) as [Hm Hend].
  destruct (opcodes_balance a a (get_matching_blocks a a) 0 0 Hm) as [Hda Hdb].
  { rewrite Hend. cbn. lia. }
  { rewrite Hend. cbn. lia. }
  rewrite Hend, matching_blocks_same in Hda, Hdb. cbn [fst snd] in Hda, Hdb.
  unfold get_opcodes. lia.
Qed.
End SameSequenceBlocks.

(** ** Texts and their lines *)

Lemma splitlines_from_concat (n : nat) (s cur : pystr) :
  length s <= n ->
  concat (splitlines_from cur s) = (rev cur ++ s)%list
  /\ Forall (fun line => line <> []) (splitlines_from cur s).
Proof.
  revert s cur. induction n as [|n IH]; intros [|c rest] cur Hlen;
    cbn [length] in Hlen; try lia.
  - cbn [splitlines_from]. destruct cur as [|x cur].
    + split; [reflexivity|constructor].
    + split; [cbn [concat]; now rewrite !app_nil_r|].
      repeat constructor. cbn [rev]. now destruct (rev cur).
  - cbn [splitlines_from]. destruct cur as [|x cur].
    + split; [reflexivity|constructor].
    + split; [cbn [concat]; now rewrite !app_nil_r|].
      repeat constructor. cbn [rev]. now destruct (rev cur).
  - assert (Hne : forall l : pystr, rev (c :: l) <> []).
    { intros l. cbn [rev]. now destruct (rev l). }
    cbn [splitlines_from].
    destruct (N.eqb c 13).
    + destruct rest as [|d rest'].
      * split; [cbn [concat rev]; now rewrite !app_nil_r|].
        repeat constructor. apply Hne.
      * destruct (N.eqb d 10).
        -- destruct (IH rest' [] ltac:(cbn [length] in Hlen; lia)) as [Hc Hf].
           split.
           ++ cbn [concat]. rewrite Hc. cbn [rev app].
              now rewrite <- !app_assoc.
           ++ constructor; [|exact Hf]. cbn [rev]. now destruct (rev cur).
        -- destruct (IH (d :: rest') [] ltac:(lia)) as [Hc Hf].
           split.
           ++ cbn [concat]. rewrite Hc. cbn [rev app].
              now rewrite <- !app_assoc.
           ++ constructor; [apply Hne|exact Hf].
    + destruct (is_linebreak c).
      * destruct (IH rest [] ltac:(lia)) as [Hc Hf].
        split.
        -- cbn [concat]. rewrite Hc. cbn [rev app]. now rewrite <- !app_assoc.
        -- constructor; [apply Hne|exact Hf].
      * destruct (IH rest (c :: cur) ltac:(lia)) as [Hc Hf].
        split; [|exact Hf].
        rewrite Hc. cbn [rev]. now rewrite <- app_assoc.
Qed.

(** X4: [splitlines(keepends=True)], as [_compute_diff] calls it, loses
    nothing: the lines put together again are the text, and no line is
    empty. *)
Theorem splitlines_concat (s : pystr) :
  concat (splitlines s) = s /\ Forall (fun line => line <> []) (splitlines s).
Proof. apply (splitlines_from_concat (length s) s []). lia. Qed.

Lemma translate_newlines_no_cr (n : nat) (s : pystr) :
  length s <= n -> no_cr (translate_newlines s) = true.
Proof.
  revert s. induction n as [|n IH]; intros [|c rest] Hlen;
    cbn [length] in Hlen; try lia; try reflexivity.
  cbn [translate_newlines].
  destruct (N.eqb_spec c 13) as [->|Hc].
  - change (no_cr (10%N :: ?l)) with (no_cr l).
    destruct rest as [|d rest']; [reflexivity|].
    destruct (N.eqb d 10); apply IH; cbn [length] in *; lia.
  - unfold no_cr. cbn [forallb]. fold (no_cr (translate_newlines rest)).
    rewrite (proj2 (N.eqb_neq c 13) Hc), IH by lia. reflexivity.
Qed.

Lemma no_cr_cons (c : N) (s : pystr) :
  no_cr (c :: s) = true -> c <> 13%N /\ no_cr s = true.
Proof.
  unfold no_cr. cbn [forallb]. intros Hcs.
  apply andb_true_iff in Hcs as [Hc Hs]. split; [|exact Hs].
  apply negb_true_iff in Hc. now apply N.eqb_neq.
Qed.

(** A text without carriage return is read as it is. *)
Lemma translate_newlines_id (s : pystr) :
  no_cr s = true -> translate_newlines s = s.
Proof.
  induction s as [|c rest IH]; [reflexivity|]. intros Hcs.
  apply no_cr_cons in Hcs as [Hc Hrest]. cbn [translate_newlines].
  rewrite (proj2 (N.eqb_neq c 13) Hc). now rewrite IH.
Qed.

Lemma translate_newlines_crlf (s : pystr) :
  no_cr s = true -> translate_newlines (crlf_endings s) = s.
Proof.
  induction s as [|c rest IH]; [reflexivity|]. intros Hcs.
  apply no_cr_cons in Hcs as [Hc Hrest].
  unfold crlf_endings. cbn [flat_map]. fold (crlf_endings rest).
  destruct (N.eqb_spec c 10) as [->|Hlf].
  - cbn [app translate_newlines N.eqb Pos.eqb]. now rewrite IH.
  - cbn [app translate_newlines].
    rewrite (proj2 (N.eqb_neq c 13) Hc). now rewrite IH.
Qed.

Lemma translate_newlines_cr (s : pystr) :
  no_cr s = true -> translate_newlines (cr_endings s) = s.
Proof.
  induction s as [|c rest IH]; [reflexivity|]. intros Hcs.
  apply no_cr_cons in Hcs as [Hc Hrest].
  unfold cr_endings. cbn [map]. fold (cr_endings rest).
  destruct (N.eqb_spec c 10) as [->|Hlf].
  - cbn [translate_newlines N.eqb Pos.eqb]. f_equal.
    specialize (IH Hrest).
    destruct rest as [|x rest']; [reflexivity|].
    unfold cr_endings in *. cbn [map] in *.
    destruct (N.eqb_spec x 10) as [->|Hx]; [exact IH|].
    rewrite (proj2 (N.eqb_neq x 10) Hx). exact IH.
  - cbn [translate_newlines].
    rewrite (proj2 (N.eqb_neq c 13) Hc). now rewrite IH.
Qed.

(** ** The diff *)

(** The diff of a list of lines against itself counts nothing. *)
Lemma count_unified_diff_same (a : list pystr) :
  count_lines (unified_diff a a) 0 0 = (0, 0).
Proof.
  pose proof (counted_unified_diff_le a a) as [Ha Hd].
  destruct (opcodes_same a) as [Hdel Hadd].
  unfold counted in *.
  destruct (count_lines _ 0 0) as [x y]. cbn [fst snd] in *.
  f_equal; lia.
Qed.

(** X2: the diff of a text against itself reports no added and no
    deleted line. *)
Theorem compute_diff_identical (s : pystr) : _compute_diff s s = (0, 0).
Proof. unfold _compute_diff. apply count_unified_diff_same. Qed.

(** X3: against the empty text every line counts: for a text none of
    whose lines begins with two plus or two minus signs, the diff from
    the empty text adds each of its lines and deletes none, and the
    diff to the empty text deletes each of its lines and adds none. *)
Theorem compute_diff_against_empty (content : pystr) :
  plain_lines content ->
  _compute_diff [] content = (length (splitlines content), 0)
  /\ _compute_diff content [] = (0, length (splitlines content)).
Proof.
  intros Hplain.
  assert (Hnil : plain_lines []) by reflexivity.
  pose proof (compute_diff_balance [] content Hnil Hplain) as H1.
  pose proof (compute_diff_balance content [] Hplain Hnil) as H2.
  unfold _compute_diff in *.
  pose proof (counted_unified_diff_le (splitlines []) (splitlines content))
    as [_ Hd].
  pose proof (counted_unified_diff_le (splitlines content) (splitlines []))
    as [Ha _].
  destruct (opcodes_account (splitlines []) (splitlines content))
    as (m1 & Hdel1 & _).
  destruct (opcodes_account (splitlines content) (splitlines []))
    as (m2 & _ & Hadd2).
  unfold counted in *. change (splitlines []) with (@nil pystr) in *.
  cbn [length] in *.
  destruct (count_lines (unified_diff [] (splitlines content)) 0 0) as [x1 y1].
  destruct (count_lines (unified_diff (splitlines content) []) 0 0) as [x2 y2].
  cbn [fst snd] in *. split; f_equal; lia.
Qed.

(** ** Line endings *)

(** X5: reading in text mode turns CR LF and CR into LF.  The text
    read from any file holds no carriage return; a file whose decoded
    text has none is read as decoded; and a file whose decoded text is
    that text with every LF replaced by CR LF, or by CR, is read as the
    same text, so that the diff between the two, either way round,
    counts no line. *)
Theorem line_endings_read_as_lf (data lf_data other : string) :
  no_cr (read_text data) = true
  /\ (no_cr (decoded lf_data) = true ->
      decoded other = crlf_endings (decoded lf_data)
      \/ decoded other = cr_endings (decoded lf_data) ->
      read_text lf_data = decoded lf_data
      /\ read_text other = read_text lf_data
      /\ _compute_diff (read_text other) (read_text lf_data) = (0, 0)
      /\ _compute_diff (read_text lf_data) (read_text other) = (0, 0)).
Proof.
  split.
  { unfold read_text. eapply translate_newlines_no_cr. reflexivity. }
  intros Hlf Hother.
  assert (Hread : read_text lf_data = decoded lf_data)
    by (apply translate_newlines_id; exact Hlf).
  assert (Hsame : read_text other = read_text lf_data).
  { rewrite Hread. unfold read_text. fold (decoded other).
    destruct Hother as [->| ->];
      [now apply translate_newlines_crlf|now apply translate_newlines_cr]. }
  split; [exact Hread|]. split; [exact Hsame|].
  rewrite Hsame. unfold _compute_diff.
  split; apply count_unified_diff_same.
Qed.

(** ** The magnitude tag *)

Local Open Scope Z_scope.

Lemma float_of_int_small (n : Z) : 0 <= n < 2 ^ 53 -> float_of_int n = n.
Proof.
  intros Hn. unfold float_of_int. rewrite Z.abs_eq by lia.
  destruct (Z.ltb_spec n (2 ^ 53)); [reflexivity|lia].
Qed.

(** X6: for sizes below 2^53, the tag is [FILE ZEROED OUT!] exactly when
    the file has become empty and its snapshot was not; and no tag is
    printed exactly when the snapshot was empty, or the new size lies
    between half and twice the old one, both bounds included. *)
Theorem magnitude_untagged_iff (sb sa : Z) :
  0 <= sb < 2 ^ 53 -> 0 <= sa ->
  (magnitude (Some sb) sa = Ret " [FILE ZEROED OUT!]"%string
   <-> sa = 0 /\ 0 < sb)
  /\ (magnitude (Some sb) sa = Ret ""%string
      <-> sb = 0 \/ (sb <= 2 * sa /\ sa <= 2 * sb)).
Proof.
  intros Hsb Hsa. unfold magnitude, lt_half.
  rewrite float_of_int_small by exact Hsb.
  destruct (Z.eqb_spec sa 0) as [Hz|Hz];
    destruct (Z.ltb_spec 0 sb) as [Hpos|Hpos];
    destruct (Z.eqb_spec sb 0) as [Hsb0|Hsb0];
    destruct (Z.ltb_spec (2 * sa) sb) as [Hhalf|Hhalf];
    destruct (Z.ltb_spec (sb * 2) sa) as [Hdbl|Hdbl];
    cbn [negb andb]; try lia;
    (split; split; [intros Heq|intros Hwhy|intros Heq|intros Hwhy]);
    try reflexivity; try lia;
    try (exfalso; apply (f_equal (fun o => match o with
                                           | Ret s => String.length s
                                           | Raise _ => 0%nat
                                           end)) in Heq;
         rewrite ?string_length_app in Heq; cbn in Heq; lia);
    try (exfalso; cbv [append] in Heq; discriminate Heq).
Qed.

Local Close Scope Z_scope.
Local Open Scope string_scope.

(** * Further properties of the engine *)

(** ** Stepping through the handlers *)

Lemma bind_ret_l {A B} (x : A) (k : A -> M B) w : bind (ret x) k w = k x w.
Proof. reflexivity. Qed.

Lemma bind_gets {A B} (f : world -> A) (k : A -> M B) w :
  bind (gets f) k w = k (f w) w.
Proof. reflexivity. Qed.

Lemma bind_modify {B} (f : world -> world) (k : unit -> M B) w :
  bind (modify f) k w = k tt (f w).
Proof. reflexivity. Qed.

Lemma bind_print {B} (msg : console_msg) (k : unit -> M B) w :
  bind (print msg) k w = k tt (set_console (console w ++ [msg]) w).
Proof. reflexivity. Qed.

Lemma bind_raise {A B} (e : exn) (k : A -> M B) w :
  bind (raise e) k w = (Raise e, w).
Proof. reflexivity. Qed.

Lemma bind_lift {A B} (o : outcome A) (k : A -> M B) w :
  bind (lift o) k w = match o with Ret a => k a w | Raise e => (Raise e, w) end.
Proof. unfold bind, lift. now destruct o. Qed.

Lemma bind_assoc {A B C} (m : M A) (f : A -> M B) (g : B -> M C) w :
  bind (bind m f) g w = bind m (fun a => bind (f a) g) w.
Proof. unfold bind. destruct (m w) as [[a|e] w']; reflexivity. Qed.

Lemma bind_getsize {B} (p : string) (k : Z -> M B) w data readable :
  fs w !! p = Some (File data readable) ->
  bind (getsize p) k w = k (Z.of_nat (String.length data)) w.
Proof. intros Hp. unfold bind, getsize. now rewrite Hp. Qed.

Lemma missing_error_fs (above : list string) w w1 :
  fs w1 = fs w -> missing_error above w1 = missing_error above w.
Proof.
  intros Hfs. induction above as [|q above IH]; [reflexivity|].
  cbn [missing_error]. now rewrite Hfs, IH.
Qed.

(** The filter looks at the file system only. *)
Lemma should_process_fs `{Platform} p w w1 :
  fs w1 = fs w ->
  _should_process p w1 = (fst (_should_process p w), w1).
Proof.
  intros Hfs. rewrite !should_process_unfold.
  unfold isdir, open_file. rewrite Hfs, (missing_error_fs _ w w1 Hfs).
  destruct (fs w !! p) as [[sz|data [|]|sz e|e]|]; cbn [fst];
    repeat match goal with
           | |- context [if ?c then _ else _] => destruct c
           end; reflexivity.
Qed.

Section Stepping.
Context `{Platform}.
Variable shadow_dir : string.
Implicit Types (w : world) (p : string).

Lemma bind_create_shadow {B} p (k : bool -> M B) w :
  exists b, bind (create_shadow shadow_dir p) k w = k b (after_shadow shadow_dir p w).
Proof.
  destruct (create_shadow_frame shadow_dir p w) as (b & w' & Heq & _).
  exists b. unfold bind, after_shadow. now rewrite Heq.
Qed.

Lemma should_process_cases p w :
  _should_process p w = (Ret false, w)
  \/ (exists data, fs w !! p = Some (File data true)
                   /\ utf8_probe data = true
                   /\ any_part_excluded p = false
                   /\ _should_process p w = (Ret true, w))
  \/ (exists e, _should_process p w = (Raise e, w)).
Proof.
  destruct (_should_process p w) as [r w0] eqn:Heq.
  assert (w0 = w).
  { pose proof (should_process_fs p w w eq_refl) as Hfs.
    rewrite Heq in Hfs. congruence. }
  subst w0. destruct r as [[|]|e]; [|now left|right; right; eauto].
  right. left. apply should_process_true in Heq as (Hex & data & Hp & Hprobe).
  exists data. repeat split; assumption.
Qed.

Lemma should_process_guarded p w r :
  _should_process p w = (r, w) ->
  _should_process p (guarded p w) = (r, guarded p w).
Proof.
  intros Hsp. rewrite (should_process_fs p w (guarded p w)) by reflexivity.
  now rewrite Hsp.
Qed.

Ltac step :=
  repeat first
    [ rewrite bind_assoc
    | rewrite bind_gets
    | rewrite bind_modify
    | rewrite bind_print
    | rewrite bind_ret_l
    | rewrite bind_raise ];
  cbv beta.

(** *** [_process_modification], branch by branch *)

Lemma modification_body_filtered p w :
  _should_process p w = (Ret false, w) ->
  modification_body shadow_dir p w = (Ret tt, guarded p w).
Proof.
  intros Hsp. unfold modification_body. rewrite bind_modify.
  fold (guarded p w).
  unfold bind at 1. now rewrite (should_process_guarded p w _ Hsp).
Qed.

Lemma modification_body_raises p w e :
  _should_process p w = (Raise e, w) ->
  modification_body shadow_dir p w = (Raise e, guarded p w).
Proof.
  intros Hsp. unfold modification_body. rewrite bind_modify.
  fold (guarded p w).
  unfold bind at 1. now rewrite (should_process_guarded p w _ Hsp).
Qed.

(** The steps shared by the branches of a file that passes the
    filter, up to the test [has_shadow]. *)
Lemma modification_body_enter p w data :
  fs w !! p = Some (File data true) ->
  utf8_probe data = true ->
  any_part_excluded p = false ->
  modification_body shadow_dir p w
  = bind (bind (has_shadow shadow_dir p)
            (fun shadowed =>
               if shadowed then
                 bind (get_shadow_content shadow_dir p) (fun old_content =>
                 bind (get_shadow_size shadow_dir p) (fun size_before =>
                 match old_content with
                 | Some old_content =>
                     let '(lines_added, lines_deleted) :=
                       _compute_diff old_content (read_text data) in
                     bind (lift (magnitude size_before (Z.of_nat (String.length data))))
                       (fun tag =>
                     bind (record_change p "modified" size_before
                             (Some (Z.of_nat (String.length data)))
                             lines_added lines_deleted) (fun timestamp =>
                     bind (print (MsgChange timestamp p tag)) (fun _ =>
                     bind (match size_before with
                           | Some sb => print (MsgSize sb (Z.of_nat (String.length data)))
                           | None => raise TypeError
                           end) (fun _ =>
                     print (MsgLines lines_added lines_deleted)))))
                 | None => ret tt
                 end))
               else print (MsgTracking p)))
         (fun _ => bind (update_shadow shadow_dir p) (fun _ => ret tt))
         (guarded p w).
Proof.
  intros Hp Hprobe Hex. unfold modification_body. rewrite bind_modify.
  fold (guarded p w).
  unfold bind at 1.
  rewrite (should_process_intro p (guarded p w) data) by assumption.
  cbn [negb]. rewrite bind_gets.
  rewrite (path_exists_lookup p (guarded p w) data true) by assumption.
  cbn [negb].
  rewrite (bind_getsize p _ (guarded p w) data true) by assumption.
  rewrite bind_gets. unfold open_read at 1.
  replace (fs (guarded p w) !! p) with (Some (File data true))
    by (symmetry; assumption).
  reflexivity.
Qed.

Lemma bind_returns {A B} (m : M A) (k : A -> M B) w a w' :
  m w = (Ret a, w') -> bind m k w = k a w'.
Proof. intros Hm. unfold bind. now rewrite Hm. Qed.

(** *** The getters of [ShadowCopyManager] *)

Lemma has_shadow_lookup p w :
  has_shadow shadow_dir p w
  = (Ret (path_exists (_get_shadow_path shadow_dir p) w), w).
Proof. reflexivity. Qed.

Lemma get_shadow_content_missing p w :
  path_exists (_get_shadow_path shadow_dir p) w = false ->
  get_shadow_content shadow_dir p w = (Ret None, w).
Proof.
  intros Hs. unfold get_shadow_content. rewrite bind_gets. now rewrite Hs.
Qed.

Lemma get_shadow_content_readable p w data :
  fs w !! _get_shadow_path shadow_dir p = Some (File data true) ->
  get_shadow_content shadow_dir p w = (Ret (Some (read_text data)), w).
Proof.
  intros Hs. unfold get_shadow_content. rewrite bind_gets.
  rewrite (path_exists_lookup _ _ _ _ Hs). cbn [negb]. rewrite bind_gets.
  unfold open_read. now rewrite Hs.
Qed.

Lemma get_shadow_content_unreadable p w :
  path_exists (_get_shadow_path shadow_dir p) w = true ->
  open_read (_get_shadow_path shadow_dir p) w = None ->
  get_shadow_content shadow_dir p w
  = (Ret None, set_console (console w ++ [MsgShadowReadError p]) w).
Proof.
  intros Hs Hopen. unfold get_shadow_content. rewrite bind_gets.
  rewrite Hs. cbn [negb]. rewrite bind_gets.
  now rewrite Hopen.
Qed.

Lemma get_shadow_size_missing p w :
  path_exists (_get_shadow_path shadow_dir p) w = false ->
  get_shadow_size shadow_dir p w = (Ret None, w).
Proof.
  intros Hs. unfold get_shadow_size. rewrite bind_gets. now rewrite Hs.
Qed.

Lemma get_shadow_size_present p w data readable :
  fs w !! _get_shadow_path shadow_dir p = Some (File data readable) ->
  get_shadow_size shadow_dir p w
  = (Ret (Some (Z.of_nat (String.length data))), w).
Proof.
  intros Hs. unfold get_shadow_size. rewrite bind_gets.
  rewrite (path_exists_lookup _ _ _ _ Hs). cbn [negb].
  unfold try_except. now rewrite (bind_getsize _ _ _ _ _ Hs).
Qed.

(** [get_shadow_size] returns, and changes nothing. *)
Lemma get_shadow_size_returns p w :
  exists size, get_shadow_size shadow_dir p w = (Ret size, w).
Proof.
  unfold get_shadow_size. rewrite bind_gets.
  destruct (path_exists (_get_shadow_path shadow_dir p) w); cbn [negb];
    [|eexists; reflexivity].
  unfold try_except, bind, getsize, ret.
  destruct (fs w !! _get_shadow_path shadow_dir p)
    as [[sz|data readable|sz e|e]|]; eexists; reflexivity.
Qed.

(** *** The branches of a file that passes the filter *)

Lemma modification_body_untracked p w data :
  fs w !! p = Some (File data true) ->
  utf8_probe data = true ->
  any_part_excluded p = false ->
  path_exists (_get_shadow_path shadow_dir p) w = false ->
  modification_body shadow_dir p w
  = (Ret tt,
     after_shadow shadow_dir p (set_console (console w ++ [MsgTracking p]) (guarded p w))).
Proof.
  intros Hp Hprobe Hex Hs.
  rewrite (modification_body_enter p w data) by assumption.
  rewrite bind_assoc. unfold has_shadow. rewrite bind_gets.
  change (path_exists (_get_shadow_path shadow_dir p) (guarded p w))
    with (path_exists (_get_shadow_path shadow_dir p) w).
  rewrite Hs, bind_print. unfold update_shadow.
  match goal with |- bind _ ?k ?w1 = _ =>
    destruct (bind_create_shadow p k w1) as [b ->] end.
  reflexivity.
Qed.

Lemma modification_body_unreadable p w data :
  fs w !! p = Some (File data true) ->
  utf8_probe data = true ->
  any_part_excluded p = false ->
  path_exists (_get_shadow_path shadow_dir p) w = true ->
  open_read (_get_shadow_path shadow_dir p) w = None ->
  modification_body shadow_dir p w
  = (Ret tt,
     after_shadow shadow_dir p
       (set_console (console w ++ [MsgShadowReadError p]) (guarded p w))).
Proof.
  intros Hp Hprobe Hex Hs Hopen.
  rewrite (modification_body_enter p w data) by assumption.
  rewrite bind_assoc. unfold has_shadow. rewrite bind_gets.
  change (path_exists (_get_shadow_path shadow_dir p) (guarded p w))
    with (path_exists (_get_shadow_path shadow_dir p) w).
  rewrite Hs, bind_assoc.
  rewrite (bind_returns _ _ _ _ _
             (get_shadow_content_unreadable p (guarded p w) Hs Hopen)).
  rewrite bind_assoc.
  match goal with |- bind _ _ ?w1 = _ =>
    destruct (get_shadow_size_returns p w1) as [size Hsize];
    rewrite (bind_returns _ _ _ _ _ Hsize) end.
  rewrite bind_ret_l. unfold update_shadow.
  match goal with |- bind _ ?k ?w1 = _ =>
    destruct (bind_create_shadow p k w1) as [b ->] end.
  reflexivity.
Qed.

Lemma modification_body_recorded p w data old_data :
  fs w !! p = Some (File data true) ->
  utf8_probe data = true ->
  any_part_excluded p = false ->
  fs w !! _get_shadow_path shadow_dir p = Some (File old_data true) ->
  db_ok w = true ->
  modification_body shadow_dir p w
  = (Ret tt,
     after_shadow shadow_dir p
       (set_console (console w ++ modified_messages p w old_data data)
          (set_db (db w ++ [modified_row p (now w) old_data data]) (guarded p w)))).
Proof.
  intros Hp Hprobe Hex Hs Hok.
  rewrite (modification_body_enter p w data) by assumption.
  rewrite bind_assoc. unfold has_shadow. rewrite bind_gets.
  rewrite (path_exists_lookup _ (guarded p w) _ _ Hs).
  rewrite bind_assoc.
  rewrite (bind_returns _ _ _ _ _
             (get_shadow_content_readable p (guarded p w) old_data Hs)).
  rewrite bind_assoc.
  rewrite (bind_returns _ _ _ _ _
             (get_shadow_size_present p (guarded p w) _ _ Hs)).
  unfold modified_messages, modified_row. cbn [node_size].
  destruct (_compute_diff (read_text old_data) (read_text data))
    as [added deleted].
  destruct (magnitude_returns (Z.of_nat (String.length old_data))
              (Z.of_nat (String.length data))) as [tag Htag].
  rewrite Htag.
  rewrite bind_assoc, bind_lift. rewrite bind_assoc.
  rewrite (bind_returns _ _ _ _ _
             (record_change_ok p "modified" _ _ added deleted (guarded p w) Hok)).
  rewrite bind_assoc, bind_print, bind_assoc, bind_print, bind_print.
  unfold update_shadow.
  match goal with |- bind _ ?k ?w1 = _ =>
    destruct (bind_create_shadow p k w1) as [b ->] end.
  cbn [console set_console set_db db now guarded set_processing].
  rewrite <- !app_assoc. reflexivity.
Qed.

Lemma modification_body_refused p w data old_data :
  fs w !! p = Some (File data true) ->
  utf8_probe data = true ->
  any_part_excluded p = false ->
  fs w !! _get_shadow_path shadow_dir p = Some (File old_data true) ->
  db_ok w = false ->
  modification_body shadow_dir p w = (Raise SqliteError, guarded p w).
Proof.
  intros Hp Hprobe Hex Hs Hok.
  rewrite (modification_body_enter p w data) by assumption.
  rewrite bind_assoc. unfold has_shadow. rewrite bind_gets.
  rewrite (path_exists_lookup _ (guarded p w) _ _ Hs).
  rewrite bind_assoc.
  rewrite (bind_returns _ _ _ _ _
             (get_shadow_content_readable p (guarded p w) old_data Hs)).
  rewrite bind_assoc.
  rewrite (bind_returns _ _ _ _ _
             (get_shadow_size_present p (guarded p w) _ _ Hs)).
  cbn [node_size].
  destruct (_compute_diff (read_text old_data) (read_text data))
    as [added deleted].
  destruct (magnitude_returns (Z.of_nat (String.length old_data))
              (Z.of_nat (String.length data))) as [tag Htag].
  rewrite bind_assoc, bind_lift, Htag. rewrite bind_assoc.
  unfold bind at 1.
  rewrite (record_change_fail p "modified" _ _ added deleted (guarded p w) Hok).
  reflexivity.
Qed.

(** *** [_process_modification] and [_process_creation] *)

Lemma process_modification_held p w :
  p ∈ processing w -> _process_modification shadow_dir p w = (Ret tt, w).
Proof.
  intros Hp. unfold _process_modification. rewrite bind_gets.
  now rewrite bool_decide_eq_true_2.
Qed.

Lemma process_modification_free p w :
  p ∉ processing w ->
  _process_modification shadow_dir p w
  = (fst (modification_body shadow_dir p w),
     set_processing
       (processing (snd (modification_body shadow_dir p w)) ∖ {[p]})
       (snd (modification_body shadow_dir p w))).
Proof.
  intros Hp. unfold _process_modification. rewrite bind_gets.
  rewrite bool_decide_eq_false_2 by exact Hp.
  unfold try_finally, modify.
  now destruct (modification_body shadow_dir p w).
Qed.

Lemma process_creation_filtered p w :
  _should_process p w = (Ret false, w) ->
  _process_creation shadow_dir p w = (Ret tt, w).
Proof.
  intros Hsp. unfold _process_creation. unfold bind at 1. now rewrite Hsp.
Qed.

Lemma process_creation_raises p w e :
  _should_process p w = (Raise e, w) ->
  _process_creation shadow_dir p w = (Raise e, w).
Proof.
  intros Hsp. unfold _process_creation. unfold bind at 1. now rewrite Hsp.
Qed.

Lemma process_creation_recorded p w data :
  fs w !! p = Some (File data true) ->
  utf8_probe data = true ->
  any_part_excluded p = false ->
  db_ok w = true ->
  _process_creation shadow_dir p w
  = (Ret tt,
     after_shadow shadow_dir p
       (set_console (console w ++ created_messages p w data)
          (set_db (db w ++ [created_row p (now w) data]) w))).
Proof.
  intros Hp Hprobe Hex Hok. unfold _process_creation.
  unfold bind at 1. rewrite (should_process_intro p w data) by assumption.
  cbn [negb]. rewrite bind_gets.
  rewrite (path_exists_lookup p w _ _ Hp).
  rewrite (bind_getsize p _ w _ _ Hp). cbn [node_size].
  rewrite (bind_returns _ _ _ _ _
             (record_change_ok p "created" _ _ 0 0 w Hok)).
  rewrite bind_print, bind_print.
  match goal with |- bind _ ?k ?w1 = _ =>
    destruct (bind_create_shadow p k w1) as [b ->] end.
  unfold created_messages, created_row.
  cbn [console set_console set_db db now]. rewrite <- !app_assoc. reflexivity.
Qed.

Lemma process_creation_refused p w data :
  fs w !! p = Some (File data true) ->
  utf8_probe data = true ->
  any_part_excluded p = false ->
  db_ok w = false ->
  _process_creation shadow_dir p w = (Raise SqliteError, w).
Proof.
  intros Hp Hprobe Hex Hok. unfold _process_creation.
  unfold bind at 1. rewrite (should_process_intro p w data) by assumption.
  cbn [negb]. rewrite bind_gets.
  rewrite (path_exists_lookup p w _ _ Hp).
  rewrite (bind_getsize p _ w _ _ Hp).
  unfold bind at 1. now rewrite record_change_fail.
Qed.

(** *** What [create_shadow] leaves behind *)

Lemma after_shadow_same_stores p w : same_stores w (after_shadow shadow_dir p w).
Proof.
  unfold after_shadow.
  destruct (create_shadow shadow_dir p w) as [r w'] eqn:Heq.
  eapply keeps_create_shadow. exact Heq.
Qed.

Lemma after_shadow_elsewhere p w q :
  q ∉ shadow_paths shadow_dir p -> fs (after_shadow shadow_dir p w) !! q = fs w !! q.
Proof.
  intros Hq. unfold shadow_paths in Hq.
  rewrite !not_elem_of_cons in Hq. destruct Hq as (Hq1 & Hq2 & Hq3 & _).
  unfold after_shadow, create_shadow, try_except.
  rewrite bind_gets.
  destruct (negb (path_exists p w)); [reflexivity|].
  unfold bind at 1, copy2.
  destruct (open_read p w) as [data|]; [|reflexivity].
  assert (Hq : q <> (if isdir (_get_shadow_path shadow_dir p) w
                     then path_join (_get_shadow_path shadow_dir p) (basename p)
                     else _get_shadow_path shadow_dir p))
    by (destruct (isdir (_get_shadow_path shadow_dir p) w); congruence).
  match goal with |- context [if ?c then _ else _] => destruct c end;
    [reflexivity|].
  destruct (copy_ok w);
    [|destruct (copy_fault w);
      cbn [snd print modify bind ret set_console fs set_fs];
      rewrite ?lookup_insert_ne by congruence; reflexivity].
  unfold bind at 1, write_metadata.
  match goal with |- context [if ?c then (Raise OSError, _) else _] =>
    destruct c end.
  - cbn [snd print modify bind ret set_console fs set_fs].
    now rewrite lookup_insert_ne by congruence.
  - match goal with |- context [getsize ?a ?b] =>
      destruct (getsize a b) as [[sz|e] w1] end;
      cbn [snd print modify bind ret set_console fs set_fs];
      now rewrite !lookup_insert_ne by congruence.
Qed.

(** A copy that fails on opening its target leaves the file system
    as it was. *)
Lemma after_shadow_copy_fails p w :
  copy_ok w = false -> copy_fault w = AtOpen ->
  fs (after_shadow shadow_dir p w) = fs w.
Proof.
  intros Hcopy Hfault. unfold after_shadow, create_shadow, try_except.
  rewrite bind_gets.
  destruct (negb (path_exists p w)); [reflexivity|].
  unfold bind at 1, copy2. rewrite Hcopy, Hfault.
  destruct (open_read p w) as [data|]; [|reflexivity].
  match goal with |- context [if ?c then _ else _] => destruct c end;
    reflexivity.
Qed.

Lemma after_shadow_snapshot p w data :
  fs w !! p = Some (File data true) ->
  isdir (_get_shadow_path shadow_dir p) w = false ->
  copy_ok w = true ->
  fs (after_shadow shadow_dir p w) !! _get_shadow_path shadow_dir p = Some (File data true).
Proof.
  intros Hp Hdir Hcopy. unfold after_shadow.
  destruct (create_shadow_snapshot shadow_dir p w data Hp Hdir Hcopy)
    as (b & w' & -> & Hs).
  exact Hs.
Qed.

(** *** Every way a handler can end *)

Lemma modification_body_ends p w :
  modification_end shadow_dir p w (modification_body shadow_dir p w).
Proof.
  destruct (should_process_cases p w)
    as [Hno | [(data & Hp & Hprobe & Hex & _) | (e & Hraise)]].
  { rewrite modification_body_filtered by exact Hno. now constructor. }
  2: { rewrite (modification_body_raises p w e) by exact Hraise.
       now constructor. }
  destruct (path_exists (_get_shadow_path shadow_dir p) w) eqn:Hs.
  - destruct (open_read (_get_shadow_path shadow_dir p) w) as [old_data|] eqn:Hopen.
    + assert (Hn : fs w !! _get_shadow_path shadow_dir p
                   = Some (File old_data true)).
      { unfold open_read in Hopen.
        destruct (fs w !! _get_shadow_path shadow_dir p)
          as [[sz|d [|]|sz e|e]|]; congruence. }
      destruct (db_ok w) eqn:Hok.
      * rewrite (modification_body_recorded p w data old_data) by assumption.
        eapply mod_recorded; try eassumption.
        unfold before_shadow. cbn. tauto.
      * rewrite (modification_body_refused p w data old_data) by assumption.
        eapply mod_refused; eassumption.
    + rewrite (modification_body_unreadable p w data) by assumption.
      eapply mod_unreadable; try eassumption.
      unfold before_shadow. cbn. rewrite app_nil_r. tauto.
  - rewrite (modification_body_untracked p w data) by assumption.
    eapply mod_first_seen; try eassumption.
    unfold before_shadow. cbn. rewrite app_nil_r. tauto.
Qed.

Lemma process_creation_ends p w :
  creation_end shadow_dir p w (_process_creation shadow_dir p w).
Proof.
  destruct (should_process_cases p w)
    as [Hno | [(data & Hp & Hprobe & Hex & _) | (e & Hraise)]].
  { rewrite process_creation_filtered by exact Hno. now constructor. }
  2: { rewrite (process_creation_raises p w e) by exact Hraise.
       now constructor. }
  destruct (db_ok w) eqn:Hok.
  - rewrite (process_creation_recorded p w data) by assumption.
    eapply cre_recorded; try eassumption.
    unfold before_shadow. cbn. tauto.
  - rewrite (process_creation_refused p w data) by assumption.
    eapply cre_refused; eassumption.
Qed.
End Stepping.

(** ** The handlers, whatever the event *)

Lemma set_processing_same w : set_processing (processing w) w = w.
Proof. now destruct w. Qed.

Lemma string_app_assoc (a b c : string) : (a +:+ b) +:+ c = a +:+ (b +:+ c).
Proof.
  induction a as [|x a IH]; [reflexivity|].
  change (String x ((a +:+ b) +:+ c) = String x (a +:+ (b +:+ c))).
  now rewrite IH.
Qed.

Lemma string_app_nil_r (a : string) : a +:+ "" = a.
Proof.
  induction a as [|x a IH]; [reflexivity|].
  change (String x (a +:+ "") = String x a). now rewrite IH.
Qed.

Lemma string_app_same_length (a b x y : string) :
  String.length a = String.length b -> a +:+ x = b +:+ y -> a = b.
Proof.
  revert b. induction a as [|c a IH]; intros [|d b] Hlen Heq;
    try discriminate; [reflexivity|].
  change (String c (a +:+ x) = String d (b +:+ y)) in Heq.
  injection Heq as -> Heq. injection Hlen as Hlen. f_equal. now apply IH.
Qed.

Lemma path_join_prefix (d name : string) : exists s, path_join d name = d +:+ s.
Proof.
  unfold path_join. destruct (last (list_ascii_of_string d)) as [c|] eqn:Hlast.
  - destruct (Ascii.eqb c "/"); eexists; reflexivity.
  - apply last_None in Hlast. destruct d; [|discriminate].
    exists name. reflexivity.
Qed.

Section Handlers.
Context `{Platform}.
Variable shadow_dir : string.
Implicit Types (w : world) (p : string).

Lemma release_guarded p w :
  p ∉ processing w ->
  set_processing (processing (guarded p w) ∖ {[p]}) (guarded p w) = w.
Proof.
  intros Hp. unfold guarded, set_processing. cbn.
  rewrite guard_restored by exact Hp. now destruct w.
Qed.

Lemma release_after_shadow p w wm rows :
  p ∉ processing w ->
  before_shadow w wm ({[p]} ∪ processing w) rows ->
  set_processing (processing (after_shadow shadow_dir p wm) ∖ {[p]})
    (after_shadow shadow_dir p wm)
  = set_processing (processing w) (after_shadow shadow_dir p wm).
Proof.
  intros Hp (_ & _ & Hheld & _).
  destruct (after_shadow_same_stores shadow_dir p wm) as (_ & Hproc & _).
  rewrite Hproc, Hheld, guard_restored by exact Hp. reflexivity.
Qed.

Lemma on_modified_finished ev w r w' :
  on_modified shadow_dir ev w = (r, w') ->
  exists rows,
    finished shadow_dir (src_path ev) w rows r w'
    /\ (rows = []
        \/ exists old_data data,
             db_ok w = true
             /\ fs w !! src_path ev = Some (File data true)
             /\ fs w !! _get_shadow_path shadow_dir (src_path ev)
                = Some (File old_data true)
             /\ rows = [modified_row (src_path ev) (now w) old_data data]).
Proof.
  unfold on_modified. destruct (is_directory ev); cbn [negb].
  { intros [= <- <-]. exists []. split; [constructor|now left]. }
  destruct (decide (src_path ev ∈ processing w)) as [Hheld|Hfree].
  { rewrite process_modification_held by exact Hheld.
    intros [= <- <-]. exists []. split; [constructor|now left]. }
  rewrite process_modification_free by exact Hfree.
  pose proof (modification_body_ends shadow_dir (src_path ev) w) as Hend.
  destruct (modification_body shadow_dir (src_path ev) w) as [rb wb].
  cbn [fst snd]. intros [= <- <-].
  inversion Hend as [Hno Hr|e Hraise Hr|data wm Hp Hs Hb Hr
                     |data wm Hp Hs Ho Hb Hr
                     |data old_data wm Hp Hs Hok Hb Hr|data old_data Hp Hs Hok Hr];
    subst.
  - rewrite release_guarded by exact Hfree.
    exists []. split; [constructor|now left].
  - rewrite release_guarded by exact Hfree.
    exists []. split; [now constructor|now left].
  - rewrite (release_after_shadow _ w wm []) by assumption.
    exists []. split; [econstructor; eassumption|now left].
  - rewrite (release_after_shadow _ w wm []) by assumption.
    exists []. split; [econstructor; eassumption|now left].
  - rewrite (release_after_shadow _ w wm _ Hfree Hb).
    eexists. split; [econstructor; eassumption|].
    right. exists old_data, data. repeat split; assumption.
  - rewrite release_guarded by exact Hfree.
    exists []. split; [now constructor|now left].
Qed.

Lemma on_created_finished ev w r w' :
  on_created shadow_dir ev w = (r, w') ->
  exists rows,
    finished shadow_dir (src_path ev) w rows r w'
    /\ (rows = []
        \/ exists data,
             db_ok w = true
             /\ fs w !! src_path ev = Some (File data true)
             /\ rows = [created_row (src_path ev) (now w) data]).
Proof.
  unfold on_created. destruct (is_directory ev); cbn [negb].
  { intros [= <- <-]. exists []. split; [constructor|now left]. }
  pose proof (process_creation_ends shadow_dir (src_path ev) w) as Hend.
  destruct (_process_creation shadow_dir (src_path ev) w) as [rb wb].
  intros [= <- <-].
  inversion Hend as [Hno Hr|e Hraise Hr|data wm Hp Hok Hb Hr|data Hp Hok Hr];
    subst.
  - exists []. split; [constructor|now left].
  - exists []. split; [now constructor|now left].
  - eexists. split.
    + replace (after_shadow shadow_dir (src_path ev) wm)
        with (set_processing (processing w)
                (after_shadow shadow_dir (src_path ev) wm)).
      * econstructor; eassumption.
      * destruct (after_shadow_same_stores shadow_dir (src_path ev) wm)
          as (_ & Hproc & _).
        destruct Hb as (_ & _ & Hheld & _).
        rewrite <- Hheld, <- Hproc. apply set_processing_same.
    + right. exists data. repeat split; assumption.
  - exists []. split; [now constructor|now left].
Qed.

Lemma finished_db p w rows r w' :
  finished shadow_dir p w rows r w' -> db w' = (db w ++ rows)%list.
Proof.
  intros [|e He|Hok|wm held rows' Hb]; try (now rewrite app_nil_r).
  destruct (after_shadow_same_stores shadow_dir p wm) as (Hdb & _).
  destruct Hb as (_ & Hrows & _). cbn. now rewrite Hdb.
Qed.

Lemma finished_processing p w rows r w' :
  finished shadow_dir p w rows r w' -> processing w' = processing w.
Proof. now intros [|e He|Hok|wm held rows' Hb]. Qed.

Lemma finished_elsewhere p w rows r w' q :
  finished shadow_dir p w rows r w' ->
  q ∉ shadow_paths shadow_dir p -> fs w' !! q = fs w !! q.
Proof.
  intros [|e He|Hok|wm held rows' Hb] Hq; try reflexivity.
  cbn. rewrite after_shadow_elsewhere by exact Hq.
  destruct Hb as (Hfs & _). now rewrite Hfs.
Qed.

Lemma handler_finished ev w r w' :
  on_modified shadow_dir ev w = (r, w') \/ on_created shadow_dir ev w = (r, w') ->
  exists rows, finished shadow_dir (src_path ev) w rows r w'.
Proof.
  intros [Hm|Hc].
  - apply on_modified_finished in Hm as (rows & Hfin & _). eauto.
  - apply on_created_finished in Hc as (rows & Hfin & _). eauto.
Qed.

(** X8: a handler only ever appends to the record store, and at most
    one row per event, whatever the outcome: a modification leaves the
    rows as they were or adds the row of the file's bytes against its
    snapshot's, a creation leaves them or adds the creation row. *)
Theorem event_appends_at_most_one_row ev w r w' :
  (on_modified shadow_dir ev w = (r, w') ->
   db w' = db w
   \/ exists old_data data,
        fs w !! src_path ev = Some (File data true)
        /\ fs w !! _get_shadow_path shadow_dir (src_path ev)
           = Some (File old_data true)
        /\ db w' = (db w ++ [modified_row (src_path ev) (now w) old_data data])%list)
  /\ (on_created shadow_dir ev w = (r, w') ->
      db w' = db w
      \/ exists data,
           fs w !! src_path ev = Some (File data true)
           /\ db w' = (db w ++ [created_row (src_path ev) (now w) data])%list).
Proof.
  split; intros Hrun.
  - apply on_modified_finished in Hrun as (rows & Hfin & Hrows).
    apply finished_db in Hfin.
    destruct Hrows as [->|(old_data & data & _ & Hp & Hs & ->)].
    + left. now rewrite app_nil_r in Hfin.
    + right. eauto.
  - apply on_created_finished in Hrun as (rows & Hfin & Hrows).
    apply finished_db in Hfin.
    destruct Hrows as [->|(data & _ & Hp & ->)].
    + left. now rewrite app_nil_r in Hfin.
    + right. eauto.
Qed.

(** X9: an exception of the filter's [open] that line 176 does not
    list leaves the handlers.  For an event on a path that is no
    directory and is not excluded, and at which [open] raises such an
    exception ([NotADirectoryError] for a path below a regular file,
    [OSError] for a socket or a loop of links, [ValueError] for a name
    with a null character), [on_created] raises it, and so does
    [on_modified] unless the guard is held; the state is then as it
    was before the event. *)
Theorem uncaught_open_error_escapes ev w e :
  is_directory ev = false ->
  isdir (src_path ev) w = false ->
  any_part_excluded (src_path ev) = false ->
  fst (open_file (src_path ev) w) = Raise e ->
  caught_by_filter e = false ->
  on_created shadow_dir ev w = (Raise e, w)
  /\ (src_path ev ∉ processing w ->
      on_modified shadow_dir ev w = (Raise e, w)).
Proof.
  intros Hev Hdir Hex Hopen Hcaught.
  assert (Hsp : _should_process (src_path ev) w = (Raise e, w)).
  { rewrite should_process_unfold, Hdir, Hex, Hopen. now rewrite Hcaught. }
  unfold on_created, on_modified. rewrite Hev. cbn [negb]. split.
  - now apply process_creation_raises.
  - intros Hfree. rewrite process_modification_free by exact Hfree.
    rewrite (modification_body_raises shadow_dir _ w e) by exact Hsp.
    cbn [fst snd]. now rewrite release_guarded.
Qed.

(** X10: after a handler, whatever the event and the outcome, the set
    [processing] is what it was before. *)
Theorem guard_set_unchanged ev w r w' :
  on_modified shadow_dir ev w = (r, w') \/ on_created shadow_dir ev w = (r, w') ->
  processing w' = processing w.
Proof.
  intros Hrun. apply handler_finished in Hrun as (rows & Hfin).
  eapply finished_processing. exact Hfin.
Qed.


Lemma shadow_paths_other p q :
  String.length (md5_hexdigest q) = String.length (md5_hexdigest p) ->
  md5_hexdigest q <> md5_hexdigest p ->
  (_get_shadow_path shadow_dir q ∉ shadow_paths shadow_dir p)
  /\ (_get_metadata_path shadow_dir q ∉ shadow_paths shadow_dir p).
Proof.
  intros Hlen Hne.
  assert (Hpre : forall s t,
    _get_shadow_path shadow_dir q +:+ s = _get_shadow_path shadow_dir p +:+ t ->
    False).
  { intros s t Heq. unfold _get_shadow_path in Heq.
    rewrite !string_app_assoc in Heq.
    apply String.app_inj in Heq. apply String.app_inj in Heq.
    apply Hne. eapply string_app_same_length; eassumption. }
  destruct (path_join_prefix (_get_shadow_path shadow_dir p) (basename p))
    as [s Hjoin].
  unfold shadow_paths. rewrite !not_elem_of_cons, Hjoin.
  unfold _get_metadata_path.
  repeat apply conj; try apply not_elem_of_nil; intros Heq.
  - apply (Hpre "" ""). now rewrite !string_app_nil_r.
  - apply (Hpre "" s). now rewrite string_app_nil_r.
  - apply (Hpre "" ".meta"). now rewrite string_app_nil_r.
  - apply (Hpre ".meta" ""). now rewrite string_app_nil_r.
  - apply (Hpre ".meta" s). exact Heq.
  - apply (Hpre ".meta" ".meta"). exact Heq.
Qed.

(** X12: an event for one path leaves the snapshot and the metadata of
    every path with another digest (of the same length, as digests
    are) as they were. *)
Theorem snapshots_of_other_files_untouched ev w r w' q :
  on_modified shadow_dir ev w = (r, w') \/ on_created shadow_dir ev w = (r, w') ->
  String.length (md5_hexdigest q) = String.length (md5_hexdigest (src_path ev)) ->
  md5_hexdigest q <> md5_hexdigest (src_path ev) ->
  fs w' !! _get_shadow_path shadow_dir q = fs w !! _get_shadow_path shadow_dir q
  /\ fs w' !! _get_metadata_path shadow_dir q
     = fs w !! _get_metadata_path shadow_dir q.
Proof.
  intros Hrun Hlen Hne. apply handler_finished in Hrun as (rows & Hfin).
  destruct (shadow_paths_other (src_path ev) q Hlen Hne) as [Hs Hm].
  split; eapply finished_elsewhere; eassumption.
Qed.

End Handlers.

(** ** The handlers on a file that passes the filter *)

Section Branches.
Context `{Platform}.
Variable shadow_dir : string.
Implicit Types (w : world) (p : string).

(** [create_shadow] for a file that is its own shadow file: the copy
    is refused. *)
Lemma after_shadow_same_file p w data :
  fs w !! p = Some (File data true) ->
  p = _get_shadow_path shadow_dir p ->
  after_shadow shadow_dir p w
  = set_console (console w ++ [MsgShadowCreateError p]) w.
Proof.
  intros Hp Hsame. unfold after_shadow, create_shadow, try_except.
  rewrite bind_gets, (path_exists_lookup _ _ _ _ Hp). cbn [negb].
  unfold bind at 1, copy2, open_read. rewrite Hp.
  assert (Hdir : isdir (_get_shadow_path shadow_dir p) w = false)
    by (rewrite <- Hsame; exact (isdir_file _ _ _ _ Hp)).
  rewrite !Hdir, bool_decide_eq_true_2 by exact Hsame. reflexivity.
Qed.

(** [create_shadow] when the copy onto an existing shadow file fails:
    the error is printed, and the shadow file is left as the stage of
    the failure has it. *)
Lemma after_shadow_copy_failed p w data old_data readable :
  fs w !! p = Some (File data true) ->
  fs w !! _get_shadow_path shadow_dir p = Some (File old_data readable) ->
  p <> _get_shadow_path shadow_dir p ->
  copy_ok w = false ->
  after_shadow shadow_dir p w
  = set_console (console w ++ [MsgShadowCreateError p])
      match copy_fault w with
      | AtOpen => w
      | AtWrite n =>
          set_fs (<[_get_shadow_path shadow_dir p :=
                      File (first_bytes n data) readable]> (fs w)) w
      | AtStat mode_copied =>
          set_fs (<[_get_shadow_path shadow_dir p :=
                      File data (mode_copied || readable)]> (fs w)) w
      end.
Proof.
  intros Hp Hs Hne Hcopy. unfold after_shadow, create_shadow, try_except.
  rewrite bind_gets, (path_exists_lookup _ _ _ _ Hp). cbn [negb].
  unfold bind at 1, copy2, open_read, mode_kept. rewrite Hp.
  rewrite !(isdir_file _ _ _ _ Hs), bool_decide_eq_false_2 by exact Hne.
  cbn [orb]. rewrite Hcopy, Hs.
  destruct (copy_fault w); reflexivity.
Qed.

Lemma after_shadow_console p w :
  exists msgs, console (after_shadow shadow_dir p w) = (console w ++ msgs)%list.
Proof.
  unfold after_shadow, create_shadow, try_except.
  rewrite bind_gets.
  destruct (negb (path_exists p w));
    [exists []; cbn; now rewrite app_nil_r|].
  unfold bind at 1, copy2.
  destruct (open_read p w) as [data|]; [|eexists; reflexivity].
  match goal with |- context [if ?c then _ else _] => destruct c end;
    [eexists; reflexivity|].
  destruct (copy_ok w); [|destruct (copy_fault w); eexists; reflexivity].
  unfold bind at 1, write_metadata.
  match goal with |- context [if ?c then (Raise OSError, _) else _] =>
    destruct c end; [eexists; reflexivity|].
  match goal with |- context [getsize ?a ?b] =>
    destruct (getsize a b) as [[sz|e] w1] end;
    [exists []; cbn; now rewrite app_nil_r|eexists; reflexivity].
Qed.

Lemma should_process_false_ignored ev w :
  is_directory ev = true \/ _should_process (src_path ev) w = (Ret false, w) ->
  on_modified shadow_dir ev w = (Ret tt, w)
  /\ on_created shadow_dir ev w = (Ret tt, w).
Proof.
  unfold on_modified, on_created.
  intros [-> | Hno]; [split; reflexivity|].
  destruct (is_directory ev); cbn [negb]; [split; reflexivity|].
  split; [|now apply process_creation_filtered].
  destruct (decide (src_path ev ∈ processing w)) as [Hheld|Hfree].
  - now apply process_modification_held.
  - rewrite process_modification_free by exact Hfree.
    rewrite modification_body_filtered by exact Hno. cbn [fst snd].
    now rewrite release_guarded.
Qed.

(** The state after a handler has run to its end on a file that
    passes the filter holds the file's bytes as its snapshot. *)
Lemma handled_snapshot p w w1 data :
  on_modified shadow_dir (modified p) w = (Ret tt, w1)
  \/ on_created shadow_dir (created p) w = (Ret tt, w1) ->
  p ∉ processing w ->
  any_part_excluded p = false ->
  fs w !! p = Some (File data true) ->
  utf8_probe data = true ->
  isdir (_get_shadow_path shadow_dir p) w = false ->
  copy_ok w = true ->
  fs w1 !! _get_shadow_path shadow_dir p = Some (File data true)
  /\ processing w1 = processing w.
Proof.
  intros Hrun Hfree Hex Hp Hprobe Hdir Hcopy.
  pose proof (should_process_intro p w data Hex Hp Hprobe) as Hyes.
  assert (Hsnap : forall wm held rows,
    before_shadow w wm held rows ->
    fs (after_shadow shadow_dir p wm) !! _get_shadow_path shadow_dir p
    = Some (File data true)).
  { intros wm held rows (Hfs & _ & _ & _ & Hc & _).
    apply after_shadow_snapshot.
    - now rewrite Hfs.
    - unfold isdir in *. now rewrite Hfs.
    - congruence. }
  assert (Hproc : processing w1 = processing w).
  { destruct Hrun as [Hrun|Hrun].
    - apply on_modified_finished in Hrun as (rows & Hfin & _).
      eapply finished_processing, Hfin.
    - apply on_created_finished in Hrun as (rows & Hfin & _).
      eapply finished_processing, Hfin. }
  split; [|exact Hproc]. clear Hproc.
  destruct Hrun as [Hrun|Hrun].
  - unfold on_modified, modified in Hrun. cbn [is_directory src_path negb] in Hrun.
    rewrite process_modification_free in Hrun by exact Hfree.
    pose proof (modification_body_ends shadow_dir p w) as Hend.
    destruct (modification_body shadow_dir p w) as [rb wb].
    cbn [fst snd] in Hrun. injection Hrun as -> <-.
    inversion Hend as [Hno Hr| |d wm _ _ Hb Hr|d wm _ _ _ Hb Hr
                       |d old_data wm _ _ _ Hb Hr|]; subst; cbn [fs set_processing].
    + congruence.
    + eapply Hsnap, Hb.
    + eapply Hsnap, Hb.
    + eapply Hsnap, Hb.
  - unfold on_created, created in Hrun. cbn [is_directory src_path negb] in Hrun.
    pose proof (process_creation_ends shadow_dir p w) as Hend.
    rewrite Hrun in Hend.
    inversion Hend as [Hno Hr| |d wm _ _ Hb Hr|]; subst.
    + congruence.
    + eapply Hsnap, Hb.
Qed.

(** X14: when the shadow copy fails, a modification of a tracked file
    is recorded all the same and the handler returns, the error
    printed last; no path but the shadow file changes.  The shadow
    file keeps the old snapshot when the copy fails on opening it,
    holds the bytes written so far when it fails while writing, and
    holds the new bytes when it fails in [copystat]. *)
Theorem failed_copy_still_records p w data old_data :
  p ∉ processing w ->
  any_part_excluded p = false ->
  fs w !! p = Some (File data true) ->
  utf8_probe data = true ->
  fs w !! _get_shadow_path shadow_dir p = Some (File old_data true) ->
  db_ok w = true ->
  copy_ok w = false ->
  exists w', on_modified shadow_dir (modified p) w = (Ret tt, w')
    /\ db w' = (db w ++ [modified_row p (now w) old_data data])%list
    /\ last (console w') = Some (MsgShadowCreateError p)
    /\ (forall q, q <> _get_shadow_path shadow_dir p -> fs w' !! q = fs w !! q)
    /\ (p <> _get_shadow_path shadow_dir p ->
        fs w' !! _get_shadow_path shadow_dir p
        = Some match copy_fault w with
               | AtOpen => File old_data true
               | AtWrite n => File (first_bytes n data) true
               | AtStat _ => File data true
               end).
Proof.
  intros Hfree Hex Hp Hprobe Hs Hok Hcopy.
  unfold on_modified, modified. cbn [is_directory src_path negb].
  rewrite process_modification_free by exact Hfree.
  rewrite (modification_body_recorded shadow_dir p w data old_data) by assumption.
  cbn [fst snd].
  match goal with |- context [after_shadow shadow_dir p ?x] => set (wm := x) end.
  destruct (decide (p = _get_shadow_path shadow_dir p)) as [Hsame|Hne].
  - rewrite (after_shadow_same_file p wm data) by assumption.
    eexists. split; [reflexivity|]. cbn.
    split; [reflexivity|]. split; [apply last_snoc|].
    split; [reflexivity|]. intros Hne. contradiction.
  - rewrite (after_shadow_copy_failed p wm data old_data true)
      by assumption.
    eexists. split; [reflexivity|].
    change (copy_fault wm) with (copy_fault w).
    destruct (copy_fault w) as [|n|m]; cbn;
      (split; [reflexivity|]); (split; [apply last_snoc|]); split;
      try (intros q Hq; now rewrite ?lookup_insert_ne by congruence);
      intros _; rewrite ?lookup_insert_eq, ?orb_true_r;
      first [assumption|reflexivity].
Qed.

(** X15: when the snapshot exists and cannot be read, the
    modification is not recorded: the handler prints the read error
    and adds no row.  When the shadow copy can then be written, the
    snapshot is replaced by the file's bytes; when it cannot be opened
    for writing either, as with a snapshot that has lost all
    permissions, the copy error is printed too and the file system
    stays as it was. *)
Theorem unreadable_snapshot_drops_change p w data old_data :
  p ∉ processing w ->
  any_part_excluded p = false ->
  fs w !! p = Some (File data true) ->
  utf8_probe data = true ->
  fs w !! _get_shadow_path shadow_dir p = Some (File old_data false) ->
  exists w', on_modified shadow_dir (modified p) w = (Ret tt, w')
    /\ db w' = db w
    /\ MsgShadowReadError p ∈ console w'
    /\ (copy_ok w = true ->
        fs w' !! _get_shadow_path shadow_dir p = Some (File data true))
    /\ (copy_ok w = false -> copy_fault w = AtOpen ->
        fs w' = fs w /\ last (console w') = Some (MsgShadowCreateError p)).
Proof.
  intros Hfree Hex Hp Hprobe Hs.
  assert (Hne : p <> _get_shadow_path shadow_dir p) by congruence.
  unfold on_modified, modified. cbn [is_directory src_path negb].
  rewrite process_modification_free by exact Hfree.
  rewrite (modification_body_unreadable shadow_dir p w data)
    by (try assumption; unfold open_read, path_exists; now rewrite Hs).
  cbn [fst snd].
  set (wm := set_console _ _).
  eexists. split; [reflexivity|]. cbn [db fs console set_processing].
  split; [|split; [|split]].
  - now destruct (after_shadow_same_stores shadow_dir p wm) as (-> & _).
  - destruct (after_shadow_console p wm) as [msgs ->].
    subst wm. cbn [console set_console].
    rewrite !elem_of_app, list_elem_of_singleton. auto.
  - intros Hcopy. apply after_shadow_snapshot; [exact Hp| |exact Hcopy].
    exact (isdir_file _ wm _ _ Hs).
  - intros Hcopy Hfault.
    rewrite (after_shadow_copy_failed p wm data old_data false)
      by assumption.
    change (copy_fault wm) with (copy_fault w). rewrite Hfault.
    split; [reflexivity|]. cbn. apply last_snoc.
Qed.

(** X7: when [create_shadow] returns [True] and the shadow path is not
    a directory, the file was readable, [has_shadow] holds,
    [get_shadow_content] gives the text of the file's bytes and
    [get_shadow_size] their number; the metadata file holds the path
    and that size, each on a line of its own. *)
Theorem create_shadow_round_trip p w w' :
  create_shadow shadow_dir p w = (Ret true, w') ->
  isdir (_get_shadow_path shadow_dir p) w = false ->
  exists data,
    fs w !! p = Some (File data true)
    /\ has_shadow shadow_dir p w' = (Ret true, w')
    /\ get_shadow_content shadow_dir p w' = (Ret (Some (read_text data)), w')
    /\ get_shadow_size shadow_dir p w'
       = (Ret (Some (Z.of_nat (String.length data))), w')
    /\ (p <> _get_metadata_path shadow_dir p ->
        fs w' !! _get_metadata_path shadow_dir p
        = Some (File (p +:+ newline
                      +:+ pretty (Z.of_nat (String.length data)) +:+ newline)
                  true)).
Proof.
  intros Hrun Hdir. revert Hrun.
  unfold create_shadow, try_except. rewrite bind_gets.
  destruct (negb (path_exists p w)); [discriminate|].
  unfold bind at 1, copy2, open_read. rewrite Hdir.
  destruct (fs w !! p) as [[sz|data [|]|sz e|e]|] eqn:Hp; try discriminate.
  rewrite Hdir.
  destruct (bool_decide (p = _get_shadow_path shadow_dir p)) eqn:Hsame;
    [discriminate|].
  apply bool_decide_eq_false_1 in Hsame. cbn [orb].
  destruct (copy_ok w); [|destruct (copy_fault w); discriminate].
  unfold bind at 1, write_metadata.
  match goal with |- context [if ?c then (Raise OSError, _) else _] =>
    destruct c end; [discriminate|].
  match goal with |- context [getsize ?a ?b] =>
    destruct (getsize a b) as [[sz|e] w1] eqn:Hsz end; [|discriminate].
  cbn [ret bind]. intros [= <-]. exists data.
  match goal with |- context [has_shadow _ _ ?x] => set (w' := x) end.
  assert (Hs : fs w' !! _get_shadow_path shadow_dir p = Some (File data true)).
  { subst w'. cbn [fs set_fs].
    rewrite lookup_insert_ne by apply shadow_path_not_metadata_path.
    apply lookup_insert_eq. }
  split; [reflexivity|]. split; [|split; [|split]].
  - now rewrite has_shadow_lookup, (path_exists_lookup _ _ _ _ Hs).
  - now apply get_shadow_content_readable.
  - now rewrite (get_shadow_size_present _ _ _ _ _ Hs).
  - intros Hne. unfold getsize in Hsz. cbn [fs set_fs] in Hsz.
    rewrite !lookup_insert_ne, Hp in Hsz by congruence.
    injection Hsz as <- _. subst w'. cbn [fs set_fs].
    rewrite (string_app_assoc p newline). apply lookup_insert_eq.
Qed.

(** X16: a modification event for a file whose text is that of its
    snapshot is recorded as well, with no line added, deleted or
    changed and the difference of the sizes in bytes. *)
Theorem same_text_recorded_with_zero_lines p w data old_data :
  p ∉ processing w ->
  any_part_excluded p = false ->
  fs w !! p = Some (File data true) ->
  utf8_probe data = true ->
  fs w !! _get_shadow_path shadow_dir p = Some (File old_data true) ->
  db_ok w = true ->
  read_text old_data = read_text data ->
  exists w' row,
    on_modified shadow_dir (modified p) w = (Ret tt, w')
    /\ db w' = (db w ++ [row])%list
    /\ event_type row = "modified"
    /\ lines_added row = 0 /\ lines_deleted row = 0 /\ lines_changed row = 0
    /\ size_change row
       = Some (Z.of_nat (String.length data) - Z.of_nat (String.length old_data))%Z.
Proof.
  intros Hfree Hex Hp Hprobe Hs Hok Htext.
  destruct (modification_recorded shadow_dir p w data old_data
              Hfree Hex Hp Hprobe Hs Hok) as (w' & Hrun & Hdb & _).
  exists w', (modified_row p (now w) old_data data).
  split; [exact Hrun|]. split; [exact Hdb|].
  unfold modified_row, _compute_diff. rewrite Htext, count_unified_diff_same.
  repeat split.
Qed.

(** X13: an event changes nothing at all, both handlers returning
    with the state they were given, when it is for a directory, for an
    excluded path, for a path at which nothing is found and above
    which nothing stands in the way ([open] raises
    [FileNotFoundError]), for a file that may not be read, or for a
    file that does not pass the UTF-8 probe. *)
Theorem unprocessable_event_changes_nothing ev w :
  is_directory ev = true
  \/ isdir (src_path ev) w = true
  \/ any_part_excluded (src_path ev) = true
  \/ (fs w !! src_path ev = None
      /\ missing_error (ancestors (src_path ev)) w = FileNotFoundError)
  \/ (exists data, fs w !! src_path ev = Some (File data false))
  \/ (exists data, fs w !! src_path ev = Some (File data true)
                   /\ utf8_probe data = false) ->
  on_modified shadow_dir ev w = (Ret tt, w)
  /\ on_created shadow_dir ev w = (Ret tt, w).
Proof.
  intros Hwhy. apply should_process_false_ignored.
  destruct Hwhy as [Hdir|Hwhy]; [now left|right].
  rewrite should_process_unfold.
  destruct (isdir (src_path ev) w) eqn:Hdir; [reflexivity|].
  destruct (any_part_excluded (src_path ev)) eqn:Hex; [reflexivity|].
  unfold open_file.
  destruct Hwhy as [?|[?|[[Hp Herr]|[[data Hp]|(data & Hp & Hprobe)]]]];
    try discriminate; rewrite Hp; cbn [fst].
  - now rewrite Herr.
  - reflexivity.
  - now rewrite Hprobe.
Qed.

(** X17: once a handler has run to its end on a file, the next
    modification of that file is recorded against the bytes the file
    had at that time: the row is the one of these bytes and the
    current ones. *)
Theorem next_modification_diffs_against_last_seen p w w1 w2 data data2 :
  on_modified shadow_dir (modified p) w = (Ret tt, w1)
  \/ on_created shadow_dir (created p) w = (Ret tt, w1) ->
  p ∉ processing w ->
  any_part_excluded p = false ->
  fs w !! p = Some (File data true) ->
  utf8_probe data = true ->
  isdir (_get_shadow_path shadow_dir p) w = false ->
  copy_ok w = true ->
  p <> _get_shadow_path shadow_dir p ->
  fs w2 = <[p := File data2 true]> (fs w1) ->
  processing w2 = processing w1 ->
  db_ok w2 = true ->
  utf8_probe data2 = true ->
  exists w3, on_modified shadow_dir (modified p) w2 = (Ret tt, w3)
    /\ db w3 = (db w2 ++ [modified_row p (now w2) data data2])%list.
Proof.
  intros Hrun Hfree Hex Hp Hprobe Hdir Hcopy Hne Hfs Hproc Hok Hprobe2.
  destruct (handled_snapshot p w w1 data Hrun Hfree Hex Hp Hprobe Hdir Hcopy)
    as [Hsnap Hproc1].
  destruct (modification_recorded shadow_dir p w2 data2 data)
    as (w3 & Hrun3 & Hdb & _); try assumption.
  - congruence.
  - rewrite Hfs. apply lookup_insert_eq.
  - rewrite Hfs, lookup_insert_ne by congruence. exact Hsnap.
  - eauto.
Qed.

End Branches.

(** * Further concrete runs *)

Ltac differ := vm_compute; discriminate.

Lemma compute_diff_against_empty_witness :
  _compute_diff [] (py "a\nb\n") = (length (splitlines (py "a\nb\n")), 0)
  /\ _compute_diff (py "a\nb\n") [] = (0, length (splitlines (py "a\nb\n"))).
Proof. apply (compute_diff_against_empty (py "a\nb\n")). by_computation. Defined.

Lemma line_endings_read_as_lf_witness :
  no_cr (read_text ("a" +:+ crlf +:+ "b" +:+ crlf)) = true
  /\ read_text (esc "a\nb\n") = decoded (esc "a\nb\n")
  /\ read_text ("a" +:+ crlf +:+ "b" +:+ crlf) = read_text (esc "a\nb\n")
  /\ _compute_diff (read_text ("a" +:+ crlf +:+ "b" +:+ crlf))
       (read_text (esc "a\nb\n")) = (0, 0)
  /\ _compute_diff (read_text (esc "a\nb\n"))
       (read_text ("a" +:+ crlf +:+ "b" +:+ crlf)) = (0, 0).
Proof.
  destruct (line_endings_read_as_lf ("a" +:+ crlf +:+ "b" +:+ crlf)
              (esc "a\nb\n") ("a" +:+ crlf +:+ "b" +:+ crlf)) as [Hany Hlf].
  split; [exact Hany|]. apply Hlf; [by_computation|left; by_computation].
Defined.

Lemma magnitude_untagged_iff_witness :
  (magnitude (Some 100%Z) 50 = Ret " [FILE ZEROED OUT!]"
   <-> 50%Z = 0%Z /\ (0 < 100)%Z)
  /\ (magnitude (Some 100%Z) 50 = Ret ""
      <-> 100%Z = 0%Z \/ (100 <= 2 * 50 /\ 50 <= 2 * 100)%Z).
Proof.
  apply (magnitude_untagged_iff 100 50); [split; [lia|reflexivity]|lia].
Defined.

Lemma create_shadow_round_trip_witness :
  exists data,
    fs untracked_world !! "/w/a.txt" = Some (File data true)
    /\ @has_shadow demo_platform "/s" "/w/a.txt" snapshot_taken_world
       = (Ret true, snapshot_taken_world)
    /\ @get_shadow_content demo_platform "/s" "/w/a.txt" snapshot_taken_world
       = (Ret (Some (read_text data)), snapshot_taken_world)
    /\ @get_shadow_size demo_platform "/s" "/w/a.txt" snapshot_taken_world
       = (Ret (Some (Z.of_nat (String.length data))), snapshot_taken_world)
    /\ ("/w/a.txt" <> @_get_metadata_path demo_platform "/s" "/w/a.txt" ->
        fs snapshot_taken_world !! @_get_metadata_path demo_platform "/s" "/w/a.txt"
        = Some (File ("/w/a.txt" +:+ newline
                      +:+ pretty (Z.of_nat (String.length data)) +:+ newline)
                  true)).
Proof.
  apply (@create_shadow_round_trip demo_platform "/s" "/w/a.txt" untracked_world
           snapshot_taken_world); by_computation.
Defined.

Lemma event_appends_at_most_one_row_witness :
  (db (snd (tracked_modified_run true)) = db (tracked_world [] true)
   \/ exists old_data data,
        fs (tracked_world [] true) !! "/w/a.txt" = Some (File data true)
        /\ fs (tracked_world [] true) !! @_get_shadow_path demo_platform "/s" "/w/a.txt"
           = Some (File old_data true)
        /\ db (snd (tracked_modified_run true))
           = (db (tracked_world [] true)
              ++ [modified_row "/w/a.txt" (now (tracked_world [] true))
                    old_data data])%list)
  /\ (db (snd (tracked_created_run true)) = db (tracked_world [] true)
      \/ exists data,
           fs (tracked_world [] true) !! "/w/a.txt" = Some (File data true)
           /\ db (snd (tracked_created_run true))
              = (db (tracked_world [] true)
                 ++ [created_row "/w/a.txt" (now (tracked_world [] true)) data])%list).
Proof.
  split.
  - apply (proj1 (@event_appends_at_most_one_row demo_platform "/s"
                    (modified "/w/a.txt") (tracked_world [] true)
                    (fst (tracked_modified_run true))
                    (snd (tracked_modified_run true)))).
    by_computation.
  - apply (proj2 (@event_appends_at_most_one_row demo_platform "/s"
                    (created "/w/a.txt") (tracked_world [] true)
                    (fst (tracked_created_run true))
                    (snd (tracked_created_run true)))).
    by_computation.
Defined.

Lemma uncaught_open_error_escapes_witness :
  @on_created demo_platform "/s" (created "/w/a.txt/x") untracked_world
  = (Raise NotADirectoryError, untracked_world)
  /\ ("/w/a.txt/x" ∉ processing untracked_world ->
      @on_modified demo_platform "/s" (modified "/w/a.txt/x") untracked_world
      = (Raise NotADirectoryError, untracked_world)).
Proof.
  apply (@uncaught_open_error_escapes demo_platform "/s" (created "/w/a.txt/x")
           untracked_world NotADirectoryError); by_computation.
Defined.

Lemma guard_set_unchanged_witness :
  processing (snd (tracked_modified_run true)) = processing (tracked_world [] true).
Proof.
  apply (@guard_set_unchanged demo_platform "/s" (modified "/w/a.txt")
           (tracked_world [] true) (fst (tracked_modified_run true))).
  left. by_computation.
Defined.


Lemma snapshots_of_other_files_untouched_witness :
  fs (snd (tracked_modified_run true)) !! @_get_shadow_path demo_platform "/s" "/w/b.txt"
  = fs (tracked_world [] true) !! @_get_shadow_path demo_platform "/s" "/w/b.txt"
  /\ fs (snd (tracked_modified_run true))
       !! @_get_metadata_path demo_platform "/s" "/w/b.txt"
     = fs (tracked_world [] true) !! @_get_metadata_path demo_platform "/s" "/w/b.txt".
Proof.
  apply (@snapshots_of_other_files_untouched demo_platform "/s" (modified "/w/a.txt")
           (tracked_world [] true) (fst (tracked_modified_run true)));
    first [differ | by_computation | left; by_computation].
Defined.

Lemma unprocessable_event_changes_nothing_witness :
  @on_modified demo_platform "/s" (modified "/w/a.bin") binary_world
  = (Ret tt, binary_world)
  /\ @on_created demo_platform "/s" (created "/w/a.bin") binary_world
     = (Ret tt, binary_world).
Proof.
  apply (@unprocessable_event_changes_nothing demo_platform "/s"
           (modified "/w/a.bin") binary_world).
  do 5 right. exists (String "255" EmptyString). split; by_computation.
Defined.

Lemma failed_copy_still_records_witness :
  exists w',
    @on_modified demo_platform "/s" (modified "/w/a.txt") full_disk_world = (Ret tt, w')
    /\ db w' = (db full_disk_world
                ++ [modified_row "/w/a.txt" (now full_disk_world)
                      (esc "a\nb\nc\n") (esc "a\nx\nc\nd\n")])%list
    /\ last (console w') = Some (MsgShadowCreateError "/w/a.txt")
    /\ (forall q, q <> @_get_shadow_path demo_platform "/s" "/w/a.txt" ->
                  fs w' !! q = fs full_disk_world !! q)
    /\ fs w' !! @_get_shadow_path demo_platform "/s" "/w/a.txt"
       = Some (File (esc "a\nx\nc\nd\n") true).
Proof.
  destruct (@failed_copy_still_records demo_platform "/s" "/w/a.txt"
              full_disk_world (esc "a\nx\nc\nd\n") (esc "a\nb\nc\n"))
    as (w' & Hrun & Hdb & Hlast & Helse & Hsnap);
    try first [not_held | by_computation].
  exists w'. repeat (split; [assumption|]).
  apply Hsnap. differ.
Defined.

Lemma unreadable_snapshot_drops_change_witness :
  (exists w',
     @on_modified demo_platform "/s" (modified "/w/a.txt") locked_snapshot_world
     = (Ret tt, w')
     /\ db w' = db locked_snapshot_world
     /\ MsgShadowReadError "/w/a.txt" ∈ console w'
     /\ fs w' !! @_get_shadow_path demo_platform "/s" "/w/a.txt"
        = Some (File (esc "a\nx\nc\nd\n") true))
  /\ (exists w',
        @on_modified demo_platform "/s" (modified "/w/a.txt") sealed_snapshot_world
        = (Ret tt, w')
        /\ db w' = db sealed_snapshot_world
        /\ MsgShadowReadError "/w/a.txt" ∈ console w'
        /\ fs w' = fs sealed_snapshot_world
        /\ last (console w') = Some (MsgShadowCreateError "/w/a.txt")).
Proof.
  split.
  - destruct (@unreadable_snapshot_drops_change demo_platform "/s" "/w/a.txt"
                locked_snapshot_world (esc "a\nx\nc\nd\n") (esc "a\nb\nc\n"))
      as (w' & Hrun & Hdb & Hmsg & Hok & _);
      try first [not_held | by_computation].
    exists w'. repeat (split; [assumption|]). apply Hok. by_computation.
  - destruct (@unreadable_snapshot_drops_change demo_platform "/s" "/w/a.txt"
                sealed_snapshot_world (esc "a\nx\nc\nd\n") (esc "a\nb\nc\n"))
      as (w' & Hrun & Hdb & Hmsg & _ & Hfail);
      try first [not_held | by_computation].
    exists w'. repeat (split; [assumption|]). apply Hfail; by_computation.
Defined.

Lemma same_text_recorded_with_zero_lines_witness :
  exists w' row,
    @on_modified demo_platform "/s" (modified "/w/a.txt") line_endings_world
    = (Ret tt, w')
    /\ db w' = (db line_endings_world ++ [row])%list
    /\ event_type row = "modified"
    /\ lines_added row = 0 /\ lines_deleted row = 0 /\ lines_changed row = 0
    /\ size_change row
       = Some (Z.of_nat (String.length (esc "a\nb\n"))
               - Z.of_nat (String.length ("a" +:+ crlf +:+ "b" +:+ crlf)))%Z.
Proof.
  apply (@same_text_recorded_with_zero_lines demo_platform "/s" "/w/a.txt"
           line_endings_world (esc "a\nb\n") ("a" +:+ crlf +:+ "b" +:+ crlf));
    first [not_held | by_computation].
Defined.

Lemma next_modification_diffs_against_last_seen_witness :
  exists w3,
    @on_modified demo_platform "/s" (modified "/w/a.txt") edited_world = (Ret tt, w3)
    /\ db w3 = (db edited_world
                ++ [modified_row "/w/a.txt" (now edited_world)
                      (esc "a\nx\nc\nd\n") (esc "a\ny\nc\n")])%list.
Proof.
  apply (@next_modification_diffs_against_last_seen demo_platform "/s" "/w/a.txt"
           untracked_world first_seen_world edited_world
           (esc "a\nx\nc\nd\n") (esc "a\ny\nc\n"));
    first [not_held | differ | by_computation | left; by_computation].
Defined.
